(** * Runtime containment layer: threshold engine, fail-mode handler,
      kill executor, multi-window detector and firewall back ends.

    Shallow embedding of

      - [src/python/behavioral_thresholds.py]  (modules [Thresholds],
                                                [ThresholdsOps])
      - [src/python/fail_mode.py]              (modules [FailMode],
                                                [PolicyStore])
      - [src/python/hard_kill.py]              (modules [HardKill],
                                                [HardKillOps])
      - [src/python/sliding_window.py]         (modules [SlidingWindow],
                                                [WindowMonitor])
      - [src/python/network_kill.py]           (modules [NetworkKill],
                                                [NetworkManager])

    Conventions.  Python dictionaries are [gmap]s, or association lists in
    insertion order where the code iterates over them; Python [int]s are
    [Z], wall-clock readings and other [float]s are exact rationals [Q]
    (the code only does arithmetic on them and compares them).  Every call
    that reads the clock takes the reading [now] as an argument.  Objects
    mutated in place are threaded explicitly: a method [m(self, x)] becomes
    [m self x : Self * result]. *)

From Stdlib Require Import ZArith QArith Lqa Lia Bool Ascii String List
  Sorted.
From stdpp Require Import gmap strings list pretty.
Import ListNotations.

Local Open Scope string_scope.
Local Open Scope list_scope.
Local Open Scope Z_scope.

(** ** Rational comparisons as booleans *)

Definition Qltb (a b : Q) : bool := negb (Qle_bool b a).
Definition Qleb (a b : Q) : bool := Qle_bool a b.

(* ===================================================================== *)
(** * Part I: the programs                                                *)
(* ===================================================================== *)

(** ** behavioral_thresholds.py *)

Module Thresholds.

(** [class ThresholdAction(Enum)] *)
Inductive ThresholdAction := WARN | BLOCK | THROTTLE | KILL.

Definition ThresholdAction_eqb (a b : ThresholdAction) : bool :=
  match a, b with
  | WARN, WARN | BLOCK, BLOCK | THROTTLE, THROTTLE | KILL, KILL => true
  | _, _ => false
  end.

(** [@dataclass ThresholdConfig] *)
Record ThresholdConfig := mkThresholdConfig {
  name : string;
  action_type : string;
  max_count : Z;
  window_seconds : Z;
  action_on_breach : ThresholdAction;
  cooldown_seconds : Z;
  multiplier_for_kill : Q
}.

(** [@dataclass ThresholdBreach]; [timestamp] defaults to the clock
    reading at construction. *)
Record ThresholdBreach := mkThresholdBreach {
  agent_id : string;
  threshold_name : string;
  breach_action_type : string;
  count : Z;
  limit : Z;
  breach_window_seconds : Z;
  breach_action : ThresholdAction;
  should_kill : bool;
  timestamp : Q
}.

(** [self._stats] *)
Record Stats := mkStats {
  total_checks : Z;
  total_allowed : Z;
  total_blocked : Z;
  total_kills : Z;
  breaches_by_type : gmap string Z
}.

(** The mutable fields of [class BehavioralThresholds].  The two
    callbacks [on_breach] and [on_kill] are the host's hooks; the
    embedding is of an engine constructed without them (their default,
    [None]), so [_handle_breach] calls nothing. *)
Record BehavioralThresholds := mkBehavioralThresholds {
  thresholds : gmap string ThresholdConfig;
  action_history : gmap string (gmap string (list Q));
  cooldowns : gmap string (gmap string Q);
  breach_history : list ThresholdBreach;
  stats : Stats
}.

(** [{t.action_type: t for t in thresholds}]: later entries win. *)
Definition thresholds_of_list (l : list ThresholdConfig)
  : gmap string ThresholdConfig :=
  fold_left (fun m t => <[action_type t := t]> m) l ∅.

(** [DEFAULT_THRESHOLDS] *)
Definition DEFAULT_THRESHOLDS : list ThresholdConfig :=
  [ mkThresholdConfig "File Read Limit" "file_read" 100 60 BLOCK 60 2%Q;
    mkThresholdConfig "File Write Limit" "file_write" 50 60 BLOCK 60 (3#2)%Q;
    mkThresholdConfig "File Delete Limit" "file_delete" 10 60 KILL 60 1%Q;
    mkThresholdConfig "Network Request Limit" "network_request" 50 60
                      THROTTLE 60 3%Q;
    mkThresholdConfig "External API Limit" "external_api" 30 60 BLOCK 60 2%Q;
    mkThresholdConfig "Data Upload Limit" "data_upload" 10 60 KILL 60 1%Q;
    mkThresholdConfig "Shell Exec Limit" "shell_exec" 10 300 KILL 60 1%Q;
    mkThresholdConfig "Process Spawn Limit" "process_spawn" 5 60 BLOCK 60
                      (3#2)%Q;
    mkThresholdConfig "DB Query Limit" "db_query" 200 60 THROTTLE 60 3%Q;
    mkThresholdConfig "DB Write Limit" "db_write" 50 60 BLOCK 60 2%Q;
    mkThresholdConfig "Transaction Limit" "transaction" 20 3600 BLOCK 60 2%Q;
    mkThresholdConfig "High Value TX Limit" "high_value_tx" 5 3600 KILL 60
                      1%Q ].

(** [__init__]: [thresholds or DEFAULT_THRESHOLDS], so an empty list
    selects the defaults as [None] does. *)
Definition init (l : list ThresholdConfig) : BehavioralThresholds :=
  {| thresholds :=
       thresholds_of_list (match l with [] => DEFAULT_THRESHOLDS | _ => l end);
     action_history := ∅;
     cooldowns := ∅;
     breach_history := [];
     stats := mkStats 0 0 0 0 ∅ |}.

(** Reading [self._action_history[agent_id][action_type]] of the nested
    [defaultdict]: a missing entry reads as the empty list. *)
Definition history_of (h : gmap string (gmap string (list Q)))
    (agent ty : string) : list Q :=
  default [] (default ∅ (h !! agent) !! ty).

(** Assigning [self._action_history[agent_id][action_type] = l]. *)
Definition set_history (h : gmap string (gmap string (list Q)))
    (agent ty : string) (l : list Q) : gmap string (gmap string (list Q)) :=
  <[agent := <[ty := l]> (default ∅ (h !! agent))]> h.

Definition with_history (st : BehavioralThresholds)
    (h : gmap string (gmap string (list Q))) : BehavioralThresholds :=
  {| thresholds := thresholds st; action_history := h;
     cooldowns := cooldowns st; breach_history := breach_history st;
     stats := stats st |}.

Definition with_stats (st : BehavioralThresholds) (s : Stats)
  : BehavioralThresholds :=
  {| thresholds := thresholds st; action_history := action_history st;
     cooldowns := cooldowns st; breach_history := breach_history st;
     stats := s |}.

Definition bump_checks (s : Stats) : Stats :=
  mkStats (total_checks s + 1) (total_allowed s) (total_blocked s)
          (total_kills s) (breaches_by_type s).
Definition bump_allowed (s : Stats) : Stats :=
  mkStats (total_checks s) (total_allowed s + 1) (total_blocked s)
          (total_kills s) (breaches_by_type s).
Definition bump_blocked (s : Stats) : Stats :=
  mkStats (total_checks s) (total_allowed s) (total_blocked s + 1)
          (total_kills s) (breaches_by_type s).
Definition bump_kills (s : Stats) : Stats :=
  mkStats (total_checks s) (total_allowed s) (total_blocked s)
          (total_kills s + 1) (breaches_by_type s).
Definition bump_breach_type (ty : string) (s : Stats) : Stats :=
  mkStats (total_checks s) (total_allowed s) (total_blocked s)
          (total_kills s)
          (<[ty := default 0 (breaches_by_type s !! ty) + 1]>
             (breaches_by_type s)).

(** [_count_recent_actions]: prune to [ts > now - window_seconds], store
    the pruned list back, return its length. *)
Definition _count_recent_actions (st : BehavioralThresholds)
    (agent ty : string) (now : Q) (window : Z)
  : BehavioralThresholds * Z :=
  let cutoff := (now - inject_Z window)%Q in
  let history := history_of (action_history st) agent ty in
  let kept := List.filter (fun ts => Qltb cutoff ts) history in
  (with_history st (set_history (action_history st) agent ty kept),
   Z.of_nat (length kept)).

(** [_record_action]: append the timestamp ([target] and [metadata] are
    accepted and ignored by the source). *)
Definition _record_action (st : BehavioralThresholds)
    (agent ty target : string) (ts : Q) : BehavioralThresholds :=
  with_history st
    (set_history (action_history st) agent ty
       (history_of (action_history st) agent ty ++ [ts])).

(** [_is_in_cooldown] *)
Definition _is_in_cooldown (st : BehavioralThresholds)
    (agent ty : string) (now : Q) : bool :=
  match cooldowns st !! agent with
  | None => false
  | Some m => Qltb now (default 0%Q (m !! ty))
  end.

(** [_handle_breach] *)
Definition _handle_breach (st : BehavioralThresholds) (agent : string)
    (threshold : ThresholdConfig) (cnt : Z) (now : Q)
  : BehavioralThresholds * ThresholdBreach :=
  let kill_threshold :=
    (inject_Z (max_count threshold) * multiplier_for_kill threshold)%Q in
  let kill := Qleb kill_threshold (inject_Z cnt)
              || ThresholdAction_eqb (action_on_breach threshold) KILL in
  let breach :=
    {| agent_id := agent;
       threshold_name := name threshold;
       breach_action_type := action_type threshold;
       count := cnt;
       limit := max_count threshold;
       breach_window_seconds := window_seconds threshold;
       breach_action := action_on_breach threshold;
       should_kill := kill;
       timestamp := now |} in
  let s1 := bump_breach_type (action_type threshold)
              (bump_blocked (stats st)) in
  let s2 := if kill then bump_kills s1 else s1 in
  ({| thresholds := thresholds st;
      action_history := action_history st;
      cooldowns :=
        <[agent := <[action_type threshold :=
                       (now + inject_Z (cooldown_seconds threshold))%Q]>
                     (default ∅ (cooldowns st !! agent))]> (cooldowns st);
      breach_history := breach_history st ++ [breach];
      stats := s2 |},
   breach).

(** The breach object built inline when a check falls in a cooldown. *)
Definition cooldown_breach (agent ty : string) (now : Q) : ThresholdBreach :=
  {| agent_id := agent;
     threshold_name := "Cooldown Active";
     breach_action_type := ty;
     count := 0;
     limit := 0;
     breach_window_seconds := 0;
     breach_action := BLOCK;
     should_kill := false;
     timestamp := now |}.

(** [check_action] *)
Definition check_action (st : BehavioralThresholds)
    (agent ty target : string) (now : Q)
  : BehavioralThresholds * (bool * option ThresholdBreach) :=
  let st := with_stats st (bump_checks (stats st)) in
  if _is_in_cooldown st agent ty now then
    (with_stats st (bump_blocked (stats st)),
     (false, Some (cooldown_breach agent ty now)))
  else
    match thresholds st !! ty with
    | None =>
        let st := _record_action st agent ty target now in
        (with_stats st (bump_allowed (stats st)), (true, None))
    | Some threshold =>
        let '(st, cnt) :=
          _count_recent_actions st agent ty now (window_seconds threshold) in
        if (max_count threshold <=? cnt)%Z then
          let '(st, breach) := _handle_breach st agent threshold cnt now in
          (st, (false, Some breach))
        else
          let st := _record_action st agent ty target now in
          (with_stats st (bump_allowed (stats st)), (true, None))
    end.

(** A caller issuing one [check_action] per clock reading in [times]. *)
Fixpoint check_actions (st : BehavioralThresholds)
    (agent ty target : string) (times : list Q)
  : BehavioralThresholds * list (bool * option ThresholdBreach) :=
  match times with
  | [] => (st, [])
  | t :: times' =>
      let '(st1, r) := check_action st agent ty target t in
      let '(st2, rs) := check_actions st1 agent ty target times' in
      (st2, r :: rs)
  end.

(** [class ExfiltrationDetector].  The caps are instance attributes. *)
Record ExfiltrationDetector := mkExfiltrationDetector {
  data_volumes : gmap string (list (Q * Z));
  unique_targets : gmap string (gset string);
  max_data_volume_mb : Q;
  max_unique_files : Z;
  max_unique_ips : Z;
  exfil_window_seconds : Z
}.

(** [ExfiltrationDetector.__init__] *)
Definition exfil_init : ExfiltrationDetector :=
  {| data_volumes := ∅; unique_targets := ∅;
     max_data_volume_mb := 100%Q; max_unique_files := 1000;
     max_unique_ips := 20; exfil_window_seconds := 300 |}.

(** The reason string of [record_data_access], kept as its parts (the
    source formats them into an f-string). *)
Inductive ExfilReason :=
| NoReason
| DataVolumeExceeded (total_mb : Q) (window : Z)
| UniqueFilesExceeded (n : Z).

Definition sum_sizes (l : list (Q * Z)) : Z :=
  fold_right (fun e acc => snd e + acc) 0 l.

(** The two quantities [record_data_access] compares with its caps,
    read off a detector state. *)
Definition volume_bytes (d : ExfiltrationDetector) (agent : string) : Z :=
  sum_sizes (default [] (data_volumes d !! agent)).
Definition unique_target_count (d : ExfiltrationDetector) (agent : string)
  : Z :=
  Z.of_nat (size (default ∅ (unique_targets d !! agent))).

(** [record_data_access] *)
Definition record_data_access (d : ExfiltrationDetector)
    (agent target : string) (bytes_accessed : Z) (now : Q)
  : ExfiltrationDetector * (bool * ExfilReason) :=
  let cutoff := (now - inject_Z (exfil_window_seconds d))%Q in
  let vols := default [] (data_volumes d !! agent) ++ [(now, bytes_accessed)] in
  let tgts := default ∅ (unique_targets d !! agent) ∪ {[target]} in
  let vols := List.filter (fun e => Qltb cutoff (fst e)) vols in
  let d' :=
    {| data_volumes := <[agent := vols]> (data_volumes d);
       unique_targets := <[agent := tgts]> (unique_targets d);
       max_data_volume_mb := max_data_volume_mb d;
       max_unique_files := max_unique_files d;
       max_unique_ips := max_unique_ips d;
       exfil_window_seconds := exfil_window_seconds d |} in
  let total_bytes := sum_sizes vols in
  let total_mb := (inject_Z total_bytes / inject_Z (1024 * 1024))%Q in
  if Qltb (max_data_volume_mb d) total_mb then
    (d', (true, DataVolumeExceeded total_mb (exfil_window_seconds d)))
  else if (max_unique_files d <? Z.of_nat (size tgts))%Z then
    (d', (true, UniqueFilesExceeded (Z.of_nat (size tgts))))
  else (d', (false, NoReason)).

End Thresholds.

(** ** fail_mode.py *)

Module FailMode.

(** What the module takes from the Python runtime: the first 16 hex
    digits of a SHA-256 digest ([hashlib.sha256(..).hexdigest()[:16]])
    and the text Python prints for a float inside an f-string. *)
Class Runtime := {
  sha256_hex16 : string -> string;
  str_float : Q -> string
}.

(** [class FailMode(Enum)] *)
Inductive FailMode := CLOSED | CACHED | OPEN.

(** [@dataclass FailModeConfig] *)
Record FailModeConfig := mkFailModeConfig {
  mode : FailMode;
  api_timeout_ms : Z;
  cache_ttl_seconds : Z;
  cache_file_path : string;
  max_cache_entries : Z;
  alert_on_fail : bool;
  log_level : string
}.

(** The generated [FailModeConfig.__init__]: every field is a keyword
    with a default; [None] here stands for a keyword left out. *)
Definition FailModeConfig_init
    (mode : option FailMode) (api_timeout_ms cache_ttl_seconds : option Z)
    (cache_file_path : option string) (max_cache_entries : option Z)
    (alert_on_fail : option bool) (log_level : option string)
  : FailModeConfig :=
  {| mode := default CLOSED mode;
     api_timeout_ms := default 100 api_timeout_ms;
     cache_ttl_seconds := default 60 cache_ttl_seconds;
     cache_file_path := default ".fence_policy_cache.json" cache_file_path;
     max_cache_entries := default 10000 max_cache_entries;
     alert_on_fail := default true alert_on_fail;
     log_level := default "WARNING" log_level |}.

(** [@dataclass CachedPolicy] *)
Record CachedPolicy := mkCachedPolicy {
  action : string;
  target : string;
  allowed : bool;
  risk_score : Q;
  cached_at : Q;
  expires_at : Q;
  policy_hash : string;
  metadata : list (string * string)
}.

(** [str(b)] of a Python [bool]. *)
Definition str_bool (b : bool) : string := if b then "True" else "False".

(** [class PolicyCache]: the dictionary and the two counters. *)
Record PolicyCache := mkPolicyCache {
  cache_config : FailModeConfig;
  _cache : gmap string CachedPolicy;
  _hits : Z;
  _misses : Z
}.

(** [class FailModeHandler] *)
Record FailModeHandler := mkFailModeHandler {
  config : FailModeConfig;
  cache : PolicyCache;
  _fail_closed_count : Z;
  _fail_cached_count : Z;
  _fail_open_count : Z;
  _last_failure_time : option Q
}.

(** The [reason] text of a decision, kept as the values the source
    interpolates into its f-strings. *)
Inductive Reason :=
| FailClosedReason (action error_msg : string)
| UsingCachedReason (age_seconds : Q) (original_allowed : bool)
                    (original_risk : Q)
| NoCachedPolicyReason (action target : string)
| FailOpenReason (action error_msg : string).

(** [CachedPolicy.is_expired], at clock reading [now]. *)
Definition is_expired (p : CachedPolicy) (now : Q) : bool :=
  Qltb (expires_at p) now.

(** [PolicyCache._make_key] *)
Definition _make_key (action target : string) : string :=
  (action ++ "::" ++ target)%string.

Section WithRuntime.
Context `{Runtime}.

(** [CachedPolicy._compute_hash] *)
Definition _compute_hash (p : CachedPolicy) : string :=
  sha256_hex16
    (action p ++ ":" ++ target p ++ ":" ++ str_bool (allowed p) ++ ":"
     ++ str_float (risk_score p) ++ ":" ++ str_float (cached_at p))%string.

(** [CachedPolicy.verify_integrity] *)
Definition verify_integrity (p : CachedPolicy) : bool :=
  String.eqb (policy_hash p) (_compute_hash p).

(** The entry [PolicyCache.set] builds before storing it: expiry one
    TTL after [now], hash filled in from the other fields. *)
Definition new_policy (cfg : FailModeConfig) (action target : string)
    (allowed : bool) (risk_score : Q) (meta : list (string * string))
    (now : Q) : CachedPolicy :=
  let p := {| action := action; target := target; allowed := allowed;
              risk_score := risk_score; cached_at := now;
              expires_at := (now + inject_Z (cache_ttl_seconds cfg))%Q;
              policy_hash := EmptyString; metadata := meta |} in
  {| action := action; target := target; allowed := allowed;
     risk_score := risk_score; cached_at := now;
     expires_at := (now + inject_Z (cache_ttl_seconds cfg))%Q;
     policy_hash := _compute_hash p; metadata := meta |}.

(** [PolicyCache._load_from_disk]; [disk = None] is a missing or
    unreadable file, which leaves the cache empty. *)
Definition _load_from_disk (disk : option (list CachedPolicy)) (now : Q)
  : gmap string CachedPolicy :=
  match disk with
  | None => ∅
  | Some entries =>
      fold_left
        (fun m p =>
           if negb (is_expired p now) && verify_integrity p
           then <[_make_key (action p) (target p) := p]> m else m)
        entries ∅
  end.

(** [PolicyCache.__init__] *)
Definition PolicyCache_init (cfg : FailModeConfig)
    (disk : option (list CachedPolicy)) (now : Q) : PolicyCache :=
  {| cache_config := cfg; _cache := _load_from_disk disk now;
     _hits := 0; _misses := 0 |}.

(** [PolicyCache.get] *)
Definition get (c : PolicyCache) (action target : string) (now : Q)
  : PolicyCache * option CachedPolicy :=
  let cache_key := _make_key action target in
  match _cache c !! cache_key with
  | None =>
      (mkPolicyCache (cache_config c) (_cache c) (_hits c) (_misses c + 1),
       None)
  | Some policy =>
      if is_expired policy now then
        (mkPolicyCache (cache_config c) (delete cache_key (_cache c))
                       (_hits c) (_misses c + 1), None)
      else if negb (verify_integrity policy) then
        (mkPolicyCache (cache_config c) (delete cache_key (_cache c))
                       (_hits c) (_misses c + 1), None)
      else
        (mkPolicyCache (cache_config c) (_cache c) (_hits c + 1)
                       (_misses c), Some policy)
  end.

(** [FailModeHandler.__init__]: [config or FailModeConfig()]. *)
Definition FailModeHandler_init (cfg : option FailModeConfig)
    (disk : option (list CachedPolicy)) (now : Q) : FailModeHandler :=
  let cfg := default (FailModeConfig_init None None None None None None
                                          None) cfg in
  {| config := cfg; cache := PolicyCache_init cfg disk now;
     _fail_closed_count := 0; _fail_cached_count := 0;
     _fail_open_count := 0; _last_failure_time := None |}.

(** [_handle_fail_closed]; [_send_alert] only writes to the log. *)
Definition _handle_fail_closed (h : FailModeHandler)
    (action target error_msg : string)
  : FailModeHandler * (bool * Reason * Q) :=
  ({| config := config h; cache := cache h;
      _fail_closed_count := _fail_closed_count h + 1;
      _fail_cached_count := _fail_cached_count h;
      _fail_open_count := _fail_open_count h;
      _last_failure_time := _last_failure_time h |},
   (false, FailClosedReason action error_msg, 100%Q)).

(** [_handle_fail_cached] *)
Definition _handle_fail_cached (h : FailModeHandler)
    (action target error_msg : string) (now : Q)
  : FailModeHandler * (bool * Reason * Q) :=
  let '(c, cached) := get (cache h) action target now in
  match cached with
  | Some cached =>
      ({| config := config h; cache := c;
          _fail_closed_count := _fail_closed_count h;
          _fail_cached_count := _fail_cached_count h + 1;
          _fail_open_count := _fail_open_count h;
          _last_failure_time := _last_failure_time h |},
       (allowed cached,
        UsingCachedReason (now - cached_at cached)%Q (allowed cached)
                          (risk_score cached),
        risk_score cached))
  | None =>
      ({| config := config h; cache := c;
          _fail_closed_count := _fail_closed_count h + 1;
          _fail_cached_count := _fail_cached_count h;
          _fail_open_count := _fail_open_count h;
          _last_failure_time := _last_failure_time h |},
       (false, NoCachedPolicyReason action target, 100%Q))
  end.

(** [_handle_fail_open] *)
Definition _handle_fail_open (h : FailModeHandler)
    (action target error_msg : string)
  : FailModeHandler * (bool * Reason * Q) :=
  ({| config := config h; cache := cache h;
      _fail_closed_count := _fail_closed_count h;
      _fail_cached_count := _fail_cached_count h;
      _fail_open_count := _fail_open_count h + 1;
      _last_failure_time := _last_failure_time h |},
   (true, FailOpenReason action error_msg, 0%Q)).

(** [on_validation_failure]; [error] is the text of the exception, if
    one was passed. *)
Definition on_validation_failure (h : FailModeHandler)
    (action target : string) (error : option string) (now : Q)
  : FailModeHandler * (bool * Reason * Q) :=
  let h := {| config := config h; cache := cache h;
              _fail_closed_count := _fail_closed_count h;
              _fail_cached_count := _fail_cached_count h;
              _fail_open_count := _fail_open_count h;
              _last_failure_time := Some now |} in
  let error_msg := default "Unknown error" error in
  match mode (config h) with
  | CLOSED => _handle_fail_closed h action target error_msg
  | CACHED => _handle_fail_cached h action target error_msg now
  | OPEN => _handle_fail_open h action target error_msg
  end.

End WithRuntime.

End FailMode.

(** ** hard_kill.py *)

Module HardKill.

(** [class KillResult(Enum)] *)
Inductive KillResult :=
| SUCCESS | ALREADY_DEAD | SOFT_KILL_SUCCESS | HARD_KILL_SUCCESS
| FAILED | PERMISSION_DENIED | ZOMBIE.

(** [@dataclass KillReport] *)
Record KillReport := mkKillReport {
  pid : Z;
  result : KillResult;
  soft_signal_sent : bool;
  hard_signal_sent : bool;
  time_to_death_ms : option Q;
  error : option string;
  timestamp : Q
}.

(** The two termination requests the module issues. *)
Inductive Signal := SIGTERM | SIGKILL.

Definition Signal_eqb (a b : Signal) : bool :=
  match a, b with
  | SIGTERM, SIGTERM | SIGKILL, SIGKILL => true
  | _, _ => false
  end.

(** The world outside the module: the clock, and the termination
    requests issued so far, each with its time and target. *)
Record World := mkWorld {
  clock : Q;
  requests : list (Q * Z * Signal)
}.

(** The operating system, as the module sees it.  Each answer may
    depend on the time and on the requests already issued.
    - [alive w p]: what [is_process_alive(p)] returns;
    - [soft_ok w p], [hard_ok w p]: what [_send_soft_kill] and
      [_send_hard_kill] return ([True] when the request went through or
      the process was already gone, [False] on a refusal);
    - [children w p]: what [BatchKill._get_children(p)] returns. *)
Record OS := mkOS {
  alive : World -> Z -> bool;
  soft_ok : World -> Z -> bool;
  hard_ok : World -> Z -> bool;
  children : World -> Z -> list Z
}.

(** [time.sleep(d)]: the only operation that takes time here. *)
Definition sleep (w : World) (d : Q) : World :=
  mkWorld (clock w + d)%Q (requests w).

Definition request (w : World) (p : Z) (s : Signal) : World :=
  mkWorld (clock w) (requests w ++ [(clock w, p, s)]).

(** [class HardKill]: its configuration. *)
Record HardKill := mkHardKill {
  soft_timeout : Q;
  verify_interval : Q;
  max_verify_attempts : Z
}.

(** [HardKill.__init__]: the interval is given in milliseconds. *)
Definition HardKill_init (soft_timeout_seconds verify_interval_ms : Q)
    (max_verify_attempts : Z) : HardKill :=
  {| soft_timeout := soft_timeout_seconds;
     verify_interval := (verify_interval_ms / 1000)%Q;
     max_verify_attempts := max_verify_attempts |}.

(** [HardKill()] *)
Definition HardKill_default : HardKill := HardKill_init 2%Q 100%Q 10.

Section WithOS.
Variable os : OS.
Variable hk : HardKill.

(** [_send_soft_kill] / [_send_hard_kill]: issue the request, report
    whether it went through. *)
Definition _send_soft_kill (w : World) (p : Z) : World * bool :=
  (request w p SIGTERM, soft_ok os w p).
Definition _send_hard_kill (w : World) (p : Z) : World * bool :=
  (request w p SIGKILL, hard_ok os w p).

(** The [while] loop of [_wait_for_death], one unit of [fuel] per
    iteration; [None] when the fuel runs out first. *)
Fixpoint wait_loop (fuel : nat) (start timeout : Q) (w : World) (p : Z)
  : option (World * bool) :=
  match fuel with
  | O => None
  | S fuel' =>
      if Qltb (clock w - start) timeout then
        if negb (alive os w p) then Some (w, true)
        else wait_loop fuel' start timeout
                       (sleep w (verify_interval hk)) p
      else Some (w, false)
  end.

(** [_wait_for_death] *)
Definition _wait_for_death (fuel : nat) (w : World) (p : Z) (timeout : Q)
  : option (World * bool) :=
  wait_loop fuel (clock w) timeout w p.

(** The [for] loop of [_verify_death] over [range(n)]. *)
Fixpoint verify_loop (n : nat) (w : World) (p : Z) : World * bool :=
  match n with
  | O => (w, negb (alive os w p))
  | S n' =>
      if negb (alive os w p) then (w, true)
      else verify_loop n' (sleep w (verify_interval hk)) p
  end.

(** [_verify_death] *)
Definition _verify_death (w : World) (p : Z) : World * bool :=
  verify_loop (Z.to_nat (max_verify_attempts hk)) w p.

Definition elapsed_ms (start : Q) (w : World) : Q :=
  ((clock w - start) * 1000)%Q.

(** [HardKill.kill] *)
Definition kill (fuel : nat) (w : World) (p : Z) (escalate : bool)
  : option (World * KillReport) :=
  let start_time := clock w in
  if negb (alive os w p) then
    Some (w, mkKillReport p ALREADY_DEAD false false (Some 0%Q) None
                          (clock w))
  else
    let '(w, soft_success) := _send_soft_kill w p in
    if negb soft_success then
      Some (w, mkKillReport p PERMISSION_DENIED false false None
                 (Some "Failed to send SIGTERM - check permissions")
                 (clock w))
    else
      match _wait_for_death fuel w p (soft_timeout hk) with
      | None => None
      | Some (w, true) =>
          Some (w, mkKillReport p SOFT_KILL_SUCCESS true false
                     (Some (elapsed_ms start_time w)) None (clock w))
      | Some (w, false) =>
          if negb escalate then
            Some (w, mkKillReport p FAILED true false None
                       (Some "Process did not respond to SIGTERM and escalation is disabled")
                       (clock w))
          else
            let '(w, hard_success) := _send_hard_kill w p in
            if negb hard_success then
              Some (w, mkKillReport p FAILED true false None
                         (Some "Failed to send SIGKILL") (clock w))
            else
              let '(w, dead) := _verify_death w p in
              if dead then
                Some (w, mkKillReport p HARD_KILL_SUCCESS true true
                           (Some (elapsed_ms start_time w)) None (clock w))
              else
                Some (w, mkKillReport p ZOMBIE true true
                           (Some (elapsed_ms start_time w))
                           (Some "Process survived SIGKILL - may be zombie or kernel-protected")
                           (clock w))
      end.

(** [BatchKill.kill_many], threading the world. *)
Fixpoint kill_many (fuel : nat) (w : World) (pids : list Z)
  : option (World * list KillReport) :=
  match pids with
  | [] => Some (w, [])
  | p :: pids' =>
      match kill fuel w p true with
      | None => None
      | Some (w1, r) =>
          match kill_many fuel w1 pids' with
          | None => None
          | Some (w2, rs) => Some (w2, r :: rs)
          end
      end
  end.

(** [BatchKill.kill_tree]: descendants in reverse listing order, the
    root last. *)
Definition kill_tree (fuel : nat) (w : World) (p : Z)
  : option (World * list KillReport) :=
  let kids := children os w p in
  match kill_many fuel w (rev kids) with
  | None => None
  | Some (w1, reports) =>
      match kill fuel w1 p true with
      | None => None
      | Some (w2, report) => Some (w2, reports ++ [report])
      end
  end.

(** [class AgentTerminator] *)
Record AgentTerminator := mkAgentTerminator {
  _agents : gmap string Z;
  _kill_history : list KillReport
}.

(** [register_agent] *)
Definition register_agent (t : AgentTerminator) (agent_id : string)
    (p : Z) : AgentTerminator :=
  mkAgentTerminator (<[agent_id := p]> (_agents t)) (_kill_history t).

(** [unregister_agent] *)
Definition unregister_agent (t : AgentTerminator) (agent_id : string)
  : AgentTerminator :=
  match _agents t !! agent_id with
  | Some _ => mkAgentTerminator (delete agent_id (_agents t))
                                (_kill_history t)
  | None => t
  end.

(** [kill_agent].  A [KillReport] object is always truthy, so the
    guard [if report:] only skips the empty-list case of
    [reports[-1] if reports else None]. *)
Definition kill_agent (fuel : nat) (w : World) (t : AgentTerminator)
    (agent_id : string) (kill_children : bool)
  : option (World * AgentTerminator * option KillReport) :=
  match _agents t !! agent_id with
  | None => Some (w, t, None)
  | Some p =>
      let run :=
        if kill_children then
          match kill_tree fuel w p with
          | None => None
          | Some (w1, reports) => Some (w1, last reports)
          end
        else
          match kill fuel w p true with
          | None => None
          | Some (w1, r) => Some (w1, Some r)
          end in
      match run with
      | None => None
      | Some (w1, Some report) =>
          Some (w1,
                unregister_agent
                  (mkAgentTerminator (_agents t)
                                     (_kill_history t ++ [report]))
                  agent_id,
                Some report)
      | Some (w1, None) => Some (w1, t, None)
      end
  end.

End WithOS.

End HardKill.

(** ** sliding_window.py *)

Module SlidingWindow.

(** [class WindowSize(Enum)] and the seconds each member stands for. *)
Inductive WindowSize := HOUR_1 | HOUR_6 | HOUR_24.

Definition window_value (w : WindowSize) : Z :=
  match w with HOUR_1 => 3600 | HOUR_6 => 21600 | HOUR_24 => 86400 end.

Definition WindowSize_eqb (a b : WindowSize) : bool :=
  match a, b with
  | HOUR_1, HOUR_1 | HOUR_6, HOUR_6 | HOUR_24, HOUR_24 => true
  | _, _ => false
  end.

(** [class MetricType(Enum)] *)
Inductive MetricType :=
| BYTES_OUT | BYTES_IN | RECORDS_ACCESSED | API_CALLS | FILES_READ
| CONNECTIONS.

Definition MetricType_eqb (a b : MetricType) : bool :=
  match a, b with
  | BYTES_OUT, BYTES_OUT | BYTES_IN, BYTES_IN
  | RECORDS_ACCESSED, RECORDS_ACCESSED | API_CALLS, API_CALLS
  | FILES_READ, FILES_READ | CONNECTIONS, CONNECTIONS => true
  | _, _ => false
  end.

(** [@dataclass WindowThreshold] *)
Record WindowThreshold := mkWindowThreshold {
  metric : MetricType;
  window : WindowSize;
  limit : Q;
  action : string
}.

(** [DEFAULT_THRESHOLDS] *)
Definition DEFAULT_THRESHOLDS : list WindowThreshold :=
  [ mkWindowThreshold BYTES_OUT HOUR_1 10000000%Q "alert";
    mkWindowThreshold BYTES_OUT HOUR_24 50000000%Q "kill";
    mkWindowThreshold RECORDS_ACCESSED HOUR_1 1000%Q "alert";
    mkWindowThreshold RECORDS_ACCESSED HOUR_24 10000%Q "kill";
    mkWindowThreshold API_CALLS HOUR_1 500%Q "alert";
    mkWindowThreshold FILES_READ HOUR_24 1000%Q "alert";
    mkWindowThreshold CONNECTIONS HOUR_1 100%Q "alert" ].

(** [@dataclass WindowEvent] *)
Record WindowEvent := mkWindowEvent {
  timestamp : Q;
  value : Q
}.

(** [@dataclass ThresholdBreach] *)
Record ThresholdBreach := mkThresholdBreach {
  breach_metric : MetricType;
  breach_window : WindowSize;
  current_value : Q;
  breach_limit : Q;
  breach_action : string;
  agent_id : string;
  breach_timestamp : Q
}.

(** [class SlidingWindow]: the deque of events and the running total. *)
Record SlidingWindow := mkSlidingWindow {
  window_size : WindowSize;
  events : list WindowEvent;
  _total : Q
}.

(** [SlidingWindow.__init__] *)
Definition SlidingWindow_init (size : WindowSize) : SlidingWindow :=
  mkSlidingWindow size [] 0%Q.

(** The idiom [timestamp or time.time()]: [None] and a zero timestamp
    are both falsy and fall back to the clock. *)
Definition or_now (ts : option Q) (now : Q) : Q :=
  match ts with
  | Some t => if Qeq_bool t 0 then now else t
  | None => now
  end.

(** The [while] loop of [_prune]: pop from the left while the oldest
    event is older than the cutoff, subtracting what is popped. *)
Fixpoint prune_loop (cutoff : Q) (evs : list WindowEvent) (total : Q)
  : list WindowEvent * Q :=
  match evs with
  | [] => ([], total)
  | e :: evs' =>
      if Qltb (timestamp e) cutoff
      then prune_loop cutoff evs' (total - value e)%Q
      else (e :: evs', total)
  end.

(** [SlidingWindow._prune] *)
Definition _prune (sw : SlidingWindow) (current_time : Q) : SlidingWindow :=
  let cutoff := (current_time - inject_Z (window_value (window_size sw)))%Q in
  let '(evs, total) := prune_loop cutoff (events sw) (_total sw) in
  mkSlidingWindow (window_size sw) evs total.

(** [SlidingWindow.add] *)
Definition add (sw : SlidingWindow) (v : Q) (ts : option Q) (now : Q)
  : SlidingWindow :=
  let ts := or_now ts now in
  _prune (mkSlidingWindow (window_size sw)
                          (events sw ++ [mkWindowEvent ts v])
                          (_total sw + v)%Q)
         ts.

(** [SlidingWindow.get_total] *)
Definition get_total (sw : SlidingWindow) (current_time : option Q)
    (now : Q) : SlidingWindow * Q :=
  let ts := or_now current_time now in
  let sw := _prune sw ts in
  (sw, _total sw).

(** [class MetricTracker]: the dictionary [windows] has exactly the
    three keys of [WindowSize], so it is a total function here. *)
Record MetricTracker := mkMetricTracker {
  tracker_metric : MetricType;
  windows : WindowSize -> SlidingWindow
}.

(** [MetricTracker.__init__] *)
Definition MetricTracker_init (m : MetricType) : MetricTracker :=
  mkMetricTracker m SlidingWindow_init.

(** [MetricTracker.record]: the same value and timestamp go to every
    window. *)
Definition tracker_record (t : MetricTracker) (v : Q) (ts : option Q)
    (now : Q) : MetricTracker :=
  let ts := or_now ts now in
  mkMetricTracker (tracker_metric t)
                  (fun w => add (windows t w) v (Some ts) now).

(** [MetricTracker.get_total] *)
Definition tracker_get_total (t : MetricTracker) (w : WindowSize)
    (ts : option Q) (now : Q) : MetricTracker * Q :=
  let '(sw, total) := get_total (windows t w) ts now in
  (mkMetricTracker (tracker_metric t)
                   (fun w' => if WindowSize_eqb w' w then sw
                              else windows t w'),
   total).

(** [class SlidingWindowDetector].  As for the threshold engine, the
    embedding is of a detector built without the [on_breach] hook. *)
Record SlidingWindowDetector := mkSlidingWindowDetector {
  detector_agent_id : string;
  thresholds : list WindowThreshold;
  trackers : MetricType -> MetricTracker;
  breaches : list ThresholdBreach;
  _breach_count : Z
}.

(** [SlidingWindowDetector.__init__]:
    [thresholds or DEFAULT_THRESHOLDS]. *)
Definition SlidingWindowDetector_init (agent : string)
    (ths : list WindowThreshold) : SlidingWindowDetector :=
  {| detector_agent_id := agent;
     thresholds := match ths with [] => DEFAULT_THRESHOLDS | _ => ths end;
     trackers := MetricTracker_init;
     breaches := [];
     _breach_count := 0 |}.

Definition set_tracker (d : SlidingWindowDetector) (m : MetricType)
    (t : MetricTracker) : SlidingWindowDetector :=
  {| detector_agent_id := detector_agent_id d;
     thresholds := thresholds d;
     trackers := fun m' => if MetricType_eqb m' m then t else trackers d m';
     breaches := breaches d;
     _breach_count := _breach_count d |}.

(** [SlidingWindowDetector.record] *)
Definition record (d : SlidingWindowDetector) (m : MetricType) (v : Q)
    (ts : option Q) (now : Q) : SlidingWindowDetector :=
  set_tracker d m (tracker_record (trackers d m) v ts now).

(** One iteration of the loop of [check_thresholds]. *)
Definition check_one (current_time now : Q) (th : WindowThreshold)
    (acc : SlidingWindowDetector * list ThresholdBreach)
  : SlidingWindowDetector * list ThresholdBreach :=
  let '(d, found) := acc in
  let '(tracker, current) :=
    tracker_get_total (trackers d (metric th)) (window th)
                      (Some current_time) now in
  let d := set_tracker d (metric th) tracker in
  if Qltb (limit th) current then
    let breach :=
      {| breach_metric := metric th; breach_window := window th;
         current_value := current; breach_limit := limit th;
         breach_action := action th; agent_id := detector_agent_id d;
         breach_timestamp := now |} in
    ({| detector_agent_id := detector_agent_id d;
        thresholds := thresholds d;
        trackers := trackers d;
        breaches := breaches d ++ [breach];
        _breach_count := _breach_count d + 1 |},
     found ++ [breach])
  else (d, found).

(** [SlidingWindowDetector.check_thresholds] *)
Definition check_thresholds (d : SlidingWindowDetector) (ts : option Q)
    (now : Q) : SlidingWindowDetector * list ThresholdBreach :=
  let current_time := or_now ts now in
  fold_left (fun acc th => check_one current_time now th acc)
            (thresholds d) (d, []).

(** A caller recording the same value at each of a list of times. *)
Definition record_at (m : MetricType) (v : Q) (d : SlidingWindowDetector)
    (times : list Q) : SlidingWindowDetector :=
  fold_left (fun d t => record d m v (Some t) t) times d.

End SlidingWindow.

(** ** network_kill.py *)

Module NetworkKill.

(** [class NetworkKillResult(Enum)] *)
Inductive NetworkKillResult :=
| SUCCESS | PARTIAL | FAILED | PERMISSION_DENIED | NOT_SUPPORTED
| ALREADY_BLOCKED | NOT_BLOCKED.

(** [@dataclass NetworkKillReport] *)
Record NetworkKillReport := mkNetworkKillReport {
  agent_id : string;
  result : NetworkKillResult;
  platform : string;
  rules_applied : list string;
  error : option string;
  timestamp : Q
}.

(** Python's [pat in s] on strings. *)
Fixpoint starts_with (pat s : string) : bool :=
  match pat, s with
  | EmptyString, _ => true
  | String a pat', String b s' => Ascii.eqb a b && starts_with pat' s'
  | String _ _, EmptyString => false
  end.

Fixpoint contains (pat s : string) : bool :=
  starts_with pat s
  || match s with
     | EmptyString => false
     | String _ s' => contains pat s'
     end.

(** [class FirewallInterface(ABC)], over the state [H] of the host's
    packet filter.  Every operation takes the state and gives back the
    state it leaves. *)
Class FirewallInterface (H : Type) := {
  block_all_traffic : H -> string -> Q -> H * NetworkKillReport;
  block_outbound : H -> string -> Q -> H * NetworkKillReport;
  block_ip : H -> string -> Q -> H * NetworkKillReport;
  restore_access : H -> string -> Q -> H * NetworkKillReport;
  is_blocked : H -> string -> bool;
  list_rules : H -> list string
}.

(** *** Linux: iptables *)

(** The chain [KILLSWITCH_BLOCK] as [iptables] keeps it: one entry per
    rule, each entry the text [iptables -L -n] prints for the rule (the
    rule's comment is part of that text).  [root] tells whether the
    caller may run [iptables] at all. *)
Record Iptables := mkIptables {
  chain : list string;
  root : bool
}.

Definition iptables_denied : string := "Permission denied - need root".

(** The text of a listed rule: target, the two addresses, the comment. *)
Definition rule_text (src dst comment : string) : string :=
  ("DROP       all  --  " ++ src ++ "  " ++ dst ++ "  /* " ++ comment
   ++ " */")%string.

Definition anywhere : string := "0.0.0.0/0".

(** [iptables -A KILLSWITCH_BLOCK ...]: append one rule. *)
Definition iptables_append (h : Iptables) (text : string)
  : Iptables * (bool * string) :=
  if root h then (mkIptables (chain h ++ [text]) (root h), (true, EmptyString))
  else (h, (false, iptables_denied)).

(** The two header lines of a listing. *)
Definition listing_header : list string :=
  [ "Chain KILLSWITCH_BLOCK (1 references)";
    "num  target     prot opt source               destination" ].

Fixpoint numbered (k : nat) (rules : list string)
  : list (option nat * string) :=
  match rules with
  | [] => []
  | t :: rules' => (Some k, t) :: numbered (S k) rules'
  end.

(** [iptables -L KILLSWITCH_BLOCK -n --line-numbers]: the lines of the
    output.  A line is its text together with the number its first
    column holds, if that column is a number (the header lines start
    with a word).  The number column holds digits and blanks only, so
    no occurrence of a [KILLSWITCH:] tag touches it. *)
Definition iptables_list_numbered (h : Iptables)
  : bool * list (option nat * string) :=
  if root h
  then (true, map (fun t => (None, t)) listing_header
              ++ numbered 1 (chain h))
  else (false, []).

(** [iptables -L KILLSWITCH_BLOCK -n]: the output, line by line. *)
Definition iptables_list (h : Iptables) : bool * list string :=
  if root h then (true, listing_header ++ chain h) else (false, []).

(** Removing the rule in position [n] (from 1) of a chain. *)
Definition delete_nth (n : nat) (rules : list string) : list string :=
  match n with
  | O => rules
  | S i => take i rules ++ drop (S i) rules
  end.

(** [iptables -D KILLSWITCH_BLOCK n] *)
Definition iptables_delete (h : Iptables) (n : nat) : Iptables * bool :=
  if root h && (1 <=? n)%nat && (n <=? length (chain h))%nat
  then (mkIptables (delete_nth n (chain h)) (root h), true)
  else (h, false).

(** [sorted(nums, reverse=True)] *)
Fixpoint insert_desc (x : nat) (l : list nat) : list nat :=
  match l with
  | [] => [x]
  | y :: l' => if (y <=? x)%nat then x :: y :: l'
               else y :: insert_desc x l'
  end.

Fixpoint sorted_reverse (l : list nat) : list nat :=
  match l with
  | [] => []
  | x :: l' => insert_desc x (sorted_reverse l')
  end.

Definition killswitch_tag (identifier : string) : string :=
  ("KILLSWITCH:" ++ identifier)%string.

(** [LinuxFirewall.block_all_traffic] *)
Definition linux_block_all_traffic (h : Iptables) (identifier : string)
    (now : Q) : Iptables * NetworkKillReport :=
  let '(h, (success, msg)) :=
    iptables_append h (rule_text anywhere anywhere
                                 (killswitch_tag identifier)) in
  let rules :=
    if success then [("DROP outbound for PID " ++ identifier)%string]
    else [] in
  let errors :=
    if success then [] else [("PID block failed: " ++ msg)%string] in
  (h, {| agent_id := identifier;
         result := match rules with [] => FAILED | _ => SUCCESS end;
         platform := "linux/iptables";
         rules_applied := rules;
         error := match errors with
                  | [] => None
                  | e :: _ => Some e
                  end;
         timestamp := now |}).

(** [LinuxFirewall.block_ip] *)
Definition linux_block_ip (h : Iptables) (ip_address : string) (now : Q)
  : Iptables * NetworkKillReport :=
  let comment := ("KILLSWITCH:IP:" ++ ip_address)%string in
  let '(h, (success, _)) :=
    iptables_append h (rule_text anywhere ip_address comment) in
  let rules :=
    if success then [("DROP outbound to " ++ ip_address)%string] else [] in
  let '(h, (success, _)) :=
    iptables_append h (rule_text ip_address anywhere comment) in
  let rules :=
    if success then rules ++ [("DROP inbound from " ++ ip_address)%string]
    else rules in
  (h, {| agent_id := ip_address;
         result := match rules with [] => FAILED | _ => SUCCESS end;
         platform := "linux/iptables";
         rules_applied := rules;
         error := None;
         timestamp := now |}).

(** The first loop of [restore_access]: the numbers of the lines that
    contain the tag and start with a number. *)
Fixpoint rule_nums_to_remove (tag : string)
    (lines : list (option nat * string)) : list nat :=
  match lines with
  | [] => []
  | (num, text) :: lines' =>
      if contains tag text then
        match num with
        | Some n => n :: rule_nums_to_remove tag lines'
        | None => rule_nums_to_remove tag lines'
        end
      else rule_nums_to_remove tag lines'
  end.

(** The second loop: delete rule by rule, noting each success. *)
Fixpoint remove_rules (h : Iptables) (nums : list nat)
    (rules_removed : list string) : Iptables * list string :=
  match nums with
  | [] => (h, rules_removed)
  | n :: nums' =>
      let '(h, success) := iptables_delete h n in
      remove_rules h nums'
        (if success
         then rules_removed ++ [("Removed rule #" ++ pretty n)%string]
         else rules_removed)
  end.

(** [LinuxFirewall.restore_access] *)
Definition linux_restore_access (h : Iptables) (identifier : string)
    (now : Q) : Iptables * NetworkKillReport :=
  let '(success, lines) := iptables_list_numbered h in
  let '(h, rules_removed) :=
    if success then
      remove_rules h
        (sorted_reverse
           (rule_nums_to_remove (killswitch_tag identifier) lines)) []
    else (h, []) in
  (h, {| agent_id := identifier;
         result := match rules_removed with
                   | [] => NOT_BLOCKED
                   | _ => SUCCESS
                   end;
         platform := "linux/iptables";
         rules_applied := rules_removed;
         error := None;
         timestamp := now |}).

(** [LinuxFirewall.is_blocked]: the tag occurs in the listing. *)
Definition linux_is_blocked (h : Iptables) (identifier : string) : bool :=
  let '(success, lines) := iptables_list h in
  success && existsb (contains (killswitch_tag identifier)) lines.

(** [LinuxFirewall.list_rules] *)
Definition linux_list_rules (h : Iptables) : list string :=
  let '(success, lines) := iptables_list h in
  if success then List.filter (contains "KILLSWITCH:") lines else [].

#[export] Instance LinuxFirewall : FirewallInterface Iptables := {
  block_all_traffic := linux_block_all_traffic;
  block_outbound := linux_block_all_traffic;
  block_ip := linux_block_ip;
  restore_access := linux_restore_access;
  is_blocked := linux_is_blocked;
  list_rules := linux_list_rules
}.

(** *** macOS: pf *)

(** The address table [killswitch_blocked] of [pf]: a set of addresses,
    kept in the order they were added. *)
Record Pf := mkPf {
  table : list string;
  pf_root : bool
}.

Definition pfctl_denied : string := "pfctl: Permission denied".

(** [pfctl -t killswitch_blocked -T add addr]: a table holds an address
    once. *)
Definition pfctl_add (h : Pf) (addr : string) : Pf * (bool * string) :=
  if pf_root h then
    (mkPf (if existsb (String.eqb addr) (table h) then table h
           else table h ++ [addr]) (pf_root h),
     (true, EmptyString))
  else (h, (false, pfctl_denied)).

(** [pfctl -t killswitch_blocked -T flush] *)
Definition pfctl_flush (h : Pf) : Pf * (bool * string) :=
  if pf_root h then (mkPf [] (pf_root h), (true, EmptyString))
  else (h, (false, pfctl_denied)).

(** [pfctl -t killswitch_blocked -T show]: one address per line. *)
Definition pfctl_show (h : Pf) : bool * list string :=
  if pf_root h then (true, table h) else (false, []).

(** [MacOSFirewall.block_all_traffic]: the identifier only labels the
    report. *)
Definition macos_block_all_traffic (h : Pf) (identifier : string) (now : Q)
  : Pf * NetworkKillReport :=
  let '(h, (success, msg)) := pfctl_add h "0.0.0.0/0" in
  let rules := if success then ["Added to killswitch_blocked table"]
               else [] in
  (h, {| agent_id := identifier;
         result := match rules with [] => FAILED | _ => SUCCESS end;
         platform := "macos/pf";
         rules_applied := rules;
         error := if success then None else Some msg;
         timestamp := now |}).

(** [MacOSFirewall.block_ip] *)
Definition macos_block_ip (h : Pf) (ip_address : string) (now : Q)
  : Pf * NetworkKillReport :=
  let '(h, (success, msg)) := pfctl_add h ip_address in
  (h, {| agent_id := ip_address;
         result := if success then SUCCESS else FAILED;
         platform := "macos/pf";
         rules_applied :=
           if success then [("Blocked " ++ ip_address)%string] else [];
         error := if success then None else Some msg;
         timestamp := now |}).

(** [MacOSFirewall.restore_access]: flush the table. *)
Definition macos_restore_access (h : Pf) (identifier : string) (now : Q)
  : Pf * NetworkKillReport :=
  let '(h, (success, msg)) := pfctl_flush h in
  (h, {| agent_id := identifier;
         result := if success then SUCCESS else FAILED;
         platform := "macos/pf";
         rules_applied := if success then ["Flushed blocked table"] else [];
         error := if success then None else Some msg;
         timestamp := now |}).

(** [MacOSFirewall.is_blocked]: the table shows something. *)
Definition macos_is_blocked (h : Pf) (identifier : string) : bool :=
  let '(success, lines) := pfctl_show h in
  success && match lines with [] => false | _ => true end.

(** [MacOSFirewall.list_rules]: [output.strip().split('\n')], which
    is one empty string for an empty output. *)
Definition macos_list_rules (h : Pf) : list string :=
  let '(success, lines) := pfctl_show h in
  if success then match lines with [] => [EmptyString] | _ => lines end
  else [].

#[export] Instance MacOSFirewall : FirewallInterface Pf := {
  block_all_traffic := macos_block_all_traffic;
  block_outbound := macos_block_all_traffic;
  block_ip := macos_block_ip;
  restore_access := macos_restore_access;
  is_blocked := macos_is_blocked;
  list_rules := macos_list_rules
}.

(** *** Windows: netsh advfirewall *)

(** The rules of the Windows firewall, by name, in the order they were
    added; a name may occur more than once.  [admin] tells whether the
    caller may change them. *)
Record Netsh := mkNetsh {
  fw_rules : list string;
  admin : bool
}.

Definition netsh_denied : string :=
  "The requested operation requires elevation (Run as administrator).".

(** [netsh advfirewall firewall add rule name=...] *)
Definition netsh_add (h : Netsh) (rule_name : string)
  : Netsh * (bool * string) :=
  if admin h then (mkNetsh (fw_rules h ++ [rule_name]) (admin h),
                   (true, "Ok."))
  else (h, (false, netsh_denied)).

(** [netsh advfirewall firewall delete rule name=...]: removes every
    rule of that name, and fails when there is none. *)
Definition netsh_delete (h : Netsh) (rule_name : string) : Netsh * bool :=
  if admin h && existsb (String.eqb rule_name) (fw_rules h)
  then (mkNetsh (List.filter (fun n => negb (String.eqb rule_name n))
                             (fw_rules h)) (admin h), true)
  else (h, false).

(** [netsh advfirewall firewall show rule name=...]: succeeds, and
    prints a [Rule Name:] line, exactly when such a rule exists. *)
Definition netsh_show (h : Netsh) (rule_name : string) : bool :=
  existsb (String.eqb rule_name) (fw_rules h).

Definition RULE_PREFIX : string := "KILLSWITCH_".

(** [WindowsFirewall.block_all_traffic] *)
Definition windows_block_all_traffic (h : Netsh) (identifier : string)
    (now : Q) : Netsh * NetworkKillReport :=
  let rule_name := (RULE_PREFIX ++ identifier)%string in
  let '(h, (success, msg)) := netsh_add h (rule_name ++ "_OUT")%string in
  let rules :=
    if success then [("Block outbound: " ++ rule_name ++ "_OUT")%string]
    else [] in
  let '(h, (success2, _)) := netsh_add h (rule_name ++ "_IN")%string in
  let rules :=
    if success2
    then rules ++ [("Block inbound: " ++ rule_name ++ "_IN")%string]
    else rules in
  (h, {| agent_id := identifier;
         result := match rules with [] => FAILED | _ => SUCCESS end;
         platform := "windows/netsh";
         rules_applied := rules;
         error := if success then None else Some msg;
         timestamp := now |}).

(** [WindowsFirewall.block_outbound] *)
Definition windows_block_outbound (h : Netsh) (identifier : string)
    (now : Q) : Netsh * NetworkKillReport :=
  let rule_name := (RULE_PREFIX ++ identifier ++ "_OUT")%string in
  let '(h, (success, msg)) := netsh_add h rule_name in
  (h, {| agent_id := identifier;
         result := if success then SUCCESS else FAILED;
         platform := "windows/netsh";
         rules_applied :=
           if success then [("Block outbound: " ++ rule_name)%string]
           else [];
         error := if success then None else Some msg;
         timestamp := now |}).

(** [ip_address.replace('.', '_')] *)
Fixpoint dots_to_underscores (s : string) : string :=
  match s with
  | EmptyString => EmptyString
  | String c s' =>
      String (if Ascii.eqb c "."%char then "_"%char else c)
             (dots_to_underscores s')
  end.

(** [WindowsFirewall.block_ip] *)
Definition windows_block_ip (h : Netsh) (ip_address : string) (now : Q)
  : Netsh * NetworkKillReport :=
  let rule_name :=
    (RULE_PREFIX ++ "IP_" ++ dots_to_underscores ip_address)%string in
  let '(h, (success, msg)) := netsh_add h rule_name in
  (h, {| agent_id := ip_address;
         result := if success then SUCCESS else FAILED;
         platform := "windows/netsh";
         rules_applied :=
           if success then [("Block IP: " ++ ip_address)%string] else [];
         error := if success then None else Some msg;
         timestamp := now |}).

(** [WindowsFirewall.restore_access] *)
Definition windows_restore_access (h : Netsh) (identifier : string)
    (now : Q) : Netsh * NetworkKillReport :=
  let rule_out := (RULE_PREFIX ++ identifier ++ "_OUT")%string in
  let '(h, success) := netsh_delete h rule_out in
  let rules_removed :=
    if success then [("Removed " ++ rule_out)%string] else [] in
  let rule_in := (RULE_PREFIX ++ identifier ++ "_IN")%string in
  let '(h, success) := netsh_delete h rule_in in
  let rules_removed :=
    if success then rules_removed ++ [("Removed " ++ rule_in)%string]
    else rules_removed in
  let rule_gen := (RULE_PREFIX ++ identifier)%string in
  let '(h, success) := netsh_delete h rule_gen in
  let rules_removed :=
    if success then rules_removed ++ [("Removed " ++ rule_gen)%string]
    else rules_removed in
  (h, {| agent_id := identifier;
         result := match rules_removed with
                   | [] => NOT_BLOCKED
                   | _ => SUCCESS
                   end;
         platform := "windows/netsh";
         rules_applied := rules_removed;
         error := None;
         timestamp := now |}).

(** [WindowsFirewall.is_blocked]: the outbound rule exists. *)
Definition windows_is_blocked (h : Netsh) (identifier : string) : bool :=
  netsh_show h ((RULE_PREFIX ++ identifier) ++ "_OUT")%string.

(** [WindowsFirewall.list_rules]: the [Rule Name:] lines of
    [show rule name=all] that mention the prefix. *)
Definition windows_list_rules (h : Netsh) : list string :=
  List.filter (contains RULE_PREFIX)
    (map (fun n => ("Rule Name:                            " ++ n)%string)
         (fw_rules h)).

#[export] Instance WindowsFirewall : FirewallInterface Netsh := {
  block_all_traffic := windows_block_all_traffic;
  block_outbound := windows_block_outbound;
  block_ip := windows_block_ip;
  restore_access := windows_restore_access;
  is_blocked := windows_is_blocked;
  list_rules := windows_list_rules
}.

End NetworkKill.

(** ** behavioral_thresholds.py: [reset_agent] and the integrated fence *)

Module ThresholdsOps.
Import Thresholds.

(** [BehavioralThresholds.reset_agent] *)
Definition reset_agent (st : BehavioralThresholds) (agent : string)
  : BehavioralThresholds :=
  {| thresholds := thresholds st;
     action_history := delete agent (action_history st);
     cooldowns := delete agent (cooldowns st);
     breach_history := breach_history st;
     stats := stats st |}.

(** One [check_action] call of a caller: who, what, on what, when. *)
Record Call := mkCall {
  call_agent : string;
  call_type : string;
  call_target : string;
  call_time : Q
}.

(** A caller issuing the calls of a list in order. *)
Fixpoint run (st : BehavioralThresholds) (calls : list Call)
  : BehavioralThresholds * list (bool * option ThresholdBreach) :=
  match calls with
  | [] => (st, [])
  | c :: calls' =>
      let '(st1, r) :=
        check_action st (call_agent c) (call_type c) (call_target c)
                     (call_time c) in
      let '(st2, rs) := run st1 calls' in
      (st2, r :: rs)
  end.

(** [class BehavioralFence], built without a kill callback of its own.
    The fence installs its [_handle_kill] as the engine's [on_kill] hook;
    that hook runs once for every breach with [should_kill], and all it
    does here is count. *)
Record BehavioralFence := mkBehavioralFence {
  fence_thresholds : BehavioralThresholds;
  exfiltration : ExfiltrationDetector;
  _kill_count : Z
}.

(** [BehavioralFence.__init__] *)
Definition BehavioralFence_init (custom_thresholds : list ThresholdConfig)
  : BehavioralFence :=
  {| fence_thresholds := init custom_thresholds;
     exfiltration := exfil_init;
     _kill_count := 0 |}.

(** The [reason] of [BehavioralFence.check], kept as its parts.
    [MissingBreach] stands for the [AttributeError] the source would
    raise on a rejection that carries no breach. *)
Inductive FenceReason :=
| Allowed
| ThresholdBreachReason (threshold_name : string) (kill_triggered : bool)
| ExfiltrationDetected (reason : ExfilReason)
| MissingBreach.

(** [action_type in ["file_read", "db_query", "network_request"]] *)
Definition data_bearing (ty : string) : bool :=
  existsb (String.eqb ty) ["file_read"; "db_query"; "network_request"].

(** [BehavioralFence.check] *)
Definition check (f : BehavioralFence) (agent ty target : string)
    (data_size : Z) (now : Q) : BehavioralFence * (bool * FenceReason) :=
  let '(st, (allowed, breach)) :=
    check_action (fence_thresholds f) agent ty target now in
  if negb allowed then
    match breach with
    | Some b =>
        (mkBehavioralFence st (exfiltration f)
           (if should_kill b then _kill_count f + 1 else _kill_count f),
         (false, ThresholdBreachReason (threshold_name b) (should_kill b)))
    | None =>
        (mkBehavioralFence st (exfiltration f) (_kill_count f),
         (false, MissingBreach))
    end
  else if data_bearing ty && (0 <? data_size)%Z then
    let '(d, (is_exfil, exfil_reason)) :=
      record_data_access (exfiltration f) agent target data_size now in
    if is_exfil then
      (mkBehavioralFence st d (_kill_count f + 1),
       (false, ExfiltrationDetected exfil_reason))
    else (mkBehavioralFence st d (_kill_count f), (true, Allowed))
  else (mkBehavioralFence st (exfiltration f) (_kill_count f),
        (true, Allowed)).

End ThresholdsOps.

(** ** fail_mode.py: the cache as an ordered dictionary, and the factory *)

Module PolicyStore.
Import FailMode.

(** A Python [dict] with string keys, in insertion order. *)
Definition Dict : Type := list (string * CachedPolicy).

(** [d[k]], if present. *)
Fixpoint dict_get (k : string) (d : Dict) : option CachedPolicy :=
  match d with
  | [] => None
  | (k', v) :: d' => if String.eqb k' k then Some v else dict_get k d'
  end.

(** [d[k] = v]: an existing key keeps its place, a new one goes last. *)
Fixpoint dict_set (k : string) (v : CachedPolicy) (d : Dict) : Dict :=
  match d with
  | [] => [(k, v)]
  | (k', v') :: d' =>
      if String.eqb k' k then (k, v) :: d' else (k', v') :: dict_set k v d'
  end.

(** [del d[k]] *)
Definition dict_del (k : string) (d : Dict) : Dict :=
  List.filter (fun e => negb (String.eqb (fst e) k)) d.

(** [class PolicyCache], with the dictionary in insertion order. *)
Record PolicyStore := mkPolicyStore {
  store_config : FailModeConfig;
  _entries : Dict;
  store_hits : Z;
  store_misses : Z
}.

(** The same cache with the order of its dictionary forgotten. *)
Definition to_cache (s : PolicyStore) : PolicyCache :=
  mkPolicyCache (store_config s) (list_to_map (_entries s)) (store_hits s)
                (store_misses s).

(** [sorted(items, key=lambda x: x[1].cached_at)]: a stable sort, so
    entries cached at the same time stay in dictionary order. *)
Fixpoint insert_by_time (e : string * CachedPolicy) (l : Dict) : Dict :=
  match l with
  | [] => [e]
  | x :: l' =>
      if Qleb (cached_at (snd x)) (cached_at (snd e))
      then x :: insert_by_time e l'
      else e :: x :: l'
  end.

Definition sorted_by_time (d : Dict) : Dict :=
  fold_left (fun acc e => insert_by_time e acc) d [].

(** Python truthiness of an optional string argument. *)
Definition truthy (o : option string) : bool :=
  match o with
  | Some s => negb (String.eqb s EmptyString)
  | None => false
  end.

(** [action and policy.action == action] *)
Definition names (o : option string) (s : string) : bool :=
  truthy o && match o with Some a => String.eqb s a | None => false end.

Section WithRuntime.
Context `{Runtime}.

(** [PolicyCache.get] *)
Definition store_get (s : PolicyStore) (action target : string) (now : Q)
  : PolicyStore * option CachedPolicy :=
  let cache_key := _make_key action target in
  match dict_get cache_key (_entries s) with
  | None =>
      (mkPolicyStore (store_config s) (_entries s) (store_hits s)
                     (store_misses s + 1), None)
  | Some policy =>
      if is_expired policy now then
        (mkPolicyStore (store_config s) (dict_del cache_key (_entries s))
                       (store_hits s) (store_misses s + 1), None)
      else if negb (verify_integrity policy) then
        (mkPolicyStore (store_config s) (dict_del cache_key (_entries s))
                       (store_hits s) (store_misses s + 1), None)
      else
        (mkPolicyStore (store_config s) (_entries s) (store_hits s + 1)
                       (store_misses s), Some policy)
  end.

(** [PolicyCache._cleanup_oldest] *)
Definition _cleanup_oldest (d : Dict) : Dict :=
  let sorted_entries := sorted_by_time d in
  let remove_count := (length sorted_entries / 10)%nat in
  fold_left (fun d e => dict_del (fst e) d)
            (firstn remove_count sorted_entries) d.

(** [PolicyCache._save_to_disk]: the records written, in dictionary
    order; expired entries are left out. *)
Definition _save_to_disk (d : Dict) (now : Q) : list CachedPolicy :=
  List.filter (fun p => negb (is_expired p now)) (map snd d).

(** [PolicyCache.set], with [now] the clock reading that stamps the
    entry and [later] the one [_save_to_disk] compares expiry times with.
    Besides the new cache it gives what is written to the cache file, if
    this call writes it. *)
Definition store_set (s : PolicyStore) (action target : string)
    (allowed : bool) (risk_score : Q) (meta : list (string * string))
    (now later : Q) : PolicyStore * option (list CachedPolicy) :=
  let cache_key := _make_key action target in
  let policy :=
    new_policy (store_config s) action target allowed risk_score meta now in
  let d := dict_set cache_key policy (_entries s) in
  let d :=
    if (max_cache_entries (store_config s) <? Z.of_nat (length d))%Z
    then _cleanup_oldest d else d in
  (mkPolicyStore (store_config s) d (store_hits s) (store_misses s),
   if (Z.of_nat (length d) mod 100 =? 0)%Z then Some (_save_to_disk d later)
   else None).

(** [PolicyCache.invalidate] *)
Definition invalidate (s : PolicyStore) (action target : option string)
  : PolicyStore :=
  match action, target with
  | None, None =>
      mkPolicyStore (store_config s) [] (store_hits s) (store_misses s)
  | _, _ =>
      if truthy action && truthy target then
        mkPolicyStore (store_config s)
          (dict_del (_make_key (default EmptyString action)
                               (default EmptyString target))
                    (_entries s))
          (store_hits s) (store_misses s)
      else
        mkPolicyStore (store_config s)
          (List.filter
             (fun e => negb (names action (FailMode.action (snd e))
                             || names target (FailMode.target (snd e))))
             (_entries s))
          (store_hits s) (store_misses s)
  end.

(** [str.lower()] on the letters A to Z; every other byte is kept. *)
Definition lower_ascii (c : ascii) : ascii :=
  let n := nat_of_ascii c in
  if (65 <=? n)%nat && (n <=? 90)%nat then ascii_of_nat (n + 32) else c.

Fixpoint lower (s : string) : string :=
  match s with
  | EmptyString => EmptyString
  | String c s' => String (lower_ascii c) (lower s')
  end.

(** [create_fail_mode_handler]: [mode_map.get(mode.lower(),
    FailMode.CLOSED)]. *)
Definition create_fail_mode_handler (mode_name : string)
    (api_timeout_ms cache_ttl_seconds : Z)
    (disk : option (list CachedPolicy)) (now : Q) : FailModeHandler :=
  let m := lower mode_name in
  let fail_mode :=
    if String.eqb m "closed" then CLOSED
    else if String.eqb m "cached" then CACHED
    else if String.eqb m "open" then OPEN
    else CLOSED in
  FailModeHandler_init
    (Some (FailModeConfig_init (Some fail_mode) (Some api_timeout_ms)
                               (Some cache_ttl_seconds) None None None None))
    disk now.

(** A caller reporting one validation failure after another. *)
Fixpoint fail_all (h : FailModeHandler)
    (failures : list (string * string * option string * Q))
  : FailModeHandler * list (bool * Reason * Q) :=
  match failures with
  | [] => (h, [])
  | (action, target, error, now) :: rest =>
      let '(h1, r) := on_validation_failure h action target error now in
      let '(h2, rs) := fail_all h1 rest in
      (h2, r :: rs)
  end.

End WithRuntime.

End PolicyStore.

(** ** hard_kill.py: the rest of [AgentTerminator] *)

Module HardKillOps.
Import HardKill.

Section WithOS.
Variable os : OS.
Variable hk : HardKill.

(** [AgentTerminator.kill_all].  [agent_ids] is
    [list(self._agents.keys())], the snapshot the loop runs over; the
    reports of the agents that were still registered are collected. *)
Fixpoint kill_all (fuel : nat) (w : World) (t : AgentTerminator)
    (agent_ids : list string)
  : option (World * AgentTerminator * list KillReport) :=
  match agent_ids with
  | [] => Some (w, t, [])
  | agent_id :: rest =>
      match kill_agent os hk fuel w t agent_id true with
      | None => None
      | Some (w1, t1, report) =>
          match kill_all fuel w1 t1 rest with
          | None => None
          | Some (w2, t2, reports) =>
              Some (w2, t2,
                    match report with
                    | Some r => r :: reports
                    | None => reports
                    end)
          end
      end
  end.

(** The first agent registered under [p], in the order of [items]. *)
Fixpoint first_with_pid (p : Z) (items : list (string * Z))
  : option string :=
  match items with
  | [] => None
  | (agent_id, agent_pid) :: rest =>
      if (agent_pid =? p)%Z then Some agent_id else first_with_pid p rest
  end.

(** [AgentTerminator.kill_by_pid].  [items] is
    [list(self._agents.items())]; the loop over it stops at the first
    agent registered under [p]. *)
Definition kill_by_pid (fuel : nat) (w : World) (t : AgentTerminator)
    (items : list (string * Z)) (p : Z) (kill_children : bool)
  : option (World * AgentTerminator * KillReport) :=
  let run :=
    if kill_children then
      match kill_tree os hk fuel w p with
      | None => None
      | Some (w1, reports) =>
          Some (w1,
                default (mkKillReport p FAILED false false None
                                      (Some "No reports generated")
                                      (clock w1))
                        (last reports))
      end
    else kill os hk fuel w p true in
  match run with
  | None => None
  | Some (w1, report) =>
      let t1 := mkAgentTerminator (_agents t)
                                  (_kill_history t ++ [report]) in
      Some (w1,
            match first_with_pid p items with
            | Some agent_id => unregister_agent t1 agent_id
            | None => t1
            end,
            report)
  end.

End WithOS.

End HardKillOps.

(** ** sliding_window.py: [should_kill] and the fleet monitor *)

Module WindowMonitor.
Import SlidingWindow.

(** [SlidingWindowDetector.should_kill] *)
Definition should_kill (d : SlidingWindowDetector) (now : Q)
  : SlidingWindowDetector * bool :=
  let '(d, found) := check_thresholds d None now in
  (d, existsb (fun b => String.eqb (breach_action b) "kill") found).

(** A caller's use of one detector: recording and checking. *)
Inductive Op :=
| Record (m : MetricType) (v : Q) (ts : option Q) (now : Q)
| Check (ts : option Q) (now : Q)
| ShouldKill (now : Q).

Definition step (d : SlidingWindowDetector) (op : Op)
  : SlidingWindowDetector :=
  match op with
  | Record m v ts now => record d m v ts now
  | Check ts now => fst (check_thresholds d ts now)
  | ShouldKill now => fst (should_kill d now)
  end.

Definition run (d : SlidingWindowDetector) (ops : list Op)
  : SlidingWindowDetector :=
  fold_left step ops d.

(** [MultiAgentWindowMonitor.detectors]: a dictionary in insertion
    order. *)
Definition Detectors : Type := list (string * SlidingWindowDetector).

Fixpoint detector_of (agent : string) (ds : Detectors)
  : option SlidingWindowDetector :=
  match ds with
  | [] => None
  | (a, d) :: ds' => if String.eqb a agent then Some d
                     else detector_of agent ds'
  end.

(** [self.detectors[agent] = d]: an agent already there keeps its
    place. *)
Fixpoint set_detector (agent : string) (d : SlidingWindowDetector)
    (ds : Detectors) : Detectors :=
  match ds with
  | [] => [(agent, d)]
  | (a, d') :: ds' =>
      if String.eqb a agent then (agent, d) :: ds'
      else (a, d') :: set_detector agent d ds'
  end.

(** [MultiAgentWindowMonitor.register] *)
Definition register (ds : Detectors) (agent : string)
    (ths : list WindowThreshold) : Detectors :=
  set_detector agent (SlidingWindowDetector_init agent ths) ds.

(** [MultiAgentWindowMonitor.unregister] *)
Definition unregister (ds : Detectors) (agent : string) : Detectors :=
  List.filter (fun e => negb (String.eqb (fst e) agent)) ds.

(** [MultiAgentWindowMonitor.record] *)
Definition monitor_record (ds : Detectors) (agent : string)
    (m : MetricType) (v : Q) (now : Q) : Detectors :=
  match detector_of agent ds with
  | Some d => set_detector agent (record d m v None now) ds
  | None => ds
  end.

(** The calls of [on_kill] that [_handle_breach] makes for the breaches
    of one check. *)
Definition kill_calls (agent : string) (found : list ThresholdBreach)
  : list (string * ThresholdBreach) :=
  map (fun b => (agent, b))
      (List.filter (fun b => String.eqb (breach_action b) "kill") found).

(** [MultiAgentWindowMonitor.check_all], with [now_for a] the clock
    reading when the detector of agent [a] is checked.  It gives the
    monitor afterwards, the dictionary returned, and the calls of
    [on_kill] in the order they are made. *)
Fixpoint check_all (ds : Detectors) (now_for : string -> Q)
  : Detectors * list (string * list ThresholdBreach)
    * list (string * ThresholdBreach) :=
  match ds with
  | [] => ([], [], [])
  | (a, d) :: ds' =>
      let '(d1, found) := check_thresholds d None (now_for a) in
      let '(ds1, results, calls) := check_all ds' now_for in
      ((a, d1) :: ds1, (a, found) :: results, kill_calls a found ++ calls)
  end.

End WindowMonitor.

(** ** network_kill.py: [NetworkKillManager], built without a cloud
    provider *)

Module NetworkManager.
Import NetworkKill.

(** Python truthiness of an optional [int] argument. *)
Definition truthy_int (o : option Z) : bool :=
  match o with
  | Some n => negb (n =? 0)%Z
  | None => false
  end.

(** [str(pid) if pid else str(uid) if uid else agent_id] *)
Definition identifier_of (agent : string) (pid uid : option Z) : string :=
  if truthy_int pid then pretty (default 0%Z pid)
  else if truthy_int uid then pretty (default 0%Z uid)
  else agent.

(** [self._blocked_agents]: a dictionary in insertion order. *)
Definition Blocked : Type := list (string * NetworkKillReport).

Fixpoint blocked_set (agent : string) (r : NetworkKillReport)
    (b : Blocked) : Blocked :=
  match b with
  | [] => [(agent, r)]
  | (a, r') :: b' =>
      if String.eqb a agent then (agent, r) :: b'
      else (a, r') :: blocked_set agent r b'
  end.

Definition blocked_del (agent : string) (b : Blocked) : Blocked :=
  List.filter (fun e => negb (String.eqb (fst e) agent)) b.

Section WithFirewall.
Context {H : Type} `{FirewallInterface H}.

(** [class NetworkKillManager]; [manager_platform] is what
    [platform.system()] returned and [firewall] the state of the packet
    filter its [FirewallInterface] drives. *)
Record NetworkKillManager := mkNetworkKillManager {
  manager_platform : string;
  firewall : H;
  _blocked_agents : Blocked
}.

(** [NetworkKillManager.kill_network] with [self.cloud] unset, so that
    the only report is the firewall's.  [now] stamps the firewall's
    report and [later] the manager's. *)
Definition kill_network (m : NetworkKillManager) (agent : string)
    (pid uid : option Z) (now later : Q)
  : NetworkKillManager * NetworkKillReport :=
  let identifier := identifier_of agent pid uid in
  let '(fw, os_report) := block_all_traffic (firewall m) identifier now in
  let final_report :=
    {| agent_id := agent;
       result := match result os_report with
                 | SUCCESS => SUCCESS
                 | _ => FAILED
                 end;
       platform := manager_platform m;
       rules_applied := rules_applied os_report;
       error := Some (default EmptyString (error os_report));
       timestamp := later |} in
  (mkNetworkKillManager (manager_platform m) fw
                        (blocked_set agent final_report (_blocked_agents m)),
   final_report).

(** [NetworkKillManager.restore_network] *)
Definition restore_network (m : NetworkKillManager) (agent : string)
    (now : Q) : NetworkKillManager * NetworkKillReport :=
  let '(fw, report) := restore_access (firewall m) agent now in
  (mkNetworkKillManager (manager_platform m) fw
                        (blocked_del agent (_blocked_agents m)),
   report).

(** [NetworkKillManager.kill_all_network] *)
Definition kill_all_network (m : NetworkKillManager) (now : Q)
  : NetworkKillManager * list NetworkKillReport :=
  let '(fw, report) := block_all_traffic (firewall m) "EMERGENCY_ALL" now in
  (mkNetworkKillManager (manager_platform m) fw
                        (blocked_set "EMERGENCY_ALL" report
                                     (_blocked_agents m)),
   [report]).

(** The loop of [restore_all_network] over a snapshot of the keys;
    [now_for a] is the clock reading when agent [a] is restored. *)
Fixpoint restore_each (m : NetworkKillManager) (agents : list string)
    (now_for : string -> Q)
  : NetworkKillManager * list NetworkKillReport :=
  match agents with
  | [] => (m, [])
  | a :: rest =>
      let '(m1, report) := restore_network m a (now_for a) in
      let '(m2, reports) := restore_each m1 rest now_for in
      (m2, report :: reports)
  end.

(** [NetworkKillManager.restore_all_network] *)
Definition restore_all_network (m : NetworkKillManager)
    (now_for : string -> Q)
  : NetworkKillManager * list NetworkKillReport :=
  restore_each m (map fst (_blocked_agents m)) now_for.

(** [NetworkKillManager.is_blocked] *)
Definition manager_is_blocked (m : NetworkKillManager) (agent : string)
  : bool :=
  existsb (fun e => String.eqb (fst e) agent) (_blocked_agents m).

(** [NetworkKillManager.get_blocked_agents] *)
Definition get_blocked_agents (m : NetworkKillManager) : list string :=
  map fst (_blocked_agents m).

End WithFirewall.

Arguments NetworkKillManager H : clear implicits.

(** [NetworkKillManager()] on a Linux host whose packet filter is in
    state [h]. *)
Definition manager_on_linux (h : Iptables) : NetworkKillManager Iptables :=
  mkNetworkKillManager "Linux" h [].

End NetworkManager.

(* ===================================================================== *)
(** * Part II: properties                                                 *)
(* ===================================================================== *)

(** ** Comparisons and a list fact used by several modules *)

Lemma Qltb_lt a b : Qltb a b = true <-> (a < b)%Q.
Proof.
  unfold Qltb. rewrite negb_true_iff. split; intros H.
  - apply Qnot_le_lt. intros Hle. apply Qle_bool_iff in Hle. congruence.
  - destruct (Qle_bool b a) eqn:E; [|reflexivity].
    apply Qle_bool_iff in E. exfalso. apply (Qlt_not_le _ _ H E).
Qed.

Lemma Qltb_ge a b : Qltb a b = false <-> (b <= a)%Q.
Proof.
  unfold Qltb. rewrite negb_false_iff. apply Qle_bool_iff.
Qed.

Lemma Qleb_le a b : Qleb a b = true <-> (a <= b)%Q.
Proof. apply Qle_bool_iff. Qed.

Lemma Qleb_gt a b : Qleb a b = false <-> (b < a)%Q.
Proof.
  unfold Qleb. split; intros H.
  - apply Qnot_le_lt. intros Hle. apply Qle_bool_iff in Hle. congruence.
  - destruct (Qle_bool a b) eqn:E; [|reflexivity].
    apply Qle_bool_iff in E. exfalso. apply (Qlt_not_le _ _ H E).
Qed.

Lemma filter_keeps_all {A} (f : A -> bool) (l : list A) :
  List.Forall (fun x => f x = true) l -> List.filter f l = l.
Proof.
  induction 1 as [|x l Hx _ IH]; simpl; [reflexivity|].
  rewrite Hx, IH. reflexivity.
Qed.

Module ThresholdsTheory.
Import Thresholds.

(** *** The nested history dictionary *)

Lemma history_of_set_history h agent ty l :
  history_of (set_history h agent ty l) agent ty = l.
Proof.
  unfold history_of, set_history.
  rewrite lookup_insert_eq. simpl. rewrite lookup_insert_eq. reflexivity.
Qed.

(** A clock reading lies in the closed interval [[lo, hi]]. *)
Definition in_range (lo hi t : Q) : Prop := (lo <= t /\ t <= hi)%Q.

(** Every timestamp of an interval shorter than the window survives the
    pruning done at any clock reading of that interval. *)
Lemma prune_keeps_interval lo hi (w : Z) now (l : list Q) :
  (hi - lo < inject_Z w)%Q -> in_range lo hi now ->
  Forall (in_range lo hi) l ->
  List.filter (fun ts => Qltb (now - inject_Z w) ts) l = l.
Proof.
  intros Hw [_ Hnow] Hl. apply filter_keeps_all.
  eapply Forall_impl; [exact Hl|]. intros t [Ht _]. simpl.
  apply Qltb_lt. lra.
Qed.

(** *** Cooldowns only end *)

Lemma cooldown_over_stays_over st agent ty lo t :
  _is_in_cooldown st agent ty lo = false -> (lo <= t)%Q ->
  _is_in_cooldown st agent ty t = false.
Proof.
  unfold _is_in_cooldown. destruct (cooldowns st !! agent) as [m|]; [|easy].
  rewrite !Qltb_ge. intros H1 H2. lra.
Qed.

Lemma is_in_cooldown_ext st st' agent ty t :
  cooldowns st' = cooldowns st ->
  _is_in_cooldown st' agent ty t = _is_in_cooldown st agent ty t.
Proof. unfold _is_in_cooldown. intros ->. reflexivity. Qed.

(** *** One allowed call *)

(** Below the limit, out of cooldown, with the whole history inside the
    window: the call is allowed and appends its timestamp; thresholds
    and cooldowns are untouched. *)
Lemma check_action_below_limit st agent ty target th lo hi now :
  thresholds st !! ty = Some th ->
  _is_in_cooldown st agent ty lo = false ->
  (hi - lo < inject_Z (window_seconds th))%Q ->
  in_range lo hi now ->
  Forall (in_range lo hi) (history_of (action_history st) agent ty) ->
  Z.of_nat (length (history_of (action_history st) agent ty))
    < max_count th ->
  exists st',
    check_action st agent ty target now = (st', (true, None))
    /\ thresholds st' = thresholds st
    /\ cooldowns st' = cooldowns st
    /\ breach_history st' = breach_history st
    /\ history_of (action_history st') agent ty
       = history_of (action_history st) agent ty ++ [now].
Proof.
  intros Hth Hcd Hw Hnow Hhist Hlt.
  assert (Hcd' : _is_in_cooldown st agent ty now = false)
    by (eapply cooldown_over_stays_over; [exact Hcd | apply Hnow]).
  unfold check_action.
  rewrite (is_in_cooldown_ext st (with_stats st (bump_checks (stats st))))
    by reflexivity.
  rewrite Hcd'. cbn [thresholds with_stats]. rewrite Hth.
  unfold _count_recent_actions. cbn [action_history with_stats].
  rewrite (prune_keeps_interval lo hi) by assumption.
  destruct (max_count th <=? _) eqn:E; [apply Z.leb_le in E; lia|].
  eexists. split; [reflexivity|].
  cbn. rewrite !history_of_set_history. auto.
Qed.

(** *** A run of allowed calls *)

Lemma check_actions_below_limit agent ty target th lo hi times :
  forall st,
  thresholds st !! ty = Some th ->
  _is_in_cooldown st agent ty lo = false ->
  (hi - lo < inject_Z (window_seconds th))%Q ->
  Forall (in_range lo hi) (history_of (action_history st) agent ty) ->
  Forall (in_range lo hi) times ->
  Z.of_nat (length (history_of (action_history st) agent ty)
            + length times) <= max_count th ->
  exists st',
    check_actions st agent ty target times
      = (st', map (fun _ => (true, None)) times)
    /\ thresholds st' = thresholds st
    /\ cooldowns st' = cooldowns st
    /\ breach_history st' = breach_history st
    /\ history_of (action_history st') agent ty
       = history_of (action_history st) agent ty ++ times.
Proof.
  induction times as [|t times IH]; intros st Hth Hcd Hw Hhist Htimes Hlen.
  - exists st. cbn. rewrite app_nil_r. auto.
  - inversion Htimes as [|? ? Ht Htimes']; subst.
    destruct (check_action_below_limit st agent ty target th lo hi t)
      as (st1 & Hstep & Hth1 & Hcd1 & Hbh1 & Hh1); auto.
    { cbn [length] in Hlen. lia. }
    destruct (IH st1) as (st2 & Hrun & Hth2 & Hcd2 & Hbh2 & Hh2); auto.
    + rewrite Hth1. exact Hth.
    + rewrite (is_in_cooldown_ext st st1) by exact Hcd1. exact Hcd.
    + rewrite Hh1. apply Forall_app. split; [exact Hhist|].
      constructor; [exact Ht | constructor].
    + rewrite Hh1, length_app. cbn [length] in *. lia.
    + exists st2. cbn [check_actions map]. rewrite Hstep, Hrun.
      split; [reflexivity|].
      rewrite Hh2, Hh1, <- app_assoc. cbn.
      repeat split; congruence.
Qed.

(** *** The call at the limit *)

Lemma check_action_at_limit st agent ty target th lo hi now :
  thresholds st !! ty = Some th ->
  _is_in_cooldown st agent ty lo = false ->
  (hi - lo < inject_Z (window_seconds th))%Q ->
  in_range lo hi now ->
  Forall (in_range lo hi) (history_of (action_history st) agent ty) ->
  max_count th
    <= Z.of_nat (length (history_of (action_history st) agent ty)) ->
  exists st' b,
    check_action st agent ty target now = (st', (false, Some b))
    /\ b = snd (_handle_breach st agent th
                  (Z.of_nat (length (history_of (action_history st)
                                                agent ty))) now)
    /\ breach_history st' = breach_history st ++ [b].
Proof.
  intros Hth Hcd Hw Hnow Hhist Hge.
  assert (Hcd' : _is_in_cooldown st agent ty now = false)
    by (eapply cooldown_over_stays_over; [exact Hcd | apply Hnow]).
  unfold check_action.
  rewrite (is_in_cooldown_ext st (with_stats st (bump_checks (stats st))))
    by reflexivity.
  rewrite Hcd'. cbn [thresholds with_stats]. rewrite Hth.
  unfold _count_recent_actions. cbn [action_history with_stats].
  rewrite (prune_keeps_interval lo hi) by assumption.
  destruct (max_count th <=? _) eqn:E; [|apply Z.leb_gt in E; lia].
  cbn. eexists _, _. split; [reflexivity|]. split; reflexivity.
Qed.

(** C1 (as amended).  With [max_count = N] and window [W], an agent with
    no history for the action type and no running cooldown makes [N]
    calls at clock readings taken from an interval shorter than [W]:
    all [N] are allowed.  One more call in that interval, the
    [(N+1)]-th, is blocked and yields a breach that carries
    [count = limit = N] and the threshold's name, and that breach is
    appended to the audit log. *)
Theorem check_action_blocks_call_after_max_count
    st agent ty target th lo hi times tlast :
  thresholds st !! ty = Some th ->
  history_of (action_history st) agent ty = [] ->
  _is_in_cooldown st agent ty lo = false ->
  (hi - lo < inject_Z (window_seconds th))%Q ->
  Forall (in_range lo hi) times ->
  in_range lo hi tlast ->
  Z.of_nat (length times) = max_count th ->
  exists st1 st2 b,
    check_actions st agent ty target times
      = (st1, map (fun _ => (true, None)) times)
    /\ check_action st1 agent ty target tlast = (st2, (false, Some b))
    /\ count b = max_count th
    /\ limit b = max_count th
    /\ threshold_name b = name th
    /\ breach_history st2 = breach_history st ++ [b].
Proof.
  intros Hth Hempty Hcd Hw Htimes Hlast Hlen.
  destruct (check_actions_below_limit agent ty target th lo hi times st)
    as (st1 & Hrun & Hth1 & Hcd1 & Hbh1 & Hh1); auto.
  { rewrite Hempty. constructor. }
  { rewrite Hempty. cbn [length]. lia. }
  rewrite Hempty in Hh1. cbn in Hh1.
  destruct (check_action_at_limit st1 agent ty target th lo hi tlast)
    as (st2 & b & Hstep & Hb & Hbh2); auto.
  { rewrite Hth1. exact Hth. }
  { rewrite (is_in_cooldown_ext st st1) by exact Hcd1. exact Hcd. }
  { rewrite Hh1. exact Htimes. }
  { rewrite Hh1. lia. }
  exists st1, st2, b. rewrite Hh1 in Hb.
  split; [exact Hrun|]. split; [exact Hstep|].
  subst b. cbn. rewrite Hbh2, Hbh1. cbn. rewrite Hlen. auto.
Qed.

(** A two-per-minute limit used to exercise the engine. *)
Definition two_per_minute : ThresholdConfig :=
  mkThresholdConfig "Two" "op" 2 60 BLOCK 60 2%Q.

Lemma check_action_blocks_call_after_max_count_witness :
  exists st1 st2 b,
    check_actions (init [two_per_minute]) "agent" "op" "/tmp/x" [0%Q; 1%Q]
      = (st1, [(true, None); (true, None)])
    /\ check_action st1 "agent" "op" "/tmp/x" 2%Q = (st2, (false, Some b))
    /\ count b = 2
    /\ limit b = 2
    /\ threshold_name b = "Two"
    /\ breach_history st2 = [] ++ [b].
Proof.
  apply (check_action_blocks_call_after_max_count
           (init [two_per_minute]) "agent" "op" "/tmp/x" two_per_minute
           0%Q 2%Q [0%Q; 1%Q] 2%Q).
  - reflexivity.
  - reflexivity.
  - reflexivity.
  - reflexivity.
  - repeat constructor; vm_compute; discriminate.
  - split; vm_compute; discriminate.
  - reflexivity.
Defined.

(** C1 as stated fails: with [max_count = 2] the second call in the
    window (the N-th) is not blocked and yields no breach. *)
Lemma nth_call_is_not_blocked :
  ~ (exists st1 r1 st2 b,
       check_action (init [two_per_minute]) "agent" "op" "/tmp/x" 0%Q = (st1, r1)
       /\ check_action st1 "agent" "op" "/tmp/x" 1%Q = (st2, (false, Some b))).
Proof.
  intros (st1 & r1 & st2 & b & H1 & H2).
  vm_compute in H1. inversion H1; subst; clear H1.
  vm_compute in H2. discriminate H2.
Qed.

(** *** The kill rule *)


Lemma ThresholdAction_eqb_eq a b :
  ThresholdAction_eqb a b = true <-> a = b.
Proof. destruct a, b; cbn; split; congruence. Qed.


(** The breaches [check_action] can return, by path. *)
Lemma check_action_blocked_inv st agent ty target now st' b :
  check_action st agent ty target now = (st', (false, Some b)) ->
  (_is_in_cooldown st agent ty now = true
   /\ b = cooldown_breach agent ty now
   /\ breach_history st' = breach_history st)
  \/ (_is_in_cooldown st agent ty now = false
      /\ exists th cnt,
           thresholds st !! ty = Some th
           /\ b = snd (_handle_breach st agent th cnt now)
           /\ breach_history st' = breach_history st ++ [b]).
Proof.
  unfold check_action.
  rewrite (is_in_cooldown_ext st (with_stats st (bump_checks (stats st))))
    by reflexivity.
  destruct (_is_in_cooldown st agent ty now) eqn:Hcd.
  - intros H. inversion H; subst. left. auto.
  - cbn [thresholds with_stats].
    destruct (thresholds st !! ty) as [th|] eqn:Hth; [|discriminate].
    unfold _count_recent_actions.
    destruct (max_count th <=? _); [|discriminate].
    cbn. intros H. inversion H; subst. right. split; [reflexivity|].
    eexists th, _. split; [reflexivity|]. split; reflexivity.
Qed.



(** The engine after two allowed calls under [two_per_minute]. *)
Definition two_calls_made : BehavioralThresholds :=
  fst (check_actions (init [two_per_minute]) "agent" "op" "/tmp/x" [0%Q; 1%Q]).



(** *** The exfiltration sub-check *)

(** The byte list kept for an agent only holds accesses newer than the
    cutoff of the call that stored it. *)
Lemma record_data_access_prunes_volumes d agent target bytes now :
  Forall (fun e => (now - inject_Z (exfil_window_seconds d) < fst e)%Q)
         (default [] (data_volumes (fst (record_data_access
                                           d agent target bytes now))
                      !! agent)).
Proof.
  unfold record_data_access.
  set (vols := List.filter _ _).
  assert (Hv : Forall (fun e => (now - inject_Z (exfil_window_seconds d)
                                 < fst e)%Q) vols).
  { apply List.Forall_forall. intros e He.
    apply List.filter_In in He. apply Qltb_lt, He. }
  repeat match goal with |- context [if ?c then _ else _] => destruct c end;
    cbn; rewrite lookup_insert_eq; exact Hv.
Qed.

(** The target set is only ever extended: no clock reading enters. *)
Lemma record_data_access_keeps_targets d agent target bytes now :
  unique_targets (fst (record_data_access d agent target bytes now))
    !! agent
  = Some (default ∅ (unique_targets d !! agent) ∪ {[target]}).
Proof.
  unfold record_data_access.
  repeat match goal with |- context [if ?c then _ else _] => destruct c end;
    cbn; apply lookup_insert_eq.
Qed.

(** C5 on the code.  Under the shipped caps an agent reads [/a] at time
    0 and [/b] 1000 s later.  After the second call the 300-second byte
    volume holds the second access only, but the count of distinct
    targets is 2: the access from outside the window is still in it. *)
Lemma stale_target_still_counted :
  let d1 := fst (record_data_access exfil_init "agent" "/a" 10 0%Q) in
  let d2 := fst (record_data_access d1 "agent" "/b" 10 1000%Q) in
  data_volumes d2 !! "agent" = Some [(1000%Q, 10)]
  /\ volume_bytes d2 "agent" = 10
  /\ unique_targets d2 !! "agent" = Some {[ "/a"; "/b" ]}
  /\ unique_target_count d2 "agent" = 2.
Proof.
  cbv zeta. split; [|split; [|split]].
  - vm_compute. reflexivity.
  - vm_compute. reflexivity.
  - rewrite !record_data_access_keeps_targets. reflexivity.
  - vm_compute. reflexivity.
Qed.

(** A detector whose unique-target cap is lowered to one: the stale
    target alone then turns the verdict of the second call. *)
Definition one_target_cap : ExfiltrationDetector :=
  {| data_volumes := ∅; unique_targets := ∅;
     max_data_volume_mb := 100%Q; max_unique_files := 1;
     max_unique_ips := 20; exfil_window_seconds := 300 |}.

Example stale_target_trips_cap :
  exists d1 d2 n,
    record_data_access one_target_cap "agent" "/a" 10 0%Q
      = (d1, (false, NoReason))
    /\ record_data_access d1 "agent" "/b" 10 1000%Q
       = (d2, (true, UniqueFilesExceeded n))
    /\ volume_bytes d2 "agent" = 10.
Proof.
  eexists _, _, _.
  split; [vm_compute; reflexivity|].
  split; vm_compute; reflexivity.
Qed.

End ThresholdsTheory.

Module FailModeTheory.
Import FailMode.

(** A stand-in runtime for running the handler on concrete data: the
    digest is the first 16 characters of its input and every float
    prints as its numerator. *)
Definition toy_runtime : Runtime :=
  {| sha256_hex16 := fun s => String.substring 0 16 s;
     str_float := fun q => if (Qnum q =? 0)%Z then "0" else "x" |}.

Section WithRuntime.
Context `{Runtime}.

(** *** CLOSED *)

Lemma handler_without_config_is_closed disk now :
  mode (config (FailModeHandler_init None disk now)) = CLOSED.
Proof. reflexivity. Qed.

Lemma handler_without_mode_is_closed a b c d e f disk now :
  mode (config (FailModeHandler_init
                  (Some (FailModeConfig_init None a b c d e f)) disk now))
  = CLOSED.
Proof. reflexivity. Qed.

Lemma closed_blocks h action target error now :
  mode (config h) = CLOSED ->
  exists h' reason,
    on_validation_failure h action target error now
    = (h', (false, reason, 100%Q)).
Proof.
  intros Hm. unfold on_validation_failure. cbn [config mode].
  rewrite Hm. unfold _handle_fail_closed. eauto.
Qed.

(** C3.  A handler built with no configuration, or with a
    configuration that names no mode, is in CLOSED mode; and a handler
    in CLOSED mode answers every validation failure with
    [allowed = False] and risk 100, whatever the action, the target
    and the error. *)
Theorem default_mode_closed_blocks_with_risk_100 :
  (forall disk now,
      mode (config (FailModeHandler_init None disk now)) = CLOSED)
  /\ (forall a b c d e f disk now,
         mode (config (FailModeHandler_init
                         (Some (FailModeConfig_init None a b c d e f))
                         disk now)) = CLOSED)
  /\ (forall h action target error now,
         mode (config h) = CLOSED ->
         exists h' reason,
           on_validation_failure h action target error now
           = (h', (false, reason, 100%Q))).
Proof.
  split; [|split].
  - apply handler_without_config_is_closed.
  - apply handler_without_mode_is_closed.
  - apply closed_blocks.
Qed.

(** *** CACHED *)

Lemma get_hit c action target now p :
  _cache c !! _make_key action target = Some p ->
  is_expired p now = false ->
  verify_integrity p = true ->
  get c action target now
  = (mkPolicyCache (cache_config c) (_cache c) (_hits c + 1) (_misses c),
     Some p).
Proof.
  intros Hl He Hv. unfold get. rewrite Hl, He, Hv. reflexivity.
Qed.



Lemma cached_mode_unfold h action target error now :
  mode (config h) = CACHED ->
  on_validation_failure h action target error now
  = _handle_fail_cached
      (mkFailModeHandler (config h) (cache h) (_fail_closed_count h)
                         (_fail_cached_count h) (_fail_open_count h)
                         (Some now))
      action target (default "Unknown error" error) now.
Proof.
  intros Hm. unfold on_validation_failure. cbn [config mode].
  rewrite Hm. reflexivity.
Qed.


(** *** What the integrity hash covers *)

Lemma compute_hash_fields p q :
  action p = action q -> target p = target q ->
  allowed p = allowed q -> risk_score p = risk_score q ->
  cached_at p = cached_at q ->
  _compute_hash p = _compute_hash q.
Proof.
  intros Ha Ht Hal Hr Hc. unfold _compute_hash.
  rewrite Ha, Ht, Hal, Hr, Hc. reflexivity.
Qed.

(** [p] with its expiry and metadata replaced. *)
Definition with_expiry_and_metadata (p : CachedPolicy) (e : Q)
    (m : list (string * string)) : CachedPolicy :=
  {| action := action p; target := target p; allowed := allowed p;
     risk_score := risk_score p; cached_at := cached_at p;
     expires_at := e; policy_hash := policy_hash p; metadata := m |}.

(** C10.  Two cached policies that differ only in [expires_at] and
    [metadata] get the same verdict from [verify_integrity].  So an
    entry whose expiry was moved and whose metadata were rewritten
    after creation still verifies, and [get] serves it as a hit as
    long as the new expiry has not passed - also when the original
    entry had already expired. *)
Theorem verify_integrity_blind_to_expiry_and_metadata :
  (forall p q,
      action p = action q -> target p = target q ->
      allowed p = allowed q -> risk_score p = risk_score q ->
      cached_at p = cached_at q -> policy_hash p = policy_hash q ->
      verify_integrity p = verify_integrity q)
  /\ (forall c p e m now,
         verify_integrity p = true ->
         _cache c !! _make_key (action p) (target p)
         = Some (with_expiry_and_metadata p e m) ->
         (now <= e)%Q ->
         snd (get c (action p) (target p) now)
         = Some (with_expiry_and_metadata p e m)).
Proof.
  split.
  - intros p q Ha Ht Hal Hr Hc Hh. unfold verify_integrity.
    rewrite Hh, (compute_hash_fields p q) by assumption. reflexivity.
  - intros c p e m now Hv Hl Hle.
    erewrite get_hit; [reflexivity | exact Hl | |].
    + unfold is_expired. cbn. apply Qltb_ge. exact Hle.
    + exact Hv.
Qed.

End WithRuntime.

(** *** Concrete runs (under [toy_runtime]) *)

Definition closed_handler : FailModeHandler :=
  FailModeHandler_init (H := toy_runtime) None None 0%Q.

Lemma default_mode_closed_blocks_with_risk_100_witness :
  mode (config closed_handler) = CLOSED
  /\ exists h' reason,
       on_validation_failure (H := toy_runtime) closed_handler
         "file_read" "/etc/passwd" (Some "Validation API unreachable") 5%Q
       = (h', (false, reason, 100%Q)).
Proof.
  split; [reflexivity|].
  apply (proj2 (proj2 (default_mode_closed_blocks_with_risk_100
                         (H := toy_runtime)))).
  reflexivity.
Defined.

Definition cached_config : FailModeConfig :=
  FailModeConfig_init (Some CACHED) None None None None None None.

(** The entry [set("file_read", "/etc/passwd", False, 85)] stores at
    time 0; it expires at time 60. *)
Definition passwd_entry : CachedPolicy :=
  new_policy (H := toy_runtime) cached_config "file_read" "/etc/passwd"
             false 85%Q [] 0%Q.

(** A CACHED-mode handler started at time 1 over a disk cache holding
    that entry. *)
Definition cached_handler : FailModeHandler :=
  FailModeHandler_init (H := toy_runtime) (Some cached_config)
                       (Some [passwd_entry]) 1%Q.


(** After the TTL the same handler blocks and drops the entry. *)
Example cached_handler_after_ttl :
  let r := on_validation_failure (H := toy_runtime) cached_handler
             "file_read" "/etc/passwd" None 61%Q in
  snd r = (false, NoCachedPolicyReason "file_read" "/etc/passwd", 100%Q)
  /\ _cache (cache (fst r)) = ∅.
Proof. split; vm_compute; reflexivity. Qed.

(** [passwd_entry] with its expiry pushed to time 1000000 and a note
    added to its metadata. *)
Definition extended_entry : CachedPolicy :=
  with_expiry_and_metadata passwd_entry 1000000%Q [("note", "edited")].

Lemma verify_integrity_blind_to_expiry_and_metadata_witness :
  verify_integrity (H := toy_runtime) passwd_entry
  = verify_integrity (H := toy_runtime) extended_entry
  /\ snd (get (H := toy_runtime)
              (mkPolicyCache cached_config
                 {[ _make_key "file_read" "/etc/passwd" := extended_entry ]}
                 0 0)
              "file_read" "/etc/passwd" 500%Q)
     = Some extended_entry.
Proof.
  destruct (verify_integrity_blind_to_expiry_and_metadata
              (H := toy_runtime)) as [Hsame Hget].
  split.
  - apply Hsame; reflexivity.
  - apply (Hget (mkPolicyCache cached_config
                   {[ _make_key "file_read" "/etc/passwd"
                      := extended_entry ]} 0 0)
                passwd_entry 1000000%Q [("note", "edited")] 500%Q).
    + reflexivity.
    + vm_compute. reflexivity.
    + vm_compute. discriminate.
Defined.

End FailModeTheory.

Module HardKillTheory.
Import HardKill.

Lemma world_eta w : mkWorld (clock w) (requests w) = w.
Proof. destruct w. reflexivity. Qed.


Section WithOS.
Variable os : OS.
Variable hk : HardKill.

(** *** The polling loops *)

Lemma wait_loop_inv start timeout p fuel :
  forall w w' b,
    wait_loop os hk fuel start timeout w p = Some (w', b) ->
    requests w' = requests w
    /\ (if b then alive os w' p = false
                  /\ (clock w' - start < timeout)%Q
        else (timeout <= clock w' - start)%Q).
Proof.
  induction fuel as [|fuel IH]; intros w w' b; cbn; [discriminate|].
  destruct (Qltb (clock w - start) timeout) eqn:Ht.
  - destruct (alive os w p) eqn:Ha; cbn.
    + intros Hrec. apply IH in Hrec. exact Hrec.
    + intros Heq. inversion Heq; subst.
      split; [reflexivity|]. split; [exact Ha|]. apply Qltb_lt, Ht.
  - intros Heq. inversion Heq; subst.
    split; [reflexivity|]. apply Qltb_ge, Ht.
Qed.

(** With a positive polling interval the loop returns once the fuel
    covers the timeout. *)
Lemma wait_loop_returns start timeout p :
  (0 < verify_interval hk)%Q ->
  forall fuel w,
    (timeout - (clock w - start)
     <= inject_Z (Z.of_nat fuel) * verify_interval hk)%Q ->
    exists r, wait_loop os hk (S fuel) start timeout w p = Some r.
Proof.
  intros Hpos. induction fuel as [|fuel IH]; intros w Hrem.
  - cbn. destruct (Qltb (clock w - start) timeout) eqn:Ht.
    + apply Qltb_lt in Ht. change (inject_Z (Z.of_nat 0)) with 0%Q in Hrem.
      lra.
    + eauto.
  - cbn [wait_loop].
    destruct (Qltb (clock w - start) timeout) eqn:Ht; [|eauto].
    destruct (alive os w p); cbn [negb]; [|eauto].
    apply IH. cbn [sleep clock].
    rewrite Nat2Z.inj_succ in Hrem. unfold Z.succ in Hrem.
    rewrite inject_Z_plus in Hrem. change (inject_Z 1) with 1%Q in Hrem.
    lra.
Qed.


(** A process that stays alive is never reported dead by the loop. *)
Lemma wait_loop_alive start timeout p tr :
  (forall t, alive os (mkWorld t tr) p = true) ->
  forall fuel w w' b,
    requests w = tr ->
    wait_loop os hk fuel start timeout w p = Some (w', b) ->
    b = false.
Proof.
  intros Hal. induction fuel as [|fuel IH]; intros w w' b Htr;
    cbn; [discriminate|].
  destruct (Qltb (clock w - start) timeout).
  - assert (Ha : alive os w p = true)
      by (rewrite <- (world_eta w), Htr; apply Hal).
    rewrite Ha. cbn. apply IH. exact Htr.
  - intros Heq. inversion Heq. reflexivity.
Qed.

Lemma verify_loop_inv p n :
  forall w w' b,
    verify_loop os hk n w p = (w', b) ->
    requests w' = requests w /\ b = negb (alive os w' p).
Proof.
  induction n as [|n IH]; intros w w' b; cbn.
  - intros Heq. inversion Heq; subst. auto.
  - destruct (alive os w p) eqn:Ha; cbn.
    + intros Hrec. apply IH in Hrec. exact Hrec.
    + intros Heq. inversion Heq; subst. rewrite Ha. auto.
Qed.

(** *** The paths through [kill] *)



(** [kill] returns whenever the fuel covers the soft timeout. *)
Lemma kill_returns fuel w p escalate :
  (0 < verify_interval hk)%Q ->
  (soft_timeout hk <= inject_Z (Z.of_nat fuel) * verify_interval hk)%Q ->
  exists r, kill os hk (S fuel) w p escalate = Some r.
Proof.
  intros Hpos Hfuel. unfold kill, _send_soft_kill, _send_hard_kill.
  destruct (alive os w p); cbn [negb]; [|eauto].
  destruct (soft_ok os w p); cbn [negb]; [|eauto].
  unfold _wait_for_death.
  destruct (wait_loop_returns (clock (request w p SIGTERM))
              (soft_timeout hk) p Hpos fuel (request w p SIGTERM))
    as [[w2 b] Hw].
  { cbn. lra. }
  rewrite Hw. destruct b; [eauto|].
  destruct escalate; cbn [negb]; [|eauto].
  destruct (hard_ok os w2 p); cbn [negb]; [|eauto].
  destruct (_verify_death os hk (request w2 p SIGKILL) p) as [w4 [|]];
    eauto.
Qed.


(** *** The terminator *)

Lemma kill_many_returns fuel pids :
  (0 < verify_interval hk)%Q ->
  (soft_timeout hk <= inject_Z (Z.of_nat fuel) * verify_interval hk)%Q ->
  forall w, exists r, kill_many os hk (S fuel) w pids = Some r.
Proof.
  intros Hpos Hfuel. induction pids as [|p pids IH]; intros w.
  - cbn. eauto.
  - cbn [kill_many].
    destruct (kill_returns fuel w p true Hpos Hfuel) as [[w1 r] Hk].
    rewrite Hk. destruct (IH w1) as [[w2 rs] Hm]. rewrite Hm. eauto.
Qed.

Lemma kill_tree_returns fuel w p :
  (0 < verify_interval hk)%Q ->
  (soft_timeout hk <= inject_Z (Z.of_nat fuel) * verify_interval hk)%Q ->
  exists w' reports report,
    kill_tree os hk (S fuel) w p = Some (w', reports ++ [report]).
Proof.
  intros Hpos Hfuel. unfold kill_tree.
  destruct (kill_many_returns fuel (rev (children os w p)) Hpos Hfuel w)
    as [[w1 rs] Hm].
  rewrite Hm.
  destruct (kill_returns fuel w1 p true Hpos Hfuel) as [[w2 r] Hk].
  rewrite Hk. eauto.
Qed.

(** C2 (as amended).  For a registered agent, [kill_agent] (given a
    positive polling interval and enough fuel) returns a report,
    appends it to the kill history, and removes the agent from the
    registry - whatever the report's outcome, the failure outcomes
    [failed], [permission_denied] and [zombie] included.  No other
    agent's registration changes. *)
Theorem kill_agent_logs_and_unregisters
    fuel w t agent_id p kill_children :
  (0 < verify_interval hk)%Q ->
  (soft_timeout hk <= inject_Z (Z.of_nat fuel) * verify_interval hk)%Q ->
  _agents t !! agent_id = Some p ->
  exists w' t' report,
    kill_agent os hk (S fuel) w t agent_id kill_children
    = Some (w', t', Some report)
    /\ _kill_history t' = _kill_history t ++ [report]
    /\ _agents t' !! agent_id = None
    /\ forall other, other <> agent_id ->
                     _agents t' !! other = _agents t !! other.
Proof.
  intros Hpos Hfuel Hreg. unfold kill_agent. rewrite Hreg.
  assert (Hrun : exists w1 report,
             (if kill_children
              then match kill_tree os hk (S fuel) w p with
                   | Some (w1, reports) => Some (w1, last reports)
                   | None => None
                   end
              else match kill os hk (S fuel) w p true with
                   | Some (w1, r) => Some (w1, Some r)
                   | None => None
                   end) = Some (w1, Some report)).
  { destruct kill_children.
    - destruct (kill_tree_returns fuel w p Hpos Hfuel)
        as (w1 & rs & r & Ht).
      rewrite Ht, last_snoc. eauto.
    - destruct (kill_returns fuel w p true Hpos Hfuel) as [[w1 r] Hk].
      rewrite Hk. eauto. }
  destruct Hrun as (w1 & report & ->).
  eexists _, _, _. split; [reflexivity|].
  unfold unregister_agent. cbn [_agents _kill_history]. rewrite Hreg.
  cbn [_agents _kill_history].
  split; [reflexivity|]. split; [apply lookup_delete_eq|].
  intros other Hne. apply lookup_delete_ne. congruence.
Qed.

End WithOS.

(** *** Concrete runs *)



(** A host that refuses every termination request. *)
Definition refuses_signals : OS :=
  {| alive := fun _ _ => true;
     soft_ok := fun _ _ => false;
     hard_ok := fun _ _ => false;
     children := fun _ _ => [] |}.

Definition world0 : World := mkWorld 0%Q [].



Definition one_agent : AgentTerminator :=
  register_agent (mkAgentTerminator ∅ []) "agent-123" 12345.

Lemma kill_agent_logs_and_unregisters_witness :
  exists w' t' report,
    kill_agent refuses_signals HardKill_default 21 world0 one_agent
               "agent-123" true
    = Some (w', t', Some report)
    /\ _kill_history t' = _kill_history one_agent ++ [report]
    /\ _agents t' !! "agent-123" = None
    /\ forall other, other <> "agent-123" ->
                     _agents t' !! other = _agents one_agent !! other.
Proof.
  apply (kill_agent_logs_and_unregisters
           refuses_signals HardKill_default 20 world0 one_agent
           "agent-123" 12345 true).
  - reflexivity.
  - vm_compute. discriminate.
  - reflexivity.
Defined.

(** C2 as stated fails: where the host refuses the signal, the report
    is [permission_denied] and the agent is no longer registered. *)
Lemma denied_kill_unregisters_agent :
  exists w' t' report,
    kill_agent refuses_signals HardKill_default 21 world0 one_agent
               "agent-123" true
    = Some (w', t', Some report)
    /\ result report = PERMISSION_DENIED
    /\ _agents one_agent !! "agent-123" = Some 12345
    /\ _agents t' !! "agent-123" = None.
Proof.
  eexists _, _, _. split; [vm_compute; reflexivity|].
  split; [reflexivity|]. split; reflexivity.
Qed.

End HardKillTheory.

Module SlidingWindowTheory.
Import SlidingWindow.

(** *** Pruning as a pure function *)

(** What the pruning loop leaves: the events from the first one that is
    not older than the cutoff. *)
Fixpoint drop_old (cutoff : Q) (evs : list WindowEvent) : list WindowEvent :=
  match evs with
  | [] => []
  | e :: evs' =>
      if Qltb (timestamp e) cutoff then drop_old cutoff evs' else e :: evs'
  end.


Lemma prune_loop_events cutoff evs :
  forall total, fst (prune_loop cutoff evs total) = drop_old cutoff evs.
Proof.
  induction evs as [|e evs IH]; intros total; cbn; [reflexivity|].
  destruct (Qltb (timestamp e) cutoff); [apply IH | reflexivity].
Qed.


Lemma prune_loop_idem cutoff evs :
  forall total,
    prune_loop cutoff (drop_old cutoff evs) total
    = (drop_old cutoff evs, total).
Proof.
  induction evs as [|e evs IH]; intros total; cbn; [reflexivity|].
  destruct (Qltb (timestamp e) cutoff) eqn:E; [apply IH|].
  cbn. rewrite E. reflexivity.
Qed.

Lemma prune_events sw t :
  events (_prune sw t)
  = drop_old (t - inject_Z (window_value (window_size sw))) (events sw).
Proof.
  unfold _prune. rewrite <- (prune_loop_events _ _ (_total sw)).
  destruct (prune_loop _ _ _). reflexivity.
Qed.


Lemma prune_window_size sw t : window_size (_prune sw t) = window_size sw.
Proof. unfold _prune. destruct (prune_loop _ _ _). reflexivity. Qed.

(** Pruning twice at the same time changes nothing more. *)
Lemma prune_idem sw t : _prune (_prune sw t) t = _prune sw t.
Proof.
  pose proof (prune_events sw t) as He.
  pose proof (prune_window_size sw t) as Hw.
  destruct (_prune sw t) as [ws evs tot]. cbn in He, Hw. subst ws evs.
  unfold _prune. cbn [window_size events _total].
  rewrite prune_loop_idem. reflexivity.
Qed.



(** *** The clock fallback *)

Lemma or_now_idem ts now : or_now (Some (or_now ts now)) now = or_now ts now.
Proof.
  unfold or_now. destruct ts as [t|].
  - destruct (Qeq_bool t 0) eqn:E.
    + destruct (Qeq_bool now 0); reflexivity.
    + rewrite E. reflexivity.
  - destruct (Qeq_bool now 0); reflexivity.
Qed.

(** *** [add] and [record] *)






Lemma MetricType_eqb_eq a b : MetricType_eqb a b = true <-> a = b.
Proof. destruct a, b; cbn; split; congruence. Qed.


Lemma WindowSize_eqb_eq a b : WindowSize_eqb a b = true <-> a = b.
Proof. destruct a, b; cbn; split; congruence. Qed.



(** *** [check_thresholds] *)

(** The total [check_thresholds] reads for threshold [th]: the running
    total of that metric's window after pruning at the check time. *)
Definition total_read (d : SlidingWindowDetector) (ct now : Q)
    (th : WindowThreshold) : Q :=
  _total (_prune (windows (trackers d (metric th)) (window th))
                 (or_now (Some ct) now)).

Definition exceeded (d : SlidingWindowDetector) (ct now : Q)
    (th : WindowThreshold) : bool :=
  Qltb (limit th) (total_read d ct now th).

Definition breach_for (d : SlidingWindowDetector) (ct now : Q)
    (th : WindowThreshold) : ThresholdBreach :=
  {| breach_metric := metric th; breach_window := window th;
     current_value := total_read d ct now th; breach_limit := limit th;
     breach_action := action th; agent_id := detector_agent_id d;
     breach_timestamp := now |}.

(** Two detector states that no check at time [T] can tell apart. *)
Definition same_reading (T : Q) (d d' : SlidingWindowDetector) : Prop :=
  detector_agent_id d' = detector_agent_id d
  /\ forall m w,
       _prune (windows (trackers d' m) w) T
       = _prune (windows (trackers d m) w) T.

Lemma same_reading_refl T d : same_reading T d d.
Proof. split; reflexivity. Qed.

Lemma check_one_spec ct now th d0 d found :
  same_reading (or_now (Some ct) now) d0 d ->
  let r := check_one ct now th (d, found) in
  same_reading (or_now (Some ct) now) d0 (fst r)
  /\ snd r = found ++ (if exceeded d0 ct now th
                       then [breach_for d0 ct now th] else []).
Proof.
  intros [Hid Hsame]. cbv zeta.
  unfold check_one, tracker_get_total, get_total.
  set (T := or_now (Some ct) now) in *.
  set (sw := _prune (windows (trackers d (metric th)) (window th)) T).
  assert (Hsw : sw = _prune (windows (trackers d0 (metric th)) (window th)) T)
    by apply Hsame.
  assert (Hkeep : forall m w,
             _prune (windows
                       (if MetricType_eqb m (metric th)
                        then mkMetricTracker
                               (tracker_metric (trackers d (metric th)))
                               (fun w' => if WindowSize_eqb w' (window th)
                                          then sw
                                          else windows
                                                 (trackers d (metric th)) w')
                        else trackers d m) w) T
             = _prune (windows (trackers d0 m) w) T).
  { intros m w. destruct (MetricType_eqb m (metric th)) eqn:Em.
    - apply MetricType_eqb_eq in Em. subst m. cbn.
      destruct (WindowSize_eqb w (window th)) eqn:Ew.
      + apply WindowSize_eqb_eq in Ew. subst w.
        unfold sw. rewrite prune_idem. apply Hsame.
      + apply Hsame.
    - apply Hsame. }
  unfold exceeded, breach_for, total_read. fold T. rewrite <- Hsw.
  destruct (Qltb (limit th) (_total sw)); cbn.
  - split; [split; [exact Hid | exact Hkeep]|].
    rewrite Hid. reflexivity.
  - split; [split; [exact Hid | exact Hkeep]|].
    rewrite app_nil_r. reflexivity.
Qed.

Lemma check_fold_spec ct now d0 ths :
  forall d found,
    same_reading (or_now (Some ct) now) d0 d ->
    snd (fold_left (fun acc th => check_one ct now th acc) ths (d, found))
    = found ++ map (breach_for d0 ct now)
                   (List.filter (exceeded d0 ct now) ths).
Proof.
  induction ths as [|th ths IH]; intros d found Hsame; cbn [fold_left].
  - cbn. rewrite app_nil_r. reflexivity.
  - pose proof (check_one_spec ct now th d0 d found Hsame) as [Hs Hf].
    destruct (check_one ct now th (d, found)) as [d1 found1].
    cbn [fst snd] in Hs, Hf.
    rewrite (IH d1 found1 Hs), Hf. cbn [List.filter].
    destruct (exceeded d0 ct now th); cbn [map].
    + rewrite <- app_assoc. reflexivity.
    + rewrite app_nil_r. reflexivity.
Qed.

(** The list returned is one breach per configured threshold whose
    total, read at the check time, exceeds its limit - in configuration
    order, each judged from its own window alone. *)
Lemma check_thresholds_spec d ts now :
  snd (check_thresholds d ts now)
  = map (breach_for d (or_now ts now) now)
        (List.filter (exceeded d (or_now ts now) now) (thresholds d)).
Proof.
  unfold check_thresholds.
  rewrite (check_fold_spec _ _ d); [reflexivity | apply same_reading_refl].
Qed.

(** *** What the total read stands for *)





(** *** States reached by recording in time order *)















(** *** The worked example of the specification *)

Definition every_five_minutes : list Q :=
  [300%Q; 600%Q; 900%Q; 1200%Q; 1500%Q; 1800%Q;
   2100%Q; 2400%Q; 2700%Q; 3000%Q; 3300%Q; 3600%Q].

(** Twelve transfers of 100,000 bytes over one hour. *)
Definition twelve_transfers : SlidingWindowDetector :=
  record_at BYTES_OUT 100000%Q (SlidingWindowDetector_init "agent-001" [])
            every_five_minutes.




(** All three windows hold 1,200,000 bytes and nothing fires. *)
Example twelve_transfers_no_breach :
  map (fun w => _total (windows (trackers twelve_transfers BYTES_OUT) w))
      [HOUR_1; HOUR_6; HOUR_24]
  = [1200000%Q; 1200000%Q; 1200000%Q]
  /\ snd (check_thresholds twelve_transfers (Some 3600%Q) 3600%Q) = [].
Proof. split; vm_compute; reflexivity. Qed.

(** One hundred and one such transfers inside the hour pass the 1h limit
    of 10,000,000 but not the 24h limit of 50,000,000: one breach, for
    the 1h window, tagged [alert]. *)
Example burst_fires_1h_only :
  map (fun b => (breach_metric b, breach_window b, breach_action b))
      (snd (check_thresholds
              (record_at BYTES_OUT 100000%Q
                 (SlidingWindowDetector_init "agent-001" [])
                 (map inject_Z (map Z.of_nat (seq 1 101))))
              (Some 200%Q) 200%Q))
  = [(BYTES_OUT, HOUR_1, "alert")].
Proof. vm_compute. reflexivity. Qed.

(** Spread over a day, 60,000,000 bytes stay under the 1h limit in every
    hour and pass the 24h limit: one breach, for the 24h window, tagged
    [kill]. *)
Example slow_drip_fires_24h_only :
  map (fun b => (breach_metric b, breach_window b, breach_action b))
      (snd (check_thresholds
              (record_at BYTES_OUT 1000000%Q
                 (SlidingWindowDetector_init "agent-001" [])
                 (map (fun n => inject_Z (1200 * Z.of_nat n)) (seq 1 60)))
              (Some 72000%Q) 72000%Q))
  = [(BYTES_OUT, HOUR_24, "kill")].
Proof. vm_compute. reflexivity. Qed.

End SlidingWindowTheory.

Module NetworkKillTheory.
Import NetworkKill.

(** *** Substrings *)

Lemma starts_with_app_l p q s :
  starts_with (p ++ q)%string s = true -> starts_with p s = true.
Proof.
  revert s. induction p as [|a p IH]; intros s; [reflexivity|].
  destruct s as [|b s]; [discriminate|].
  simpl. destruct (Ascii.eqb a b); simpl; [apply IH | discriminate].
Qed.

Lemma contains_app_l p q s :
  contains (p ++ q)%string s = true -> contains p s = true.
Proof.
  induction s as [|b s IH]; cbn; rewrite !orb_true_iff.
  - intros [H|H]; [|discriminate]. left.
    apply (starts_with_app_l p q). exact H.
  - intros [H|H].
    + left. apply (starts_with_app_l p q). exact H.
    + right. apply IH. exact H.
Qed.

Lemma starts_with_self p s : starts_with p (p ++ s)%string = true.
Proof.
  induction p as [|a p IH]; simpl; [reflexivity|].
  rewrite Ascii.eqb_refl. exact IH.
Qed.

Lemma contains_of_starts_with p s :
  starts_with p s = true -> contains p s = true.
Proof. destruct s; simpl; intros ->; reflexivity. Qed.

Lemma contains_here p s : contains p (p ++ s)%string = true.
Proof. apply contains_of_starts_with, starts_with_self. Qed.

Lemma contains_app_r p a s :
  contains p s = true -> contains p (a ++ s)%string = true.
Proof.
  intros H. induction a as [|c a IH]; simpl; [exact H|].
  rewrite IH. apply orb_true_r.
Qed.

(** A listed rule shows its comment. *)
Lemma rule_text_shows_comment src dst comment :
  contains comment (rule_text src dst comment) = true.
Proof.
  unfold rule_text.
  do 5 apply contains_app_r. apply contains_here.
Qed.

Lemma header_has_no_tag identifier :
  existsb (contains (killswitch_tag identifier)) listing_header = false.
Proof.
  assert (H : forall line, contains "KILLSWITCH:" line = false ->
                           contains (killswitch_tag identifier) line = false).
  { intros line Hno.
    destruct (contains (killswitch_tag identifier) line) eqn:E;
      [|reflexivity].
    apply contains_app_l in E. congruence. }
  cbn [existsb listing_header]. rewrite !H by reflexivity. reflexivity.
Qed.

(** *** Deleting by line number *)

Definition delete_all (nums : list nat) (rules : list string)
  : list string :=
  fold_left (fun l n => delete_nth n l) nums rules.

Lemma delete_nth_out_of_range n (rules : list string) :
  (length rules < n)%nat -> delete_nth n rules = rules.
Proof.
  destruct n as [|i]; cbn; [reflexivity|]. intros Hlt.
  rewrite take_ge, drop_ge by lia. apply app_nil_r.
Qed.

Lemma remove_rules_chain nums :
  forall h acc,
    root h = true ->
    chain (fst (remove_rules h nums acc)) = delete_all nums (chain h)
    /\ root (fst (remove_rules h nums acc)) = true.
Proof.
  induction nums as [|n nums IH]; intros h acc Hroot; cbn [remove_rules].
  - auto.
  - unfold iptables_delete. rewrite Hroot. cbn [andb].
    destruct ((1 <=? n)%nat && (n <=? length (chain h))%nat) eqn:E.
    + destruct (IH (mkIptables (delete_nth n (chain h)) true)
                   (acc ++ [("Removed rule #" ++ pretty n)%string])
                   eq_refl) as [Hc Hr].
      cbn in Hc. rewrite Hc. auto.
    + destruct (IH h acc Hroot) as [Hc Hr]. rewrite Hc.
      split; [|exact Hr]. cbn [delete_all fold_left]. f_equal.
      apply andb_false_iff in E. destruct E as [E|E].
      * apply Nat.leb_gt in E. assert (n = 0%nat) by lia. subst n.
        reflexivity.
      * apply Nat.leb_gt in E. symmetry.
        apply delete_nth_out_of_range. exact E.
Qed.

Lemma delete_all_shift nums t (rules : list string) :
  delete_all (map S nums) (t :: rules) = t :: delete_all nums rules
  \/ In 0%nat nums.
Proof.
  revert rules. induction nums as [|n nums IH]; intros rules; cbn.
  - left. reflexivity.
  - destruct n as [|i]; [right; left; reflexivity|].
    destruct (IH (take i rules ++ drop (S i) rules)) as [H|H];
      [left; exact H | right; right; exact H].
Qed.

(** *** The numbers collected from a listing *)

Lemma nums_skip_header tag hdr lines :
  rule_nums_to_remove tag (map (fun t => (None, t)) hdr ++ lines)
  = rule_nums_to_remove tag lines.
Proof.
  induction hdr as [|t hdr IH]; cbn; [reflexivity|].
  destruct (contains tag t); exact IH.
Qed.

Lemma nums_shift tag rules :
  forall k,
    rule_nums_to_remove tag (numbered (S k) rules)
    = map S (rule_nums_to_remove tag (numbered k rules)).
Proof.
  induction rules as [|t rules IH]; intros k; cbn; [reflexivity|].
  destruct (contains tag t); cbn; rewrite IH; reflexivity.
Qed.

Lemma nums_from tag rules :
  forall k,
    List.Forall (fun n => (k <= n)%nat)
                (rule_nums_to_remove tag (numbered k rules))
    /\ StronglySorted lt (rule_nums_to_remove tag (numbered k rules)).
Proof.
  induction rules as [|t rules IH]; intros k; cbn.
  - split; constructor.
  - destruct (IH (S k)) as [Hge Hs].
    assert (Hge' : List.Forall (fun n => (k <= n)%nat)
                     (rule_nums_to_remove tag (numbered (S k) rules))).
    { eapply List.Forall_impl; [|exact Hge]. cbn. intros; lia. }
    destruct (contains tag t); [|auto].
    split; constructor; auto.
Qed.

(** *** Sorting what is already in ascending order *)

Lemma insert_desc_least x l :
  List.Forall (fun y => (x < y)%nat) l -> insert_desc x l = l ++ [x].
Proof.
  induction 1 as [|y l Hy _ IH]; cbn; [reflexivity|].
  destruct (y <=? x)%nat eqn:E; [apply Nat.leb_le in E; lia|].
  rewrite IH. reflexivity.
Qed.

Lemma sorted_reverse_ascending l :
  StronglySorted lt l -> sorted_reverse l = rev l.
Proof.
  induction 1 as [|x l Hs IH Hall]; cbn; [reflexivity|].
  rewrite IH. apply insert_desc_least.
  apply List.Forall_forall. intros y Hy. apply List.in_rev in Hy.
  revert y Hy. apply List.Forall_forall. exact Hall.
Qed.

(** Deleting the tagged lines from the bottom up leaves exactly the
    rules whose text does not contain the tag. *)
Lemma delete_tagged tag rules :
  delete_all (rev (rule_nums_to_remove tag (numbered 1 rules))) rules
  = List.filter (fun t => negb (contains tag t)) rules.
Proof.
  induction rules as [|t rules IH]; cbn [numbered rule_nums_to_remove].
  - reflexivity.
  - rewrite nums_shift.
    assert (Hshift :
              delete_all
                (rev (map S (rule_nums_to_remove tag (numbered 1 rules))))
                (t :: rules)
              = t :: List.filter (fun t => negb (contains tag t)) rules).
    { rewrite <- map_rev.
      destruct (delete_all_shift
                  (rev (rule_nums_to_remove tag (numbered 1 rules)))
                  t rules) as [H|H].
      - rewrite H, IH. reflexivity.
      - exfalso. apply List.in_rev in H.
        destruct (nums_from tag rules 1) as [Hge _].
        rewrite List.Forall_forall in Hge. specialize (Hge _ H). lia. }
    cbn [List.filter]. destruct (contains tag t); cbn [negb].
    + cbn [rev]. unfold delete_all. rewrite fold_left_app.
      fold (delete_all
              (rev (map S (rule_nums_to_remove tag (numbered 1 rules))))
              (t :: rules)).
      rewrite Hshift. cbn. rewrite drop_0. reflexivity.
    + exact Hshift.
Qed.

(** *** Linux *)

Lemma linux_restore_chain h identifier now :
  root h = true ->
  chain (fst (linux_restore_access h identifier now))
  = List.filter (fun t => negb (contains (killswitch_tag identifier) t))
                (chain h)
  /\ root (fst (linux_restore_access h identifier now)) = true.
Proof.
  intros Hroot. unfold linux_restore_access, iptables_list_numbered.
  rewrite Hroot. rewrite nums_skip_header.
  destruct (nums_from (killswitch_tag identifier) (chain h) 1) as [_ Hs].
  rewrite (sorted_reverse_ascending _ Hs).
  destruct (remove_rules_chain
              (rev (rule_nums_to_remove (killswitch_tag identifier)
                                        (numbered 1 (chain h))))
              h [] Hroot) as [Hc Hr].
  destruct (remove_rules h _ []) as [h' removed]. cbn in *.
  rewrite Hc, delete_tagged. auto.
Qed.

Lemma existsb_filter_negb {A} (f : A -> bool) (l : list A) :
  existsb f (List.filter (fun x => negb (f x)) l) = false.
Proof.
  induction l as [|x l IH]; cbn; [reflexivity|].
  destruct (f x) eqn:E; cbn; [exact IH|]. rewrite E. exact IH.
Qed.

Lemma linux_restore_unblocks h identifier now :
  linux_is_blocked (fst (linux_restore_access h identifier now)) identifier
  = false.
Proof.
  destruct (root h) eqn:Hroot.
  - destruct (linux_restore_chain h identifier now Hroot) as [Hc Hr].
    unfold linux_is_blocked, iptables_list. rewrite Hr. cbn [andb].
    rewrite existsb_app, header_has_no_tag, Hc. cbn [orb].
    apply existsb_filter_negb.
  - unfold linux_restore_access, iptables_list_numbered. rewrite Hroot.
    cbn. unfold linux_is_blocked, iptables_list. rewrite Hroot.
    reflexivity.
Qed.

Lemma linux_block_chain h identifier now :
  root h = true ->
  chain (fst (linux_block_all_traffic h identifier now))
  = chain h ++ [rule_text anywhere anywhere (killswitch_tag identifier)]
  /\ root (fst (linux_block_all_traffic h identifier now)) = true.
Proof.
  intros Hroot. unfold linux_block_all_traffic, iptables_append.
  rewrite Hroot. cbn. auto.
Qed.

Lemma linux_tagged_rule_blocks h identifier :
  root h = true ->
  In (rule_text anywhere anywhere (killswitch_tag identifier)) (chain h) ->
  linux_is_blocked h identifier = true.
Proof.
  intros Hroot Hin. unfold linux_is_blocked, iptables_list.
  rewrite Hroot. cbn [andb]. apply existsb_exists.
  exists (rule_text anywhere anywhere (killswitch_tag identifier)).
  split; [|apply rule_text_shows_comment].
  apply List.in_or_app. right. exact Hin.
Qed.

(** *** macOS *)



(** *** Windows *)






Lemma string_append_assoc (a b c : string) :
  ((a ++ b) ++ c = a ++ b ++ c)%string.
Proof.
  induction a as [|x a IH]; [reflexivity|].
  change (String x ((a ++ b) ++ c) = String x (a ++ b ++ c))%string.
  f_equal. exact IH.
Qed.



(** *** The three back ends, side by side *)





(** *** Concrete runs *)

Definition iptables0 : Iptables := mkIptables [] true.
Definition netsh0 : Netsh := mkNetsh [] true.



End NetworkKillTheory.

Module ThresholdsOpsTheory.
Import Thresholds ThresholdsOps ThresholdsTheory.

(** *** What one call leaves alone *)

Lemma history_of_set_history_other h agent ty l agent' ty' :
  (agent', ty') <> (agent, ty) ->
  history_of (set_history h agent ty l) agent' ty' = history_of h agent' ty'.
Proof.
  intros Hne. unfold history_of, set_history.
  destruct (decide (agent' = agent)) as [->|Ha].
  - rewrite lookup_insert_eq. cbn.
    rewrite lookup_insert_ne by congruence. reflexivity.
  - rewrite lookup_insert_ne by congruence. reflexivity.
Qed.

Lemma check_action_thresholds st agent ty target now :
  thresholds (fst (check_action st agent ty target now)) = thresholds st.
Proof.
  unfold check_action.
  destruct (_is_in_cooldown _ agent ty now); [reflexivity|].
  cbn [thresholds with_stats].
  destruct (thresholds st !! ty) as [th|]; [|reflexivity].
  unfold _count_recent_actions. destruct (max_count th <=? _); reflexivity.
Qed.

(** *** The counters of [_stats] *)

Definition stats_add_up (st : BehavioralThresholds) : Prop :=
  total_checks (stats st)
  = total_allowed (stats st) + total_blocked (stats st)
  /\ 0 <= total_kills (stats st)
  /\ total_kills (stats st) <= Z.of_nat (length (breach_history st))
  /\ Z.of_nat (length (breach_history st)) <= total_blocked (stats st).

Lemma check_action_counts st agent ty target now :
  stats_add_up st ->
  stats_add_up (fst (check_action st agent ty target now))
  /\ total_checks (stats (fst (check_action st agent ty target now)))
     = total_checks (stats st) + 1.
Proof.
  unfold stats_add_up. intros (H1 & H2 & H3 & H4). unfold check_action.
  destruct (_is_in_cooldown _ agent ty now); [cbn; lia|].
  cbn [thresholds with_stats].
  destruct (thresholds st !! ty) as [th|]; [|cbn; lia].
  unfold _count_recent_actions. destruct (max_count th <=? _); [|cbn; lia].
  unfold _handle_breach. cbn [fst snd breach_history stats].
  rewrite length_app. cbn [length].
  destruct (Qleb _ _ || ThresholdAction_eqb _ _); cbn; lia.
Qed.

Lemma run_counts calls :
  forall st,
    stats_add_up st ->
    stats_add_up (fst (run st calls))
    /\ total_checks (stats (fst (run st calls)))
       = total_checks (stats st) + Z.of_nat (length calls)
    /\ length (snd (run st calls)) = length calls.
Proof.
  induction calls as [|c calls IH]; intros st Hst; cbn [run length].
  - cbn. repeat split; try apply Hst; lia.
  - destruct (check_action_counts st (call_agent c) (call_type c)
                (call_target c) (call_time c) Hst) as [Hst1 Hn1].
    destruct (check_action st _ _ _ _) as [st1 r]. cbn [fst] in Hst1, Hn1.
    destruct (IH st1 Hst1) as (Hst2 & Hn2 & Hl2).
    destruct (run st1 calls) as [st2 rs]. cbn [fst snd length] in *.
    split; [exact Hst2|]. split; [lia | congruence].
Qed.

(** X1.  Whatever calls an engine has served since it was built, its
    counters add up: [total_checks] is the number of calls and equals
    [total_allowed + total_blocked]; every kill has a logged breach, and
    every logged breach is a blocked call. *)
Theorem stats_count_every_call l calls :
  let st := fst (run (init l) calls) in
  total_checks (stats st) = Z.of_nat (length calls)
  /\ total_checks (stats st)
     = total_allowed (stats st) + total_blocked (stats st)
  /\ 0 <= total_kills (stats st)
  /\ total_kills (stats st) <= Z.of_nat (length (breach_history st))
  /\ Z.of_nat (length (breach_history st)) <= total_blocked (stats st).
Proof.
  cbv zeta.
  destruct (run_counts calls (init l)) as (Hst & Hn & _).
  { unfold stats_add_up. cbn. lia. }
  split; [rewrite Hn; reflexivity | exact Hst].
Qed.

(** *** The history never outgrows the limit *)

Definition within_limits (st : BehavioralThresholds) : Prop :=
  forall agent ty th,
    thresholds st !! ty = Some th ->
    Z.of_nat (length (history_of (action_history st) agent ty))
    <= Z.max 0 (max_count th).

Lemma check_action_within_limits st agent ty target now :
  within_limits st ->
  within_limits (fst (check_action st agent ty target now)).
Proof.
  intros Hw agent' ty' th' Hth'.
  rewrite check_action_thresholds in Hth'.
  pose proof (Hw agent' ty' th' Hth') as Hold.
  revert Hth'. unfold check_action.
  destruct (_is_in_cooldown _ agent ty now); [intros _; exact Hold|].
  cbn [thresholds with_stats].
  destruct (thresholds st !! ty) as [th|] eqn:Hth.
  - unfold _count_recent_actions. cbn [action_history with_stats].
    set (kept := List.filter _ (history_of (action_history st) agent ty)).
    assert (Hkept : (length kept
                     <= length (history_of (action_history st) agent ty))%nat)
      by apply List.filter_length_le.
    destruct (max_count th <=? Z.of_nat (length kept)) eqn:E; intros Hth'.
    + cbn. destruct (decide ((agent', ty') = (agent, ty))) as [Heq|Hne].
      * inversion Heq; subst. rewrite history_of_set_history.
        specialize (Hw agent ty th' Hth'). lia.
      * rewrite history_of_set_history_other by exact Hne. exact Hold.
    + cbn. apply Z.leb_gt in E.
      destruct (decide ((agent', ty') = (agent, ty))) as [Heq|Hne].
      * inversion Heq; subst. rewrite !history_of_set_history.
        rewrite length_app. cbn [length].
        assert (th' = th) by congruence. subst th'. lia.
      * rewrite history_of_set_history_other by exact Hne.
        rewrite history_of_set_history_other by exact Hne. exact Hold.
  - intros Hth'. cbn.
    destruct (decide ((agent', ty') = (agent, ty))) as [Heq|Hne].
    + inversion Heq; subst. congruence.
    + rewrite history_of_set_history_other by exact Hne. exact Hold.
Qed.

Lemma run_within_limits calls :
  forall st, within_limits st -> within_limits (fst (run st calls)).
Proof.
  induction calls as [|c calls IH]; intros st Hw; cbn [run]; [exact Hw|].
  pose proof (check_action_within_limits st (call_agent c) (call_type c)
                (call_target c) (call_time c) Hw) as Hw1.
  destruct (check_action st _ _ _ _) as [st1 r]. cbn [fst] in Hw1.
  specialize (IH st1 Hw1). destruct (run st1 calls) as [st2 rs]. exact IH.
Qed.

Lemma init_within_limits l : within_limits (init l).
Proof.
  intros agent ty th _. unfold history_of. cbn.
  rewrite lookup_empty. cbn. rewrite lookup_empty. cbn. lia.
Qed.

(** The count breach, with the count it was raised on. *)
Lemma check_action_count_breach st agent ty target now st' b :
  check_action st agent ty target now = (st', (false, Some b)) ->
  _is_in_cooldown st agent ty now = false ->
  exists th,
    thresholds st !! ty = Some th
    /\ max_count th <= count b
    /\ (count b
        <= Z.of_nat (length (history_of (action_history st) agent ty)))
    /\ breach_action b = action_on_breach th
    /\ should_kill b
       = Qleb (inject_Z (max_count th) * multiplier_for_kill th)
              (inject_Z (count b))
         || ThresholdAction_eqb (action_on_breach th) KILL.
Proof.
  intros Hcheck Hcd. revert Hcheck. unfold check_action.
  rewrite (is_in_cooldown_ext st (with_stats st (bump_checks (stats st))))
    by reflexivity.
  rewrite Hcd. cbn [thresholds with_stats].
  destruct (thresholds st !! ty) as [th|]; [|discriminate].
  unfold _count_recent_actions. cbn [action_history with_stats].
  set (kept := List.filter _ (history_of (action_history st) agent ty)).
  assert (Hkept : (length kept
                   <= length (history_of (action_history st) agent ty))%nat)
    by apply List.filter_length_le.
  destruct (max_count th <=? Z.of_nat (length kept)) eqn:E; [|discriminate].
  apply Z.leb_le in E. cbn. intros Heq. inversion Heq; subst. cbn.
  exists th. repeat split; try reflexivity; lia.
Qed.

(** X2.  An engine that has only served calls since it was built never
    holds more than [max_count] timestamps for a configured action type,
    so a breach is always raised with [count <= max_count].  Hence, for a
    threshold with [max_count > 0] and a kill multiplier above 1, the
    multiplier never decides: a breach asks for a kill exactly when its
    [breach_action] is [kill]. *)
Theorem kill_multiplier_above_one_never_fires
    l calls agent ty target now th st' b :
  let st := fst (run (init l) calls) in
  thresholds st !! ty = Some th ->
  0 < max_count th ->
  (1 < multiplier_for_kill th)%Q ->
  check_action st agent ty target now = (st', (false, Some b)) ->
  count b <= max_count th
  /\ (should_kill b = true <-> breach_action b = KILL).
Proof.
  cbv zeta. intros Hth Hpos Hmult Hcheck.
  pose proof (run_within_limits calls (init l) (init_within_limits l)
                agent ty th Hth) as Hbound.
  destruct (_is_in_cooldown (fst (run (init l) calls)) agent ty now) eqn:Hcd.
  - apply check_action_blocked_inv in Hcheck.
    destruct Hcheck as [(_ & -> & _) | (Hcd' & _)]; [|congruence].
    cbn. split; [lia|]. split; discriminate.
  - destruct (check_action_count_breach _ _ _ _ _ _ _ Hcheck Hcd)
      as (th1 & Hth1 & Hge & Hle & Hact & Hkill).
    assert (th1 = th) by congruence. subst th1.
    assert (Hcnt : count b = max_count th) by lia.
    split; [lia|]. rewrite Hkill, Hact, Hcnt.
    rewrite orb_true_iff, Qleb_le, ThresholdAction_eqb_eq.
    split; [|tauto]. intros [Hq|Hk]; [|exact Hk]. exfalso.
    assert (0 < inject_Z (max_count th))%Q
      by (change 0%Q with (inject_Z 0); rewrite <- Zlt_Qlt; exact Hpos).
    nra.
Qed.

Definition two_calls : list Call :=
  [mkCall "agent" "op" "/tmp/x" 0%Q; mkCall "agent" "op" "/tmp/x" 1%Q].

Lemma kill_multiplier_above_one_never_fires_witness :
  exists st' b,
    check_action (fst (run (init [two_per_minute]) two_calls))
                 "agent" "op" "/tmp/x" 2%Q = (st', (false, Some b))
    /\ count b <= 2
    /\ (should_kill b = true <-> breach_action b = KILL).
Proof.
  eexists _, _. split; [vm_compute; reflexivity|].
  eapply (kill_multiplier_above_one_never_fires
            [two_per_minute] two_calls "agent" "op" "/tmp/x" 2%Q
            two_per_minute).
  - reflexivity.
  - reflexivity.
  - reflexivity.
  - vm_compute. reflexivity.
Defined.

Lemma check_action_blocked_inv_some st agent ty target now st' breach :
  check_action st agent ty target now = (st', (false, breach)) ->
  exists b, breach = Some b.
Proof.
  unfold check_action.
  destruct (_is_in_cooldown _ agent ty now).
  - intros Heq. inversion Heq. eauto.
  - cbn [thresholds with_stats].
    destruct (thresholds st !! ty) as [th|]; [|discriminate].
    unfold _count_recent_actions. destruct (max_count th <=? _);
      [|discriminate].
    cbn. intros Heq. inversion Heq. eauto.
Qed.

(** *** Cooldown *)

Lemma check_action_in_cooldown st agent ty target t m endt :
  cooldowns st !! agent = Some m -> m !! ty = Some endt -> (t < endt)%Q ->
  check_action st agent ty target t
  = (with_stats st (bump_blocked (bump_checks (stats st))),
     (false, Some (cooldown_breach agent ty t))).
Proof.
  intros Hm He Hlt. unfold check_action.
  assert (Hcd : _is_in_cooldown (with_stats st (bump_checks (stats st)))
                                agent ty t = true).
  { unfold _is_in_cooldown. cbn [cooldowns with_stats]. rewrite Hm, He.
    cbn. apply Qltb_lt. exact Hlt. }
  rewrite Hcd. reflexivity.
Qed.

Lemma check_actions_in_cooldown agent ty target m endt times :
  forall st,
    cooldowns st !! agent = Some m -> m !! ty = Some endt ->
    Forall (fun t => (t < endt)%Q) times ->
    snd (check_actions st agent ty target times)
    = map (fun t => (false, Some (cooldown_breach agent ty t))) times
    /\ thresholds (fst (check_actions st agent ty target times))
       = thresholds st
    /\ action_history (fst (check_actions st agent ty target times))
       = action_history st
    /\ cooldowns (fst (check_actions st agent ty target times))
       = cooldowns st
    /\ breach_history (fst (check_actions st agent ty target times))
       = breach_history st.
Proof.
  induction times as [|t times IH]; intros st Hm He Hall;
    cbn [check_actions map].
  - cbn. auto.
  - inversion Hall as [|? ? Ht Hall']; subst.
    rewrite (check_action_in_cooldown st agent ty target t m endt Hm He Ht).
    specialize (IH (with_stats st (bump_blocked (bump_checks (stats st))))
                   Hm He Hall').
    destruct (check_actions _ agent ty target times) as [st2 rs].
    cbn [fst snd] in *. destruct IH as (-> & H2 & H3 & H4 & H5).
    auto.
Qed.

Lemma check_action_breach_sets_cooldown st agent ty target now st' b :
  check_action st agent ty target now = (st', (false, Some b)) ->
  _is_in_cooldown st agent ty now = false ->
  exists th,
    thresholds st !! ty = Some th
    /\ cooldowns st'
       = <[agent := <[action_type th :=
                        (now + inject_Z (cooldown_seconds th))%Q]>
                      (default ∅ (cooldowns st !! agent))]> (cooldowns st).
Proof.
  intros Hcheck Hcd. revert Hcheck. unfold check_action.
  rewrite (is_in_cooldown_ext st (with_stats st (bump_checks (stats st))))
    by reflexivity.
  rewrite Hcd. cbn [thresholds with_stats].
  destruct (thresholds st !! ty) as [th|]; [|discriminate].
  unfold _count_recent_actions.
  destruct (max_count th <=? _); [|discriminate].
  cbn. intros Heq. inversion Heq; subst. eauto.
Qed.

(** X3.  A breach raised at time [now] by a threshold with cooldown [C]
    starts a cooldown: every later check of the same agent and action
    type at a clock reading below [now + C] is rejected with the
    "Cooldown Active" breach, and such a rejection changes nothing but
    the counters - it is not added to the history, it is not logged in
    the breach history, and it does not prolong the cooldown, which is
    over for every reading from [now + C] on. *)
Theorem breach_starts_cooldown st agent ty target now th st1 b times :
  thresholds st !! ty = Some th ->
  action_type th = ty ->
  _is_in_cooldown st agent ty now = false ->
  check_action st agent ty target now = (st1, (false, Some b)) ->
  Forall (fun t => (t < now + inject_Z (cooldown_seconds th))%Q) times ->
  let r := check_actions st1 agent ty target times in
  snd r = map (fun t => (false, Some (cooldown_breach agent ty t))) times
  /\ action_history (fst r) = action_history st1
  /\ breach_history (fst r) = breach_history st1
  /\ cooldowns (fst r) = cooldowns st1
  /\ forall t, (now + inject_Z (cooldown_seconds th) <= t)%Q ->
               _is_in_cooldown (fst r) agent ty t = false.
Proof.
  intros Hth Hkey Hcd Hcheck Hall. cbv zeta.
  destruct (check_action_breach_sets_cooldown _ _ _ _ _ _ _ Hcheck Hcd)
    as (th1 & Hth1 & Hcool).
  assert (th1 = th) by congruence. subst th1. rewrite Hkey in Hcool.
  destruct (check_actions_in_cooldown agent ty target
              (<[ty := (now + inject_Z (cooldown_seconds th))%Q]>
                 (default ∅ (cooldowns st !! agent)))
              (now + inject_Z (cooldown_seconds th))%Q times st1)
    as (H1 & H2 & H3 & H4 & H5).
  - rewrite Hcool. apply lookup_insert_eq.
  - apply lookup_insert_eq.
  - exact Hall.
  - repeat (split; [assumption|]).
    intros t Ht. unfold _is_in_cooldown. rewrite H4, Hcool.
    rewrite lookup_insert_eq, lookup_insert_eq. cbn. apply Qltb_ge. exact Ht.
Qed.

Lemma breach_starts_cooldown_witness :
  let r := check_actions
             (fst (check_action two_calls_made "agent" "op" "/tmp/x" 2%Q))
             "agent" "op" "/tmp/x" [3%Q; 61%Q] in
  snd r = [ (false, Some (cooldown_breach "agent" "op" 3%Q));
            (false, Some (cooldown_breach "agent" "op" 61%Q)) ]
  /\ _is_in_cooldown (fst r) "agent" "op" 62%Q = false.
Proof.
  destruct (breach_starts_cooldown two_calls_made "agent" "op" "/tmp/x" 2%Q
              two_per_minute
              (fst (check_action two_calls_made "agent" "op" "/tmp/x" 2%Q))
              (snd (_handle_breach two_calls_made "agent" two_per_minute 2
                                   2%Q))
              [3%Q; 61%Q])
    as (H1 & _ & _ & _ & H5).
  - reflexivity.
  - reflexivity.
  - reflexivity.
  - vm_compute. reflexivity.
  - repeat constructor; vm_compute; reflexivity.
  - cbv zeta in *. split; [exact H1|]. apply H5. vm_compute. discriminate.
Defined.

(** *** Agents do not see each other *)

Lemma check_action_result_ext st st' agent ty target now :
  thresholds st' = thresholds st ->
  action_history st' !! agent = action_history st !! agent ->
  cooldowns st' !! agent = cooldowns st !! agent ->
  snd (check_action st' agent ty target now)
  = snd (check_action st agent ty target now).
Proof.
  intros Hth Hh Hc. unfold check_action, _is_in_cooldown.
  cbn [cooldowns with_stats thresholds]. rewrite Hc, Hth.
  destruct (match cooldowns st !! agent with
            | Some m => Qltb now (default 0%Q (m !! ty))
            | None => false
            end); [reflexivity|].
  destruct (thresholds st !! ty) as [th|]; [|reflexivity].
  unfold _count_recent_actions, history_of.
  cbn [action_history with_stats]. rewrite Hh.
  destruct (max_count th <=? _); reflexivity.
Qed.

Lemma check_action_other_agent st agent ty target now other :
  other <> agent ->
  action_history (fst (check_action st agent ty target now)) !! other
  = action_history st !! other
  /\ cooldowns (fst (check_action st agent ty target now)) !! other
     = cooldowns st !! other.
Proof.
  intros Hne. unfold check_action.
  destruct (_is_in_cooldown _ agent ty now); [cbn; auto|].
  cbn [thresholds with_stats].
  destruct (thresholds st !! ty) as [th|].
  - unfold _count_recent_actions. destruct (max_count th <=? _); cbn;
      unfold set_history; rewrite ?lookup_insert_ne by congruence; auto.
  - cbn. unfold set_history. rewrite lookup_insert_ne by congruence. auto.
Qed.

(** X4.  Agents are judged independently: whatever call one agent makes,
    the verdict and breach any other agent gets for its next call are the
    same as without it. *)
Theorem other_agents_verdict_unchanged
    st agent ty target now other ty' target' now' :
  other <> agent ->
  snd (check_action (fst (check_action st agent ty target now))
                    other ty' target' now')
  = snd (check_action st other ty' target' now').
Proof.
  intros Hne.
  destruct (check_action_other_agent st agent ty target now other Hne)
    as [Hh Hc].
  apply check_action_result_ext; [apply check_action_thresholds | | ];
    assumption.
Qed.

Lemma other_agents_verdict_unchanged_witness :
  snd (check_action (fst (check_action two_calls_made "agent" "op" "/tmp/x"
                                       2%Q))
                    "other" "op" "/tmp/y" 3%Q)
  = (true, None).
Proof.
  rewrite (other_agents_verdict_unchanged two_calls_made "agent" "op"
             "/tmp/x" 2%Q "other" "op" "/tmp/y" 3%Q).
  - vm_compute. reflexivity.
  - discriminate.
Defined.

(** *** [reset_agent] *)

(** X5.  [reset_agent] gives an agent a clean slate at once: its next
    call, of any action type that is unconfigured or configured with
    [max_count > 0], is allowed, even if a cooldown was running.  Other
    agents get the verdicts they would have got, and the breach history
    and the counters stay as they were. *)
Theorem reset_agent_lifts_cooldown st agent ty target now :
  match thresholds st !! ty with
  | Some th => 0 < max_count th
  | None => True
  end ->
  snd (check_action (reset_agent st agent) agent ty target now) = (true, None)
  /\ breach_history (reset_agent st agent) = breach_history st
  /\ stats (reset_agent st agent) = stats st
  /\ forall other ty' target' now',
       other <> agent ->
       snd (check_action (reset_agent st agent) other ty' target' now')
       = snd (check_action st other ty' target' now').
Proof.
  intros Hok. split; [|split; [reflexivity|split; [reflexivity|]]].
  - unfold check_action, _is_in_cooldown.
    cbn [cooldowns with_stats thresholds reset_agent].
    rewrite lookup_delete_eq.
    destruct (thresholds st !! ty) as [th|]; [|reflexivity].
    unfold _count_recent_actions, history_of.
    cbn [action_history with_stats reset_agent]. rewrite lookup_delete_eq.
    cbn [default]. rewrite lookup_empty. cbn [default List.filter length].
    change (Z.of_nat 0) with 0.
    destruct (max_count th <=? 0) eqn:E; [apply Z.leb_le in E; lia|].
    reflexivity.
  - intros other ty' target' now' Hne.
    apply check_action_result_ext; cbn.
    + reflexivity.
    + apply lookup_delete_ne. congruence.
    + apply lookup_delete_ne. congruence.
Qed.

(** The engine right after the breach of [two_calls_made]. *)
Definition in_cooldown : BehavioralThresholds :=
  fst (check_action two_calls_made "agent" "op" "/tmp/x" 2%Q).

Lemma reset_agent_lifts_cooldown_witness :
  snd (check_action in_cooldown "agent" "op" "/tmp/x" 3%Q)
  = (false, Some (cooldown_breach "agent" "op" 3%Q))
  /\ snd (check_action (reset_agent in_cooldown "agent") "agent" "op"
                       "/tmp/x" 3%Q) = (true, None).
Proof.
  split; [vm_compute; reflexivity|].
  apply (reset_agent_lifts_cooldown in_cooldown "agent" "op" "/tmp/x" 3%Q).
  vm_compute. reflexivity.
Defined.

(** *** The integrated fence *)

(** X6.  How [BehavioralFence.check] combines its two detectors.  An
    action the threshold engine rejects never reaches the exfiltration
    detector, and it adds to the kill count exactly when its breach asks
    for a kill.  An action rejected as exfiltration has passed the
    threshold engine first: the engine has counted it as allowed and put
    it in the agent's history, and the kill count goes up by one.  The
    exfiltration detector is only fed by the three data-bearing action
    types with a positive size. *)
Theorem fence_check_combines_detectors f agent ty target size now :
  let r := check f agent ty target size now in
  let e := check_action (fence_thresholds f) agent ty target now in
  fence_thresholds (fst r) = fst e
  /\ (fst (snd e) = false ->
      exfiltration (fst r) = exfiltration f
      /\ exists b, snd (snd e) = Some b
                   /\ snd r = (false, ThresholdBreachReason
                                        (threshold_name b) (should_kill b))
                   /\ _kill_count (fst r)
                      = _kill_count f + (if should_kill b then 1 else 0))
  /\ (forall reason,
         snd r = (false, ExfiltrationDetected reason) ->
         snd e = (true, None)
         /\ total_allowed (stats (fst e))
            = total_allowed (stats (fence_thresholds f)) + 1
         /\ last (history_of (action_history (fst e)) agent ty) = Some now
         /\ _kill_count (fst r) = _kill_count f + 1)
  /\ (data_bearing ty && (0 <? size) = false ->
      exfiltration (fst r) = exfiltration f).
Proof.
  cbv zeta. unfold check.
  destruct (check_action (fence_thresholds f) agent ty target now)
    as [st [allowed breach]] eqn:Hcheck.
  cbn [fst snd].
  destruct allowed; cbn [negb].
  - (* allowed by the engine *)
    assert (Hnone : breach = None /\
                    total_allowed (stats st)
                    = total_allowed (stats (fence_thresholds f)) + 1
                    /\ last (history_of (action_history st) agent ty)
                       = Some now).
    { revert Hcheck. unfold check_action.
      destruct (_is_in_cooldown _ agent ty now); [discriminate|].
      cbn [thresholds with_stats].
      destruct (thresholds (fence_thresholds f) !! ty) as [th|].
      - unfold _count_recent_actions.
        destruct (max_count th <=? _); [discriminate|].
        intros Heq. inversion Heq; subst. cbn.
        rewrite !history_of_set_history, last_snoc. auto.
      - intros Heq. inversion Heq; subst. cbn.
        rewrite history_of_set_history, last_snoc. auto. }
    destruct Hnone as (-> & Hall & Hlast).
    destruct (data_bearing ty && (0 <? size)) eqn:Hdata.
    + destruct (record_data_access (exfiltration f) agent target size now)
        as [d [is_exfil exfil_reason]].
      destruct is_exfil; cbn.
      * split; [reflexivity|]. split; [discriminate|].
        split; [|discriminate]. intros reason _. auto.
      * split; [reflexivity|]. split; [discriminate|].
        split; [discriminate|discriminate].
    + cbn. split; [reflexivity|]. split; [discriminate|].
      split; [discriminate|reflexivity].
  - (* rejected by the engine *)
    assert (Hsome : exists b, breach = Some b).
    { apply check_action_blocked_inv_some in Hcheck. exact Hcheck. }
    destruct Hsome as [b ->]. cbn.
    split; [reflexivity|]. split.
    + intros _. split; [reflexivity|]. exists b.
      split; [reflexivity|]. split; [reflexivity|].
      destruct (should_kill b); lia.
    + split; [discriminate|reflexivity].
Qed.

(** A fence whose engine is in the cooldown of [in_cooldown]. *)
Definition fence_in_cooldown : BehavioralFence :=
  mkBehavioralFence in_cooldown exfil_init 0.

Lemma fence_check_combines_detectors_witness :
  let r := check fence_in_cooldown "agent" "op" "/tmp/x" 4096 3%Q in
  exfiltration (fst r) = exfil_init
  /\ exists b, snd r = (false, ThresholdBreachReason (threshold_name b)
                                                     (should_kill b))
               /\ _kill_count (fst r) = 0 + (if should_kill b then 1 else 0).
Proof.
  destruct (fence_check_combines_detectors fence_in_cooldown "agent" "op"
              "/tmp/x" 4096 3%Q) as (_ & Hrej & _).
  destruct Hrej as (He & b & _ & Hr & Hk); [vm_compute; reflexivity|].
  cbv zeta. split; [exact He|]. exists b. split; [exact Hr|exact Hk].
Defined.

End ThresholdsOpsTheory.

Module PolicyStoreTheory.
Import FailMode PolicyStore FailModeTheory.

(** *** The ordered dictionary *)

Definition keys (d : Dict) : list string := map fst d.

Lemma dict_get_to_map (d : Dict) k :
  (list_to_map d : gmap string CachedPolicy) !! k = dict_get k d.
Proof.
  induction d as [|[k' v] d IH]; cbn; [apply lookup_empty|].
  destruct (String.eqb k' k) eqn:E.
  - apply String.eqb_eq in E. subst. apply lookup_insert_eq.
  - apply String.eqb_neq in E. rewrite lookup_insert_ne by exact E. exact IH.
Qed.

Lemma dict_get_del k' k (d : Dict) :
  dict_get k' (dict_del k d)
  = if String.eqb k k' then None else dict_get k' d.
Proof.
  unfold dict_del.
  induction d as [|[k0 v] d IH]; cbn [List.filter dict_get fst].
  - destruct (String.eqb k k'); reflexivity.
  - destruct (String.eqb k0 k) eqn:E0; cbn [negb dict_get].
    + apply String.eqb_eq in E0. subst k0. rewrite IH.
      destruct (String.eqb k k'); reflexivity.
    + destruct (String.eqb k0 k') eqn:E1; [|exact IH].
      apply String.eqb_eq in E1. subst k0.
      apply String.eqb_neq in E0.
      destruct (String.eqb k k') eqn:E2; [|reflexivity].
      apply String.eqb_eq in E2. congruence.
Qed.

Lemma to_map_del k (d : Dict) :
  (list_to_map (dict_del k d) : gmap string CachedPolicy)
  = delete k (list_to_map d).
Proof.
  apply map_eq. intros k'. rewrite dict_get_to_map, dict_get_del.
  destruct (String.eqb k k') eqn:E.
  - apply String.eqb_eq in E. subst. rewrite lookup_delete_eq. reflexivity.
  - apply String.eqb_neq in E. rewrite lookup_delete_ne by exact E.
    rewrite dict_get_to_map. reflexivity.
Qed.

Lemma dict_get_set k' k v (d : Dict) :
  dict_get k' (dict_set k v d)
  = if String.eqb k k' then Some v else dict_get k' d.
Proof.
  induction d as [|[k0 v0] d IH]; cbn.
  - reflexivity.
  - destruct (String.eqb k0 k) eqn:E0; cbn.
    + apply String.eqb_eq in E0. subst k0.
      destruct (String.eqb k k'); reflexivity.
    + destruct (String.eqb k0 k') eqn:E1; [|exact IH].
      apply String.eqb_eq in E1. subst k0.
      apply String.eqb_neq in E0.
      destruct (String.eqb k k') eqn:E2; [|reflexivity].
      apply String.eqb_eq in E2. congruence.
Qed.

Lemma dict_get_None_keys k (d : Dict) :
  dict_get k d = None <-> ~ In k (keys d).
Proof.
  induction d as [|[k0 v0] d IH]; cbn; [tauto|].
  destruct (String.eqb k0 k) eqn:E.
  - apply String.eqb_eq in E. subst. split; [discriminate|tauto].
  - apply String.eqb_neq in E. rewrite IH. tauto.
Qed.

Lemma dict_set_fresh k v (d : Dict) :
  dict_get k d = None -> dict_set k v d = d ++ [(k, v)].
Proof.
  induction d as [|[k0 v0] d IH]; cbn; [reflexivity|].
  destruct (String.eqb k0 k); [discriminate|].
  intros Hn. rewrite (IH Hn). reflexivity.
Qed.


Lemma In_firstn {A} (x : A) n l : In x (firstn n l) -> In x l.
Proof.
  intros Hin. rewrite <- (firstn_skipn n l). apply in_or_app. left.
  exact Hin.
Qed.

Section WithRuntime.
Context `{Runtime}.

(** Reading the cache does not depend on the order of its dictionary:
    [get] on the ordered dictionary returns what [get] on the unordered
    one returns, and leaves the same cache behind. *)
Lemma store_get_forgets_order s action target now :
  to_cache (fst (store_get s action target now))
  = fst (get (to_cache s) action target now)
  /\ snd (store_get s action target now)
     = snd (get (to_cache s) action target now).
Proof.
  unfold store_get, get, to_cache. cbn [_cache cache_config _hits _misses].
  rewrite dict_get_to_map.
  destruct (dict_get (_make_key action target) (_entries s)) as [p|];
    [|split; reflexivity].
  destruct (is_expired p now);
    [cbn; rewrite to_map_del; split; reflexivity|].
  destruct (verify_integrity p); cbn; [split; reflexivity|].
  rewrite to_map_del. split; reflexivity.
Qed.

(** *** A fresh entry verifies *)

Lemma new_policy_verifies cfg action target allowed risk meta now :
  verify_integrity (new_policy cfg action target allowed risk meta now)
  = true.
Proof. unfold verify_integrity. cbn. apply String.eqb_refl. Qed.

(** *** Eviction order *)

Lemma insert_by_time_perm e l : insert_by_time e l ≡ₚ e :: l.
Proof.
  induction l as [|x l IH]; cbn; [reflexivity|].
  destruct (Qleb _ _); [|reflexivity].
  rewrite IH. apply Permutation_swap.
Qed.

Lemma fold_insert_perm d acc :
  fold_left (fun acc e => insert_by_time e acc) d acc ≡ₚ d ++ acc.
Proof.
  revert acc. induction d as [|e d IH]; intros acc; cbn; [reflexivity|].
  rewrite IH, insert_by_time_perm. symmetry. apply Permutation_middle.
Qed.

Lemma sorted_by_time_perm d : sorted_by_time d ≡ₚ d.
Proof.
  unfold sorted_by_time. rewrite fold_insert_perm, app_nil_r. reflexivity.
Qed.

Lemma sorted_by_time_length d : length (sorted_by_time d) = length d.
Proof. apply Permutation_length, sorted_by_time_perm. Qed.

Lemma insert_by_time_last e l :
  Forall (fun x => (cached_at (snd x) <= cached_at (snd e))%Q) l ->
  insert_by_time e l = l ++ [e].
Proof.
  induction 1 as [|x l Hx _ IH]; cbn; [reflexivity|].
  rewrite (proj2 (Qleb_le _ _) Hx), IH. reflexivity.
Qed.

Lemma sorted_by_time_snoc d e :
  Forall (fun x => (cached_at (snd x) <= cached_at (snd e))%Q) d ->
  sorted_by_time (d ++ [e]) = sorted_by_time d ++ [e].
Proof.
  intros Hd. unfold sorted_by_time. rewrite fold_left_app. cbn.
  apply insert_by_time_last.
  eapply Permutation_Forall; [symmetry; apply sorted_by_time_perm|].
  exact Hd.
Qed.

Lemma dict_get_fold_del k victims (d : Dict) :
  ~ In k (keys victims) ->
  dict_get k (fold_left (fun d e => dict_del (fst e) d) victims d)
  = dict_get k d.
Proof.
  revert d. induction victims as [|v victims IH]; intros d Hk;
    cbn [fold_left]; [reflexivity|].
  cbn in Hk. rewrite IH by tauto. rewrite dict_get_del.
  destruct (String.eqb (fst v) k) eqn:E; [|reflexivity].
  apply String.eqb_eq in E. tauto.
Qed.

Lemma cleanup_keeps_newest k p (d : Dict) :
  dict_get k d = None ->
  Forall (fun x => (cached_at (snd x) <= cached_at p)%Q) d ->
  dict_get k (_cleanup_oldest (d ++ [(k, p)])) = Some p.
Proof.
  intros Hfresh Hold. unfold _cleanup_oldest.
  rewrite sorted_by_time_snoc by exact Hold.
  rewrite dict_get_fold_del.
  - rewrite <- (dict_set_fresh k p d Hfresh), dict_get_set.
    rewrite String.eqb_refl. reflexivity.
  - rewrite firstn_app.
    replace (_ - length (sorted_by_time d))%nat with 0%nat.
    2:{ rewrite length_app, sorted_by_time_length. cbn [length].
        assert ((length d + 1) / 10 < length d + 1)%nat; [|lia].
        apply Nat.Div0.div_lt_upper_bound. lia. }
    cbn [firstn]. rewrite app_nil_r. intros Hin.
    apply dict_get_None_keys in Hfresh. apply Hfresh.
    unfold keys in *. apply in_map_iff in Hin.
    destruct Hin as (x & Hx & Hin). apply in_map_iff. exists x.
    split; [exact Hx|].
    apply (Permutation_in _ (sorted_by_time_perm d)).
    exact (In_firstn _ _ _ Hin).
Qed.

(** *** [set] followed by [get] *)

Lemma set_stores s action target allowed risk meta now later :
  let key := _make_key action target in
  let p := new_policy (store_config s) action target allowed risk meta now in
  (Z.of_nat (length (dict_set key p (_entries s)))
   <= max_cache_entries (store_config s))%Z
  \/ (dict_get key (_entries s) = None
      /\ Forall (fun e => (cached_at (snd e) <= now)%Q) (_entries s)) ->
  dict_get key
    (_entries (fst (store_set s action target allowed risk meta now later)))
  = Some p.
Proof.
  intros key p Hroom. unfold store_set. cbn [fst _entries].
  fold key. fold p.
  destruct (Z.ltb_spec (max_cache_entries (store_config s))
              (Z.of_nat (length (dict_set key p (_entries s)))))
    as [Hfull|_].
  - destruct Hroom as [Hroom|[Hfresh Hold]]; [lia|].
    rewrite (dict_set_fresh _ _ _ Hfresh).
    apply cleanup_keeps_newest; assumption.
  - rewrite dict_get_set, String.eqb_refl. reflexivity.
Qed.

Lemma new_policy_expiry cfg action target allowed risk meta now t :
  is_expired (new_policy cfg action target allowed risk meta now) t
  = Qltb (now + inject_Z (cache_ttl_seconds cfg)) t.
Proof. reflexivity. Qed.

Lemma store_get_hit s action target now p :
  dict_get (_make_key action target) (_entries s) = Some p ->
  is_expired p now = false ->
  verify_integrity p = true ->
  snd (store_get s action target now) = Some p.
Proof.
  intros Hl He Hv. unfold store_get. rewrite Hl, He, Hv. reflexivity.
Qed.

Lemma store_get_expired s action target now p :
  dict_get (_make_key action target) (_entries s) = Some p ->
  is_expired p now = true ->
  snd (store_get s action target now) = None.
Proof.
  intros Hl He. unfold store_get. rewrite Hl, He. reflexivity.
Qed.

Lemma handler_reads_store h s action target error now :
  mode (config h) = CACHED ->
  cache h = to_cache s ->
  snd (on_validation_failure h action target error now)
  = match snd (store_get s action target now) with
    | Some p =>
        (FailMode.allowed p,
         UsingCachedReason (now - cached_at p) (FailMode.allowed p)
                           (risk_score p),
         risk_score p)
    | None => (false, NoCachedPolicyReason action target, 100%Q)
    end.
Proof.
  intros Hm Hc. rewrite (cached_mode_unfold _ _ _ _ _ Hm).
  unfold _handle_fail_cached. cbn [cache]. rewrite Hc.
  rewrite (proj2 (store_get_forgets_order s action target now)).
  destruct (get (to_cache s) action target now) as [c [p|]]; reflexivity.
Qed.

(** X7.  A decision stored with [set] at time [now] is what [get]
    returns for the same action and target up to [now + ttl], and what
    a CACHED-mode handler over that cache answers a validation failure
    with; after [now + ttl] the lookup misses and the handler blocks with
    risk 100.  The precondition: the cache has room for the entry, or the
    key is new and no entry carries a later time stamp (then the eviction
    of the oldest tenth spares it). *)
Theorem stored_decision_replayed_until_ttl
    s action target allowed risk meta now later t h error :
  let key := _make_key action target in
  let p := new_policy (store_config s) action target allowed risk meta now in
  let s1 := fst (store_set s action target allowed risk meta now later) in
  (Z.of_nat (length (dict_set key p (_entries s)))
   <= max_cache_entries (store_config s))%Z
  \/ (dict_get key (_entries s) = None
      /\ Forall (fun e => (cached_at (snd e) <= now)%Q) (_entries s)) ->
  mode (config h) = CACHED ->
  cache h = to_cache s1 ->
  ((t <= now + inject_Z (cache_ttl_seconds (store_config s)))%Q ->
   snd (store_get s1 action target t) = Some p
   /\ snd (on_validation_failure h action target error t)
      = (allowed, UsingCachedReason (t - now) allowed risk, risk))
  /\ ((now + inject_Z (cache_ttl_seconds (store_config s)) < t)%Q ->
      snd (store_get s1 action target t) = None
      /\ snd (on_validation_failure h action target error t)
         = (false, NoCachedPolicyReason action target, 100%Q)).
Proof.
  intros key p s1 Hroom Hm Hc.
  pose proof (set_stores s action target allowed risk meta now later Hroom)
    as Hst.
  cbv zeta in Hst. fold key p s1 in Hst.
  rewrite (handler_reads_store h s1 action target error t Hm Hc).
  split; intros Ht.
  - assert (Hg : snd (store_get s1 action target t) = Some p).
    { apply store_get_hit; [exact Hst| |apply new_policy_verifies].
      subst p. rewrite new_policy_expiry. apply Qltb_ge. exact Ht. }
    rewrite Hg. split; reflexivity.
  - assert (Hg : snd (store_get s1 action target t) = None).
    { apply (store_get_expired _ _ _ _ p); [exact Hst|].
      subst p. rewrite new_policy_expiry. apply Qltb_lt. exact Ht. }
    rewrite Hg. split; reflexivity.
Qed.

(** X8.  The cache key does not separate the action from the target: a
    decision stored for action [a::b] and target [c] is served by [get]
    for action [a] and target [b::c]. *)
Theorem cache_key_joins_action_and_target
    s a b c allowed risk meta now later t :
  let action1 := (a ++ "::" ++ b)%string in
  let target2 := (b ++ "::" ++ c)%string in
  let p := new_policy (store_config s) action1 c allowed risk meta now in
  let s1 := fst (store_set s action1 c allowed risk meta now later) in
  (Z.of_nat (length (dict_set (_make_key action1 c) p (_entries s)))
   <= max_cache_entries (store_config s))%Z ->
  (t <= now + inject_Z (cache_ttl_seconds (store_config s)))%Q ->
  snd (store_get s1 a target2 t) = Some p
  /\ FailMode.action p = action1.
Proof.
  intros action1 target2 p s1 Hroom Ht. split; [|reflexivity].
  assert (Hk : _make_key a target2 = _make_key action1 c).
  { unfold _make_key, action1, target2.
    rewrite !NetworkKillTheory.string_append_assoc. reflexivity. }
  apply store_get_hit.
  - rewrite Hk.
    apply (set_stores s action1 c allowed risk meta now later).
    left. exact Hroom.
  - subst p. rewrite new_policy_expiry. apply Qltb_ge. exact Ht.
  - apply new_policy_verifies.
Qed.

(** *** Capacity *)









(** Every entry sits under the key of its own action and target and
    carries the hash of its fields: what [set] and [_load_from_disk]
    establish. *)
Definition well_keyed (d : Dict) : Prop :=
  Forall (fun e =>
            fst e = _make_key (FailMode.action (snd e))
                              (FailMode.target (snd e))
            /\ verify_integrity (snd e) = true) d.





(** *** The cache file *)

(** One step of the loop in [_load_from_disk]. *)
Definition load_step (now : Q) (m : gmap string CachedPolicy)
    (p : CachedPolicy) : gmap string CachedPolicy :=
  if negb (is_expired p now) && verify_integrity p
  then <[_make_key (FailMode.action p) (FailMode.target p) := p]> m else m.

Lemma load_from_disk_fold entries now :
  _load_from_disk (Some entries) now = fold_left (load_step now) entries ∅.
Proof. reflexivity. Qed.

Lemma load_fold_sound now entries m0 k p :
  fold_left (load_step now) entries m0 !! k = Some p ->
  m0 !! k = Some p
  \/ (In p entries /\ is_expired p now = false
      /\ verify_integrity p = true
      /\ k = _make_key (FailMode.action p) (FailMode.target p)).
Proof.
  revert m0. induction entries as [|e entries IH]; intros m0 Hl;
    cbn [fold_left] in Hl; [left; exact Hl|].
  destruct (IH _ Hl) as [Hm|(Hin & He & Hv & Hk)].
  - unfold load_step in Hm.
    destruct (is_expired e now) eqn:Ee; cbn [negb andb] in Hm;
      [left; exact Hm|].
    destruct (verify_integrity e) eqn:Ev; [|left; exact Hm].
    destruct (decide (_make_key (FailMode.action e) (FailMode.target e) = k))
      as [Hk|Hk].
    + subst k. rewrite lookup_insert_eq in Hm. injection Hm as ->.
      right. repeat split; try assumption. left. reflexivity.
    + rewrite lookup_insert_ne in Hm by exact Hk. left. exact Hm.
  - right. repeat split; try assumption. right. exact Hin.
Qed.

(** X10.  Whatever [_load_from_disk] puts into the cache comes from the
    file, has not expired at load time, passes the integrity check and
    sits under the key of its own action and target; a missing or
    unreadable file gives the empty cache. *)
Theorem load_from_disk_admits_only_valid_entries disk now k p :
  _load_from_disk disk now !! k = Some p ->
  exists entries,
    disk = Some entries /\ In p entries
    /\ is_expired p now = false /\ verify_integrity p = true
    /\ k = _make_key (FailMode.action p) (FailMode.target p).
Proof.
  destruct disk as [entries|]; cbn [_load_from_disk];
    [|rewrite lookup_empty; discriminate].
  intros Hl. exists entries. split; [reflexivity|].
  apply (load_fold_sound now entries ∅ k p) in Hl.
  destruct Hl as [Hl|Hl]; [rewrite lookup_empty in Hl; discriminate|].
  exact Hl.
Qed.

Lemma to_map_absent k (d : Dict) :
  ~ In k (keys d) ->
  (list_to_map d : gmap string CachedPolicy) !! k = None.
Proof.
  intros Hn. rewrite dict_get_to_map. apply dict_get_None_keys. exact Hn.
Qed.

Lemma keys_filter_in (f : string * CachedPolicy -> bool) k (d : Dict) :
  In k (keys (List.filter f d)) -> In k (keys d).
Proof.
  unfold keys. intros Hin. apply in_map_iff in Hin.
  destruct Hin as (e & He & Hin). apply List.filter_In in Hin.
  apply in_map_iff. exists e. tauto.
Qed.

Lemma save_to_disk_cons k p (d : Dict) later :
  _save_to_disk ((k, p) :: d) later
  = if is_expired p later then _save_to_disk d later
    else p :: _save_to_disk d later.
Proof.
  unfold _save_to_disk. cbn [map List.filter snd].
  destruct (is_expired p later); reflexivity.
Qed.

Lemma save_load_fold (d : Dict) later now m0 :
  (later <= now)%Q ->
  NoDup (keys d) -> well_keyed d ->
  fold_left (load_step now) (_save_to_disk d later) m0
  = list_to_map
      (List.filter (fun e => negb (is_expired (snd e) now)) d) ∪ m0.
Proof.
  intros Hle. revert m0.
  induction d as [|[k p] d IH]; intros m0 Hn Hw.
  - cbn. rewrite (left_id_L ∅ (∪)). reflexivity.
  - change (keys ((k, p) :: d)) with (k :: keys d) in Hn.
    apply NoDup_cons in Hn. destruct Hn as [Hk Hn].
    rewrite list_elem_of_In in Hk.
    apply Forall_cons in Hw. destruct Hw as [[Hkey Hv] Hw].
    cbn [fst snd] in Hkey, Hv.
    rewrite save_to_disk_cons. cbn [List.filter snd].
    destruct (is_expired p now) eqn:En; cbn [negb].
    + destruct (is_expired p later) eqn:El; cbn [fold_left].
      * apply IH; assumption.
      * rewrite IH by assumption. unfold load_step.
        rewrite En. reflexivity.
    + assert (El : is_expired p later = false).
      { unfold is_expired in *. apply Qltb_ge. apply Qltb_ge in En.
        lra. }
      rewrite El. cbn [fold_left]. rewrite IH by assumption.
      unfold load_step. rewrite En, Hv. cbn [negb andb].
      rewrite <- Hkey.
      change (list_to_map ((k, p) :: ?l))
        with (<[k := p]> (list_to_map l : gmap string CachedPolicy)).
      rewrite <- insert_union_l. symmetry. apply insert_union_r.
      apply to_map_absent. intros Hin. apply Hk.
      exact (keys_filter_in _ _ _ Hin).
Qed.

(** X11.  Saving the cache and loading the file again gives back the
    entries that have not expired by load time, each under its own key,
    and nothing else - for a cache with distinct keys whose entries sit
    under their own keys and verify, and a load that is not earlier than
    the save. *)
Theorem save_then_load_keeps_unexpired (d : Dict) later now :
  (later <= now)%Q ->
  NoDup (keys d) -> well_keyed d ->
  _load_from_disk (Some (_save_to_disk d later)) now
  = list_to_map (List.filter (fun e => negb (is_expired (snd e) now)) d).
Proof.
  intros Hle Hn Hw. rewrite load_from_disk_fold.
  rewrite (save_load_fold d later now ∅ Hle Hn Hw).
  apply (right_id_L ∅ (∪)).
Qed.

(** *** [invalidate] *)

Lemma store_get_miss s action target now :
  dict_get (_make_key action target) (_entries s) = None ->
  snd (store_get s action target now) = None.
Proof. intros Hl. unfold store_get. rewrite Hl. reflexivity. Qed.

Lemma store_get_result s s' action target now :
  dict_get (_make_key action target) (_entries s')
  = dict_get (_make_key action target) (_entries s) ->
  snd (store_get s' action target now) = snd (store_get s action target now).
Proof.
  intros Hl. unfold store_get. rewrite Hl.
  destruct (dict_get _ (_entries s)) as [p|]; [|reflexivity].
  destruct (is_expired p now); [reflexivity|].
  destruct (verify_integrity p); reflexivity.
Qed.

(** X12.  [invalidate] with an action and a target, both non-empty,
    removes exactly the entry under their key: the next [get] for them
    misses and every lookup under another key answers as before.  With
    two empty strings it removes nothing, while with no argument at all
    it empties the cache. *)
Theorem invalidate_removes_one_key_or_all s :
  (forall action target,
      action <> EmptyString -> target <> EmptyString ->
      let s1 := invalidate s (Some action) (Some target) in
      (forall now, snd (store_get s1 action target now) = None)
      /\ (forall action' target' now,
             _make_key action' target' <> _make_key action target ->
             snd (store_get s1 action' target' now)
             = snd (store_get s action' target' now)))
  /\ _entries (invalidate s (Some EmptyString) (Some EmptyString))
     = _entries s
  /\ _entries (invalidate s None None) = [].
Proof.
  split; [|split].
  - intros action target Ha Ht s1. subst s1. unfold invalidate.
    assert (Hta : truthy (Some action) = true).
    { cbn. apply negb_true_iff, String.eqb_neq. exact Ha. }
    assert (Htt : truthy (Some target) = true).
    { cbn. apply negb_true_iff, String.eqb_neq. exact Ht. }
    rewrite Hta, Htt. cbn [andb default from_option id]. split.
    + intros now. apply store_get_miss. cbn [_entries].
      rewrite dict_get_del, String.eqb_refl. reflexivity.
    + intros action' target' now Hne. apply store_get_result.
      cbn [_entries]. rewrite dict_get_del.
      destruct (String.eqb _ _) eqn:E; [|reflexivity].
      apply String.eqb_eq in E. congruence.
  - unfold invalidate, names. cbn [truthy andb _entries].
    rewrite String.eqb_refl. cbn [negb andb orb].
    apply filter_keeps_all. apply Forall_forall. intros; reflexivity.
  - reflexivity.
Qed.

(** *** The factory and the failure counters *)

Lemma factory_mode mode_name api_timeout cache_ttl disk now :
  mode (config (create_fail_mode_handler mode_name api_timeout cache_ttl
                                         disk now))
  = if String.eqb (lower mode_name) "closed" then CLOSED
    else if String.eqb (lower mode_name) "cached" then CACHED
    else if String.eqb (lower mode_name) "open" then OPEN
    else CLOSED.
Proof. reflexivity. Qed.

(** X13.  [create_fail_mode_handler] picks the mode by the lower-cased
    name: OPEN only for a spelling of "open", CACHED only for a spelling
    of "cached", and CLOSED for every other name - so a handler built from
    a misspelt mode blocks every failed validation with risk 100. *)
Theorem factory_defaults_unknown_mode_to_closed
    mode_name api_timeout cache_ttl disk now :
  let h := create_fail_mode_handler mode_name api_timeout cache_ttl disk now in
  (mode (config h) = OPEN <-> lower mode_name = "open")
  /\ (mode (config h) = CACHED <-> lower mode_name = "cached")
  /\ (lower mode_name <> "open" -> lower mode_name <> "cached" ->
      mode (config h) = CLOSED
      /\ forall action target error t,
           exists h' reason,
             on_validation_failure h action target error t
             = (h', (false, reason, 100%Q))).
Proof.
  intros h.
  assert (Hc : lower mode_name <> "open" -> lower mode_name <> "cached" ->
               mode (config h) = CLOSED).
  { intros Ho Ha. subst h. rewrite factory_mode.
    destruct (String.eqb_spec (lower mode_name) "closed"); [reflexivity|].
    destruct (String.eqb_spec (lower mode_name) "cached"); [congruence|].
    destruct (String.eqb_spec (lower mode_name) "open"); [congruence|].
    reflexivity. }
  split; [|split].
  - subst h. rewrite factory_mode.
    destruct (String.eqb_spec (lower mode_name) "closed") as [E|E];
      [rewrite E; split; discriminate|].
    destruct (String.eqb_spec (lower mode_name) "cached") as [E1|E1];
      [rewrite E1; split; discriminate|].
    destruct (String.eqb_spec (lower mode_name) "open") as [E2|E2];
      [split; [intros _; exact E2|reflexivity]|].
    split; [discriminate|congruence].
  - subst h. rewrite factory_mode.
    destruct (String.eqb_spec (lower mode_name) "closed") as [E|E];
      [rewrite E; split; discriminate|].
    destruct (String.eqb_spec (lower mode_name) "cached") as [E1|E1];
      [split; [intros _; exact E1|reflexivity]|].
    destruct (String.eqb_spec (lower mode_name) "open") as [E2|E2];
      [split; [discriminate|congruence]|].
    split; [discriminate|congruence].
  - intros Ho Ha. split; [exact (Hc Ho Ha)|]. intros.
    apply closed_blocks. exact (Hc Ho Ha).
Qed.

(** [get_stats()["total_failures"]] *)
Definition total_failures (h : FailModeHandler) : Z :=
  _fail_closed_count h + _fail_cached_count h + _fail_open_count h.

Lemma on_validation_failure_counts h action target error now :
  let r := on_validation_failure h action target error now in
  total_failures (fst r) = total_failures h + 1
  /\ _fail_closed_count h <= _fail_closed_count (fst r)
  /\ _fail_cached_count h <= _fail_cached_count (fst r)
  /\ _fail_open_count h <= _fail_open_count (fst r)
  /\ config (fst r) = config h
  /\ _last_failure_time (fst r) = Some now
  /\ (fst (fst (snd r)) = true ->
      _fail_closed_count (fst r) = _fail_closed_count h).
Proof.
  unfold on_validation_failure, total_failures. cbn [config mode].
  destruct (mode (config h)).
  - cbn. repeat split; try lia; discriminate.
  - unfold _handle_fail_cached. cbn [cache].
    destruct (get (cache h) action target now) as [c [p|]]; cbn;
      repeat split; try lia; discriminate.
  - cbn. repeat split; lia.
Qed.

(** X14.  Every call of [on_validation_failure] adds one to exactly one
    of the three failure counters, so after any run of failures their
    sum has grown by the number of calls and none of them has gone down;
    the mode of the handler never changes; and the calls that were let
    through are never counted as fail-closed: the fail-closed counter
    grows by at most the number of blocked calls. *)
Theorem failure_counters_count_every_failure h failures :
  let r := fail_all h failures in
  length (snd r) = length failures
  /\ total_failures (fst r) = total_failures h + Z.of_nat (length failures)
  /\ _fail_closed_count h <= _fail_closed_count (fst r)
     <= _fail_closed_count h
        + Z.of_nat (length (List.filter (fun d => negb (fst (fst d)))
                                          (snd r)))
  /\ _fail_cached_count h <= _fail_cached_count (fst r)
  /\ _fail_open_count h <= _fail_open_count (fst r)
  /\ config (fst r) = config h.
Proof.
  revert h. induction failures as [|[[[action target] error] now] rest IH];
    intros h; cbn [fail_all].
  - cbn. unfold total_failures. repeat split; lia.
  - pose proof (on_validation_failure_counts h action target error now)
      as Hstep. cbv zeta in Hstep.
    destruct (on_validation_failure h action target error now)
      as [h1 d] eqn:E1.
    cbn [fst snd] in Hstep.
    destruct Hstep as (Ht & Hc & Ha & Ho & Hcfg & _ & Hallowed).
    specialize (IH h1). cbv zeta in IH.
    destruct (fail_all h1 rest) as [h2 ds] eqn:E2.
    cbn [fst snd] in IH |- *.
    destruct IH as (Hlen & Ht2 & Hc2 & Ha2 & Ho2 & Hcfg2).
    cbn [length List.filter].
    assert (Hc1 : _fail_closed_count h1
                  <= _fail_closed_count h
                     + (if negb (fst (fst d)) then 1 else 0)).
    { destruct (fst (fst d)) eqn:Ed; cbn [negb].
      - rewrite (Hallowed eq_refl). lia.
      - unfold total_failures in Ht. lia. }
    repeat split; try lia; try congruence.
    destruct (negb (fst (fst d))); cbn [length]; lia.
Qed.

End WithRuntime.

(** *** Concrete runs (under [toy_runtime]) *)

(** An empty cache with the CACHED-mode configuration. *)
Definition empty_store : PolicyStore := mkPolicyStore cached_config [] 0 0.

(** [set("file_read", "/etc/passwd", False, 85)] at time 0. *)
Definition passwd_store : PolicyStore :=
  fst (store_set (H := toy_runtime) empty_store "file_read" "/etc/passwd"
                 false 85%Q [] 0%Q 0%Q).

(** A CACHED-mode handler over that cache. *)
Definition passwd_handler : FailModeHandler :=
  mkFailModeHandler cached_config (to_cache passwd_store) 0 0 0 None.

Lemma stored_decision_replayed_until_ttl_witness :
  snd (on_validation_failure (H := toy_runtime) passwd_handler
         "file_read" "/etc/passwd" None 10%Q)
  = (false, UsingCachedReason (10 - 0)%Q false 85%Q, 85%Q).
Proof.
  refine (proj2 (proj1 (stored_decision_replayed_until_ttl
                          (H := toy_runtime) empty_store "file_read"
                          "/etc/passwd" false 85%Q [] 0%Q 0%Q 10%Q
                          passwd_handler None _ eq_refl eq_refl) _)).
  - left. vm_compute. discriminate.
  - vm_compute. discriminate.
Defined.

Lemma cache_key_joins_action_and_target_witness :
  FailMode.action
    <$> snd (store_get (H := toy_runtime)
               (fst (store_set (H := toy_runtime) empty_store "db::read"
                               "users" true 5%Q [] 0%Q 0%Q))
               "db" "read::users" 10%Q)
  = Some "db::read".
Proof.
  destruct (cache_key_joins_action_and_target (H := toy_runtime)
              empty_store "db" "read" "users" true 5%Q [] 0%Q 0%Q 10%Q)
    as [Hget Hact].
  - vm_compute. discriminate.
  - vm_compute. discriminate.
  - cbv zeta in Hget, Hact. 
    change ("db" ++ "::" ++ "read")%string with "db::read" in Hget.
    change ("read" ++ "::" ++ "users")%string with "read::users" in Hget.
    rewrite Hget. reflexivity.
Defined.


Lemma load_from_disk_admits_only_valid_entries_witness :
  exists entries,
    Some [passwd_entry] = Some entries /\ In passwd_entry entries
    /\ is_expired passwd_entry 1%Q = false
    /\ verify_integrity (H := toy_runtime) passwd_entry = true
    /\ _make_key "file_read" "/etc/passwd"
       = _make_key (FailMode.action passwd_entry)
                   (FailMode.target passwd_entry).
Proof.
  apply (load_from_disk_admits_only_valid_entries (H := toy_runtime)
           (Some [passwd_entry]) 1%Q).
  vm_compute. reflexivity.
Defined.

Lemma save_then_load_keeps_unexpired_witness :
  _load_from_disk (H := toy_runtime)
    (Some (_save_to_disk (_entries passwd_store) 1%Q)) 2%Q
  = list_to_map
      (List.filter (fun e => negb (is_expired (snd e) 2%Q))
                   (_entries passwd_store)).
Proof.
  apply (save_then_load_keeps_unexpired (H := toy_runtime)).
  - vm_compute. discriminate.
  - apply NoDup_singleton.
  - apply Forall_cons. split; [split; reflexivity|apply Forall_nil].
    constructor.
Defined.

Lemma invalidate_removes_one_key_or_all_witness :
  snd (store_get (H := toy_runtime)
         (invalidate passwd_store (Some "file_read") (Some "/etc/passwd"))
         "file_read" "/etc/passwd" 10%Q)
  = None.
Proof.
  apply (proj1 (invalidate_removes_one_key_or_all (H := toy_runtime)
                  passwd_store) "file_read" "/etc/passwd");
    discriminate.
Defined.

Lemma factory_defaults_unknown_mode_to_closed_witness :
  mode (config (create_fail_mode_handler (H := toy_runtime) "Fail-Open"
                  100 60 None 0%Q))
  = CLOSED.
Proof.
  apply (proj2 (proj2 (factory_defaults_unknown_mode_to_closed
                         (H := toy_runtime) "Fail-Open" 100 60 None 0%Q)));
    vm_compute; discriminate.
Defined.

End PolicyStoreTheory.

Module HardKillOpsTheory.
Import HardKill HardKillOps HardKillTheory.

Section WithOS.
Variable os : OS.
Variable hk : HardKill.

(** The longest [kill] sleeps: the soft timeout, the poll that
    overshoots it, and the polls of [_verify_death]. *)
Definition kill_budget : Q :=
  (soft_timeout hk
   + (1 + inject_Z (Z.of_nat (Z.to_nat (max_verify_attempts hk))))
     * verify_interval hk)%Q.

(** *** Time spent in the polling loops *)

Lemma wait_loop_clock start timeout p fuel :
  (0 <= verify_interval hk)%Q ->
  forall w w' b,
    wait_loop os hk fuel start timeout w p = Some (w', b) ->
    (clock w <= clock w')%Q
    /\ forall bound,
         (clock w <= bound)%Q ->
         (start + timeout + verify_interval hk <= bound)%Q ->
         (clock w' <= bound)%Q.
Proof.
  intros Hpos. induction fuel as [|fuel IH]; intros w w' b; cbn;
    [discriminate|].
  destruct (Qltb (clock w - start) timeout) eqn:Ht.
  - apply Qltb_lt in Ht.
    destruct (alive os w p); cbn.
    + intros Hrec. apply IH in Hrec. cbn [sleep clock] in Hrec.
      destruct Hrec as [Hle Hb]. split; [lra|].
      intros bound H1 H2. apply Hb; lra.
    + intros Heq. inversion Heq; subst. split; [lra|]. intros; lra.
  - intros Heq. inversion Heq; subst. split; [lra|]. intros; lra.
Qed.

Lemma verify_loop_clock p n :
  (0 <= verify_interval hk)%Q ->
  forall w w' b,
    verify_loop os hk n w p = (w', b) ->
    (clock w <= clock w')%Q
    /\ (clock w' <= clock w
                    + inject_Z (Z.of_nat n) * verify_interval hk)%Q.
Proof.
  intros Hpos. induction n as [|n IH]; intros w w' b.
  - cbn [verify_loop]. change (inject_Z (Z.of_nat 0)) with 0%Q.
    intros Heq. inversion Heq; subst. split; lra.
  - cbn [verify_loop]. rewrite Nat2Z.inj_succ. unfold Z.succ.
    rewrite inject_Z_plus. change (inject_Z 1) with 1%Q.
    destruct (alive os w p); cbn [negb].
    + intros Hrec. apply IH in Hrec. cbn [sleep clock] in Hrec.
      split; lra.
    + intros Heq. inversion Heq; subst.
      assert (0 <= inject_Z (Z.of_nat n))%Q.
      { change 0%Q with (inject_Z 0). rewrite <- Zle_Qle. lia. }
      split; [lra|]. nra.
Qed.

(** *** Every way through [kill] *)

Inductive kill_run (w : World) (p : Z) (escalate : bool) (w' : World)
    (r : KillReport) : Prop :=
| run_dead :
    alive os w p = false ->
    w' = w ->
    result r = ALREADY_DEAD ->
    soft_signal_sent r = false -> hard_signal_sent r = false ->
    time_to_death_ms r = Some 0%Q ->
    kill_run w p escalate w' r
| run_denied :
    alive os w p = true ->
    soft_ok os w p = false ->
    w' = request w p SIGTERM ->
    result r = PERMISSION_DENIED ->
    soft_signal_sent r = false -> hard_signal_sent r = false ->
    time_to_death_ms r = None ->
    kill_run w p escalate w' r
| run_soft fuel :
    alive os w p = true ->
    soft_ok os w p = true ->
    _wait_for_death os hk fuel (request w p SIGTERM) p (soft_timeout hk)
      = Some (w', true) ->
    result r = SOFT_KILL_SUCCESS ->
    soft_signal_sent r = true -> hard_signal_sent r = false ->
    time_to_death_ms r = Some (elapsed_ms (clock w) w') ->
    kill_run w p escalate w' r
| run_gave_up fuel :
    alive os w p = true ->
    soft_ok os w p = true ->
    _wait_for_death os hk fuel (request w p SIGTERM) p (soft_timeout hk)
      = Some (w', false) ->
    escalate = false ->
    result r = FAILED ->
    soft_signal_sent r = true -> hard_signal_sent r = false ->
    time_to_death_ms r = None ->
    kill_run w p escalate w' r
| run_hard_refused fuel w2 :
    alive os w p = true ->
    soft_ok os w p = true ->
    _wait_for_death os hk fuel (request w p SIGTERM) p (soft_timeout hk)
      = Some (w2, false) ->
    escalate = true ->
    hard_ok os w2 p = false ->
    w' = request w2 p SIGKILL ->
    result r = FAILED ->
    soft_signal_sent r = true -> hard_signal_sent r = false ->
    time_to_death_ms r = None ->
    kill_run w p escalate w' r
| run_hard fuel w2 dead :
    alive os w p = true ->
    soft_ok os w p = true ->
    _wait_for_death os hk fuel (request w p SIGTERM) p (soft_timeout hk)
      = Some (w2, false) ->
    escalate = true ->
    hard_ok os w2 p = true ->
    _verify_death os hk (request w2 p SIGKILL) p = (w', dead) ->
    result r = (if dead then HARD_KILL_SUCCESS else ZOMBIE) ->
    soft_signal_sent r = true -> hard_signal_sent r = true ->
    time_to_death_ms r = Some (elapsed_ms (clock w) w') ->
    kill_run w p escalate w' r.

Lemma kill_runs fuel w p escalate w' r :
  kill os hk fuel w p escalate = Some (w', r) ->
  kill_run w p escalate w' r /\ pid r = p /\ timestamp r = clock w'.
Proof.
  unfold kill, _send_soft_kill, _send_hard_kill.
  destruct (alive os w p) eqn:Ha; cbn [negb].
  2:{ intros Heq. inversion Heq; subst. split; [|split; reflexivity].
      apply run_dead; auto. }
  destruct (soft_ok os w p) eqn:Hs; cbn [negb].
  2:{ intros Heq. inversion Heq; subst. split; [|split; reflexivity].
      apply run_denied; auto. }
  destruct (_wait_for_death os hk fuel (request w p SIGTERM) p
              (soft_timeout hk)) as [[w2 [|]]|] eqn:Hw; [| |discriminate].
  { intros Heq. inversion Heq; subst. split; [|split; reflexivity].
    eapply run_soft; eauto. }
  destruct escalate; cbn [negb].
  2:{ intros Heq. inversion Heq; subst. split; [|split; reflexivity].
      eapply run_gave_up; eauto. }
  destruct (hard_ok os w2 p) eqn:Hh; cbn [negb].
  2:{ intros Heq. inversion Heq; subst. split; [|split; reflexivity].
      eapply run_hard_refused; eauto. }
  destruct (_verify_death os hk (request w2 p SIGKILL) p)
    as [w4 dead] eqn:Hv.
  destruct dead; intros Heq; inversion Heq; subst;
    (split; [|split; reflexivity]); eapply run_hard; eauto.
Qed.

Lemma inject_nat_nonneg (n : nat) : (0 <= inject_Z (Z.of_nat n))%Q.
Proof. change 0%Q with (inject_Z 0). rewrite <- Zle_Qle. lia. Qed.

(** What a run of [kill] leaves behind: the time it took and the
    requests it issued. *)
Lemma kill_run_trace w p escalate w' r :
  (0 <= verify_interval hk)%Q -> (0 <= soft_timeout hk)%Q ->
  kill_run w p escalate w' r ->
  (clock w <= clock w' <= clock w + kill_budget)%Q
  /\ (requests w' = requests w
      \/ requests w' = requests w ++ [(clock w, p, SIGTERM)]
         /\ (escalate = false ->
             (clock w' <= clock w + soft_timeout hk + verify_interval hk)%Q)
      \/ exists t,
           requests w' = requests w ++ [(clock w, p, SIGTERM);
                                         (t, p, SIGKILL)]
           /\ escalate = true
           /\ (clock w + soft_timeout hk <= t <= clock w')%Q).
Proof.
  intros Hi Ht Hrun. unfold kill_budget.
  pose proof (inject_nat_nonneg (Z.to_nat (max_verify_attempts hk))) as Hn.
  set (n := inject_Z (Z.of_nat (Z.to_nat (max_verify_attempts hk)))) in *.
  assert (Hwait : forall fuel w2 b,
             _wait_for_death os hk fuel (request w p SIGTERM) p
                             (soft_timeout hk) = Some (w2, b) ->
             requests w2 = requests w ++ [(clock w, p, SIGTERM)]
             /\ (clock w <= clock w2)%Q
             /\ (clock w2 <= clock w + soft_timeout hk
                             + verify_interval hk)%Q
             /\ (b = false -> (clock w + soft_timeout hk <= clock w2)%Q)).
  { intros fuel w2 b Hw. unfold _wait_for_death in Hw.
    pose proof (wait_loop_inv os hk _ _ _ _ _ _ _ Hw) as [Hreq Hb].
    pose proof (wait_loop_clock _ _ _ _ Hi _ _ _ Hw) as [Hle Hbound].
    cbn [request clock requests] in *.
    split; [exact Hreq|]. split; [exact Hle|]. split.
    - apply Hbound; lra.
    - intros ->. lra. }
  destruct Hrun as
    [Ha Hw' Hres Hss Hhs Htime
    |Ha Hs Hw' Hres Hss Hhs Htime
    |f Ha Hs Hw Hres Hss Hhs Htime
    |f Ha Hs Hw He Hres Hss Hhs Htime
    |f w2 Ha Hs Hw He Hh Hw' Hres Hss Hhs Htime
    |f w2 dead Ha Hs Hw He Hh Hv Hres Hss Hhs Htime].
  - subst w'. split; [split; nra|]. left. reflexivity.
  - subst w'. cbn [request clock requests].
    split; [split; nra|]. right. left. split; [reflexivity|]. intros _. lra.
  - destruct (Hwait _ _ _ Hw) as (Hreq & H1 & H2 & _).
    split; [split; nra|]. right. left. split; [exact Hreq|]. intros _. lra.
  - destruct (Hwait _ _ _ Hw) as (Hreq & H1 & H2 & _).
    split; [split; nra|]. right. left. split; [exact Hreq|]. intros _. lra.
  - destruct (Hwait _ _ _ Hw) as (Hreq & H1 & H2 & H3).
    specialize (H3 eq_refl). subst w'. cbn [request clock requests].
    split; [split; nra|]. right. right. exists (clock w2).
    rewrite Hreq, <- app_assoc. split; [reflexivity|].
    split; [exact He|]. lra.
  - destruct (Hwait _ _ _ Hw) as (Hreq & H1 & H2 & H3).
    specialize (H3 eq_refl). unfold _verify_death in Hv.
    pose proof (verify_loop_inv os hk _ _ _ _ _ Hv) as [Hreq' _].
    pose proof (verify_loop_clock _ _ Hi _ _ _ Hv) as [H4 H5].
    cbn [request clock requests] in *. fold n in H5.
    split; [split; nra|]. right. right. exists (clock w2).
    rewrite Hreq', Hreq, <- app_assoc. split; [reflexivity|].
    split; [exact He|]. lra.
Qed.


(** X16.  With [escalate=False], [kill] never issues SIGKILL: it issues
    nothing or the one SIGTERM, reports [hard_signal_sent = False], is
    back within the soft timeout plus one polling interval, and answers
    [failed] exactly when the target was alive, took the SIGTERM and the
    soft timeout ran out. *)
Theorem kill_without_escalation_never_forces fuel w p :
  (0 < verify_interval hk)%Q -> (0 <= soft_timeout hk)%Q ->
  (soft_timeout hk <= inject_Z (Z.of_nat fuel) * verify_interval hk)%Q ->
  exists w' r,
    kill os hk (S fuel) w p false = Some (w', r)
    /\ (requests w' = requests w
        \/ requests w' = requests w ++ [(clock w, p, SIGTERM)])
    /\ hard_signal_sent r = false
    /\ (clock w' <= clock w + soft_timeout hk + verify_interval hk)%Q
    /\ (result r = FAILED ->
        alive os w p = true /\ soft_ok os w p = true
        /\ (clock w + soft_timeout hk <= clock w')%Q)
    /\ result r <> HARD_KILL_SUCCESS /\ result r <> ZOMBIE.
Proof.
  intros Hpos Ht Hfuel.
  destruct (kill_returns os hk fuel w p false Hpos Hfuel) as [[w' r] Hk].
  exists w', r. split; [exact Hk|].
  destruct (kill_runs _ _ _ _ _ _ Hk) as (Hrun & _ & _).
  pose proof (kill_run_trace _ _ _ _ _ (Qlt_le_weak _ _ Hpos) Ht Hrun)
    as [Hclock Htrace].
  assert (Hreq : requests w' = requests w
                 \/ requests w' = requests w ++ [(clock w, p, SIGTERM)]).
  { destruct Htrace as [Hreq|[[Hreq _]|(t & _ & He & _)]];
      [left; exact Hreq|right; exact Hreq|discriminate]. }
  split; [exact Hreq|].
  destruct Hrun as
    [Ha Hw' Hres Hss Hhs Htime
    |Ha Hs Hw' Hres Hss Hhs Htime
    |f Ha Hs Hw Hres Hss Hhs Htime
    |f Ha Hs Hw He Hres Hss Hhs Htime
    |f w2 Ha Hs Hw He Hh Hw' Hres Hss Hhs Htime
    |f w2 dead Ha Hs Hw He Hh Hv Hres Hss Hhs Htime];
    try discriminate.
  - subst w'. rewrite Hres. repeat split; try congruence; try lra.
  - subst w'. rewrite Hres. cbn [request clock].
    repeat split; try congruence; try lra.
  - unfold _wait_for_death in Hw.
    pose proof (wait_loop_clock _ _ _ _ (Qlt_le_weak _ _ Hpos) _ _ _ Hw)
      as [_ Hb].
    cbn [request clock] in Hb. rewrite Hres.
    repeat split; try congruence. apply Hb; lra.
  - unfold _wait_for_death in Hw.
    pose proof (wait_loop_clock _ _ _ _ (Qlt_le_weak _ _ Hpos) _ _ _ Hw)
      as [_ Hb].
    pose proof (wait_loop_inv os hk _ _ _ _ _ _ _ Hw) as [_ Hto].
    cbn [request clock] in Hb, Hto. rewrite Hres.
    repeat split; try congruence; try (apply Hb; lra). lra.
Qed.

(** X17.  The report says what the last look at the process showed: the
    three success results are only given for a process seen dead at the
    end, [zombie] only for one seen alive after the SIGKILL went through.
    [hard_signal_sent] is set exactly for [hard] and [zombie],
    [soft_signal_sent] is clear exactly for [already_dead] and
    [permission_denied], a time to death is missing exactly for [failed]
    and [permission_denied], and the plain [success] value is never
    produced. *)
Theorem kill_report_matches_last_observation fuel w p escalate :
  (0 < verify_interval hk)%Q ->
  (soft_timeout hk <= inject_Z (Z.of_nat fuel) * verify_interval hk)%Q ->
  exists w' r,
    kill os hk (S fuel) w p escalate = Some (w', r)
    /\ (result r = ALREADY_DEAD \/ result r = SOFT_KILL_SUCCESS
        \/ result r = HARD_KILL_SUCCESS -> alive os w' p = false)
    /\ (result r = ZOMBIE -> alive os w' p = true)
    /\ (hard_signal_sent r = true
        <-> result r = HARD_KILL_SUCCESS \/ result r = ZOMBIE)
    /\ (soft_signal_sent r = false
        <-> result r = ALREADY_DEAD \/ result r = PERMISSION_DENIED)
    /\ (time_to_death_ms r = None
        <-> result r = FAILED \/ result r = PERMISSION_DENIED)
    /\ result r <> SUCCESS.
Proof.
  intros Hpos Hfuel.
  destruct (kill_returns os hk fuel w p escalate Hpos Hfuel)
    as [[w' r] Hk].
  exists w', r. split; [exact Hk|].
  destruct (kill_runs _ _ _ _ _ _ Hk) as (Hrun & _ & _).
  destruct Hrun as
    [Ha Hw' Hres Hss Hhs Htime
    |Ha Hs Hw' Hres Hss Hhs Htime
    |f Ha Hs Hw Hres Hss Hhs Htime
    |f Ha Hs Hw He Hres Hss Hhs Htime
    |f w2 Ha Hs Hw He Hh Hw' Hres Hss Hhs Htime
    |f w2 dead Ha Hs Hw He Hh Hv Hres Hss Hhs Htime];
    rewrite ?Hres, ?Hss, ?Hhs, ?Htime.
  - subst w'. repeat split; intros; try congruence; try tauto;
      try (intuition discriminate).
  - repeat split; intros; try congruence; try tauto;
      try (intuition discriminate).
  - unfold _wait_for_death in Hw.
    pose proof (wait_loop_inv os hk _ _ _ _ _ _ _ Hw) as [_ [Hd _]].
    repeat split; intros; try congruence; try tauto;
      try (intuition discriminate).
  - repeat split; intros; try congruence; try tauto;
      try (intuition discriminate).
  - repeat split; intros; try congruence; try tauto;
      try (intuition discriminate).
  - unfold _verify_death in Hv.
    pose proof (verify_loop_inv os hk _ _ _ _ _ Hv) as [_ Hd].
    symmetry in Hd.
    destruct dead;
      [apply negb_true_iff in Hd|apply negb_false_iff in Hd];
      repeat split; intros; try congruence; try tauto;
      try (intuition discriminate).
Qed.

(** *** Batches *)

(** The requests [new] all go to one of [pids]. *)
Definition aimed_at (pids : list Z) (new : list (Q * Z * Signal)) : Prop :=
  Forall (fun rq => In (snd (fst rq)) pids) new.

Lemma aimed_at_app pids new1 new2 :
  aimed_at pids new1 -> aimed_at pids new2 -> aimed_at pids (new1 ++ new2).
Proof. intros H1 H2. apply Forall_app. split; assumption. Qed.

Lemma aimed_at_weaken pids pids' new :
  (forall q, In q pids -> In q pids') ->
  aimed_at pids new -> aimed_at pids' new.
Proof.
  intros Hsub Hnew. unfold aimed_at in *.
  eapply Forall_impl; [exact Hnew|]. intros rq. apply Hsub.
Qed.

Lemma kill_step fuel w p escalate :
  (0 < verify_interval hk)%Q -> (0 <= soft_timeout hk)%Q ->
  (soft_timeout hk <= inject_Z (Z.of_nat fuel) * verify_interval hk)%Q ->
  exists w' r,
    kill os hk (S fuel) w p escalate = Some (w', r)
    /\ pid r = p
    /\ (clock w <= clock w' <= clock w + kill_budget)%Q
    /\ exists new, requests w' = requests w ++ new /\ aimed_at [p] new.
Proof.
  intros Hpos Ht Hfuel.
  destruct (kill_returns os hk fuel w p escalate Hpos Hfuel)
    as [[w' r] Hk].
  exists w', r. split; [exact Hk|].
  destruct (kill_runs _ _ _ _ _ _ Hk) as (Hrun & Hpid & _).
  split; [exact Hpid|].
  destruct (kill_run_trace _ _ _ _ _ (Qlt_le_weak _ _ Hpos) Ht Hrun)
    as [Hclock [Hreq|[[Hreq _]|(t & Hreq & _ & _)]]];
    (split; [exact Hclock|]).
  - exists []. rewrite app_nil_r. split; [exact Hreq|constructor].
  - eexists. split; [exact Hreq|]. repeat constructor.
  - eexists. split; [exact Hreq|]. repeat constructor.
Qed.

Lemma kill_budget_nonneg :
  (0 <= verify_interval hk)%Q -> (0 <= soft_timeout hk)%Q ->
  (0 <= kill_budget)%Q.
Proof.
  intros Hi Ht. unfold kill_budget.
  pose proof (inject_nat_nonneg (Z.to_nat (max_verify_attempts hk))).
  nra.
Qed.

Lemma kill_many_spec fuel pids :
  (0 < verify_interval hk)%Q -> (0 <= soft_timeout hk)%Q ->
  (soft_timeout hk <= inject_Z (Z.of_nat fuel) * verify_interval hk)%Q ->
  forall w,
  exists w' reports,
    kill_many os hk (S fuel) w pids = Some (w', reports)
    /\ map pid reports = pids
    /\ (clock w <= clock w'
        <= clock w + inject_Z (Z.of_nat (length pids)) * kill_budget)%Q
    /\ exists new, requests w' = requests w ++ new /\ aimed_at pids new.
Proof.
  intros Hpos Ht Hfuel.
  pose proof (kill_budget_nonneg (Qlt_le_weak _ _ Hpos) Ht) as Hb.
  induction pids as [|p pids IH]; intros w.
  - exists w, []. split; [reflexivity|]. split; [reflexivity|].
    cbn [length]. change (inject_Z (Z.of_nat 0)) with 0%Q.
    split; [lra|]. exists []. rewrite app_nil_r. split; [reflexivity|].
    constructor.
  - cbn [kill_many].
    destruct (kill_step fuel w p true Hpos Ht Hfuel)
      as (w1 & r & Hk & Hpid & Hc1 & new1 & Hreq1 & Haim1).
    rewrite Hk.
    destruct (IH w1) as (w2 & rs & Hm & Hpids & Hc2 & new2 & Hreq2 & Haim2).
    rewrite Hm. exists w2, (r :: rs). split; [reflexivity|].
    split; [cbn [map]; congruence|]. split.
    + cbn [length]. rewrite Nat2Z.inj_succ. unfold Z.succ.
      rewrite inject_Z_plus. change (inject_Z 1) with 1%Q.
      split; nra.
    + exists (new1 ++ new2). rewrite Hreq2, Hreq1, app_assoc.
      split; [reflexivity|]. apply aimed_at_app.
      * eapply aimed_at_weaken; [|exact Haim1].
        intros q [<-|[]]. left. reflexivity.
      * eapply aimed_at_weaken; [|exact Haim2].
        intros q Hq. right. exact Hq.
Qed.

(** X18.  [kill_tree] lists the children once, at the start, and then
    runs [kill] on each of them in reverse listing order and on the root
    last: it returns one report per process in that order, issues
    requests to the root and the listed children only, and sleeps at most
    one [kill] budget per process. *)
Theorem kill_tree_kills_children_then_root fuel w p :
  (0 < verify_interval hk)%Q -> (0 <= soft_timeout hk)%Q ->
  (soft_timeout hk <= inject_Z (Z.of_nat fuel) * verify_interval hk)%Q ->
  let kids := children os w p in
  exists w' reports,
    kill_tree os hk (S fuel) w p = Some (w', reports)
    /\ map pid reports = rev kids ++ [p]
    /\ (clock w <= clock w'
        <= clock w + inject_Z (Z.of_nat (S (length kids))) * kill_budget)%Q
    /\ exists new, requests w' = requests w ++ new
                   /\ aimed_at (p :: kids) new.
Proof.
  intros Hpos Ht Hfuel kids. unfold kill_tree. fold kids.
  destruct (kill_many_spec fuel (rev kids) Hpos Ht Hfuel w)
    as (w1 & rs & Hm & Hpids & Hc1 & new1 & Hreq1 & Haim1).
  rewrite Hm.
  destruct (kill_step fuel w1 p true Hpos Ht Hfuel)
    as (w2 & r & Hk & Hpid & Hc2 & new2 & Hreq2 & Haim2).
  rewrite Hk. exists w2, (rs ++ [r]). split; [reflexivity|].
  split; [rewrite map_app; cbn [map]; congruence|]. split.
  - rewrite length_rev in Hc1. rewrite Nat2Z.inj_succ. unfold Z.succ.
    rewrite inject_Z_plus. change (inject_Z 1) with 1%Q.
    split; nra.
  - exists (new1 ++ new2). rewrite Hreq2, Hreq1, app_assoc.
    split; [reflexivity|]. apply aimed_at_app.
    + eapply aimed_at_weaken; [|exact Haim1].
      intros q Hq. right. apply in_rev. exact Hq.
    + eapply aimed_at_weaken; [|exact Haim2].
      intros q [<-|[]]. left. reflexivity.
Qed.

(** *** The registry *)

Lemma kill_agent_registered fuel w t agent_id p kill_children :
  (0 < verify_interval hk)%Q ->
  (soft_timeout hk <= inject_Z (Z.of_nat fuel) * verify_interval hk)%Q ->
  _agents t !! agent_id = Some p ->
  exists w' report,
    kill_agent os hk (S fuel) w t agent_id kill_children
    = Some (w',
            mkAgentTerminator (delete agent_id (_agents t))
                              (_kill_history t ++ [report]),
            Some report)
    /\ pid report = p.
Proof.
  intros Hpos Hfuel Hreg. unfold kill_agent. rewrite Hreg.
  destruct kill_children.
  - unfold kill_tree.
    destruct (kill_many_returns os hk fuel (rev (children os w p))
                Hpos Hfuel w) as [[w1 rs] Hm].
    rewrite Hm.
    destruct (kill_returns os hk fuel w1 p true Hpos Hfuel)
      as [[w2 r] Hk].
    rewrite Hk, last_snoc. exists w2, r.
    unfold unregister_agent. cbn [_agents _kill_history]. rewrite Hreg.
    split; [reflexivity|]. apply (kill_runs _ _ _ _ _ _ Hk).
  - destruct (kill_returns os hk fuel w p true Hpos Hfuel) as [[w1 r] Hk].
    rewrite Hk. exists w1, r.
    unfold unregister_agent. cbn [_agents _kill_history]. rewrite Hreg.
    split; [reflexivity|]. apply (kill_runs _ _ _ _ _ _ Hk).
Qed.

Lemma kill_all_spec fuel ids :
  (0 < verify_interval hk)%Q ->
  (soft_timeout hk <= inject_Z (Z.of_nat fuel) * verify_interval hk)%Q ->
  NoDup ids ->
  forall w t,
    (forall agent_id, agent_id ∈ ids -> is_Some (_agents t !! agent_id)) ->
    exists w' t' reports,
      kill_all os hk (S fuel) w t ids = Some (w', t', reports)
      /\ _kill_history t' = _kill_history t ++ reports
      /\ Forall2 (fun agent_id r => _agents t !! agent_id = Some (pid r))
                 ids reports
      /\ forall agent_id,
           _agents t' !! agent_id
           = if decide (agent_id ∈ ids) then None
             else _agents t !! agent_id.
Proof.
  intros Hpos Hfuel. induction 1 as [|a ids Ha Hnd IH]; intros w t Hreg.
  - exists w, t, []. split; [reflexivity|]. rewrite app_nil_r.
    split; [reflexivity|]. split; [constructor|].
    intros agent_id. destruct (decide (agent_id ∈ [])) as [Hin|];
      [|reflexivity]. inversion Hin.
  - cbn [kill_all].
    destruct (Hreg a (list_elem_of_here _ _)) as [p Hp].
    destruct (kill_agent_registered fuel w t a p true Hpos Hfuel Hp)
      as (w1 & r & Hk & Hpid).
    rewrite Hk.
    set (t1 := mkAgentTerminator (delete a (_agents t))
                                 (_kill_history t ++ [r])).
    destruct (IH w1 t1) as (w2 & t2 & rs & Hall & Hhist & Hpids & Hagents).
    { intros b Hb. cbn [t1 _agents]. rewrite lookup_delete_ne.
      - apply Hreg. apply list_elem_of_further. exact Hb.
      - intros ->. exact (Ha Hb). }
    rewrite Hall. exists w2, t2, (r :: rs). split; [reflexivity|].
    split; [rewrite Hhist; cbn [t1 _kill_history];
            rewrite <- app_assoc; reflexivity|].
    split.
    + constructor; [congruence|].
      eapply Forall2_impl; [exact Hpids|].
      intros b rb Hb. cbn [t1 _agents] in Hb.
      destruct (decide (a = b)) as [->|Hne];
        [rewrite lookup_delete_eq in Hb; discriminate|].
      rewrite lookup_delete_ne in Hb by exact Hne. exact Hb.
    + intros b. rewrite Hagents. cbn [t1 _agents].
      destruct (decide (b ∈ ids)) as [Hin|Hnin].
      * rewrite decide_True; [reflexivity|].
        apply list_elem_of_further. exact Hin.
      * destruct (decide (a = b)) as [->|Hne].
        -- rewrite lookup_delete_eq.
           rewrite decide_True; [reflexivity|apply list_elem_of_here].
        -- rewrite lookup_delete_ne by exact Hne.
           rewrite decide_False; [reflexivity|].
           intros Hin. apply elem_of_cons in Hin.
           destruct Hin as [->|Hin]; [congruence|contradiction].
Qed.

(** X19.  [kill_all], run over the keys of the registry, returns one
    report per registered agent, in key order and for that agent's pid,
    appends exactly these reports to the kill history and leaves the
    registry empty - whatever the outcome of each kill. *)
Theorem kill_all_empties_the_registry fuel w t agent_ids :
  (0 < verify_interval hk)%Q ->
  (soft_timeout hk <= inject_Z (Z.of_nat fuel) * verify_interval hk)%Q ->
  NoDup agent_ids ->
  (forall agent_id,
      agent_id ∈ agent_ids <-> is_Some (_agents t !! agent_id)) ->
  exists w' t' reports,
    kill_all os hk (S fuel) w t agent_ids = Some (w', t', reports)
    /\ _agents t' = ∅
    /\ _kill_history t' = _kill_history t ++ reports
    /\ Forall2 (fun agent_id r => _agents t !! agent_id = Some (pid r))
               agent_ids reports.
Proof.
  intros Hpos Hfuel Hnd Hkeys.
  destruct (kill_all_spec fuel agent_ids Hpos Hfuel Hnd w t)
    as (w' & t' & reports & Hall & Hhist & Hpids & Hagents).
  { intros a Ha. apply Hkeys. exact Ha. }
  exists w', t', reports. split; [exact Hall|].
  split; [|split; assumption].
  apply map_eq. intros a. rewrite Hagents, lookup_empty.
  destruct (decide (a ∈ agent_ids)) as [_|Hn]; [reflexivity|].
  destruct (_agents t !! a) eqn:E; [|reflexivity].
  exfalso. apply Hn, Hkeys. rewrite E. eauto.
Qed.

(** *** [kill_by_pid] *)

Lemma first_with_pid_some p items a :
  first_with_pid p items = Some a -> In (a, p) items.
Proof.
  induction items as [|[b q] items IH]; cbn; [discriminate|].
  destruct (Z.eqb_spec q p) as [->|Hne].
  - intros Heq. inversion Heq. left. reflexivity.
  - intros Hf. right. exact (IH Hf).
Qed.

Lemma first_with_pid_none p items a :
  first_with_pid p items = None -> ~ In (a, p) items.
Proof.
  induction items as [|[b q] items IH]; cbn; [tauto|].
  destruct (Z.eqb_spec q p) as [->|Hne]; [discriminate|].
  intros Hf [Heq|Hin]; [congruence|exact (IH Hf Hin)].
Qed.

(** X20.  [kill_by_pid] always logs its report, registered pid or not,
    and takes at most one agent out of the registry: the first one
    registered under the pid.  When two agents are registered under the
    same pid, one of them is still registered afterwards. *)
Theorem kill_by_pid_unregisters_one_agent
    fuel w t items p kill_children :
  (0 < verify_interval hk)%Q ->
  (soft_timeout hk <= inject_Z (Z.of_nat fuel) * verify_interval hk)%Q ->
  (forall a q, In (a, q) items <-> _agents t !! a = Some q) ->
  exists w' t' report,
    kill_by_pid os hk (S fuel) w t items p kill_children
    = Some (w', t', report)
    /\ pid report = p
    /\ _kill_history t' = _kill_history t ++ [report]
    /\ ((forall a, _agents t !! a <> Some p) -> _agents t' = _agents t)
    /\ (forall a, _agents t !! a = Some p ->
        exists gone,
          _agents t !! gone = Some p
          /\ _agents t' = delete gone (_agents t))
    /\ (forall a b, a <> b ->
                    _agents t !! a = Some p -> _agents t !! b = Some p ->
                    _agents t' !! a = Some p \/ _agents t' !! b = Some p).
Proof.
  intros Hpos Hfuel Hitems. unfold kill_by_pid.
  assert (Hrun : exists w1 report,
             (if kill_children
              then match kill_tree os hk (S fuel) w p with
                   | Some (w1, reports) =>
                       Some (w1,
                             default (mkKillReport p FAILED false false None
                                        (Some "No reports generated")
                                        (clock w1))
                                     (last reports))
                   | None => None
                   end
              else kill os hk (S fuel) w p true) = Some (w1, report)
             /\ pid report = p).
  { destruct kill_children.
    - unfold kill_tree.
      destruct (kill_many_returns os hk fuel (rev (children os w p))
                  Hpos Hfuel w) as [[w1 rs] Hm].
      rewrite Hm.
      destruct (kill_returns os hk fuel w1 p true Hpos Hfuel)
        as [[w2 r] Hk].
      rewrite Hk, last_snoc. exists w2, r. split; [reflexivity|].
      apply (kill_runs _ _ _ _ _ _ Hk).
    - destruct (kill_returns os hk fuel w p true Hpos Hfuel)
        as [[w1 r] Hk].
      exists w1, r. split; [exact Hk|]. apply (kill_runs _ _ _ _ _ _ Hk). }
  destruct Hrun as (w1 & report & -> & Hpid).
  destruct (first_with_pid p items) as [gone|] eqn:Hfirst.
  - pose proof (proj1 (Hitems _ _) (first_with_pid_some _ _ _ Hfirst))
      as Hgone.
    eexists _, _, _. split; [reflexivity|].
    unfold unregister_agent. cbn [_agents _kill_history]. rewrite Hgone.
    cbn [_agents _kill_history].
    split; [exact Hpid|]. split; [reflexivity|]. split; [|split].
    + intros Hnone. exfalso. exact (Hnone _ Hgone).
    + intros a _. exists gone. split; [exact Hgone|reflexivity].
    + intros a b Hne Ha Hb.
      destruct (decide (gone = a)) as [->|Hga].
      * right. rewrite lookup_delete_ne by exact Hne. exact Hb.
      * left. rewrite lookup_delete_ne by exact Hga. exact Ha.
  - eexists _, _, _. split; [reflexivity|]. cbn [_agents _kill_history].
    split; [exact Hpid|]. split; [reflexivity|]. split; [|split].
    + intros _. reflexivity.
    + intros a Ha. exfalso.
      apply (first_with_pid_none _ _ a Hfirst), Hitems. exact Ha.
    + intros a b _ Ha _. left. exact Ha.
Qed.

End WithOS.

(** *** Concrete runs *)

(** A host where a process has two children and every process ignores
    SIGTERM and dies of SIGKILL. *)
Definition needs_sigkill : OS :=
  {| alive := fun w p =>
       negb (existsb (fun rq => (snd (fst rq) =? p)%Z
                                && Signal_eqb (snd rq) SIGKILL)
                     (requests w));
     soft_ok := fun _ _ => true;
     hard_ok := fun _ _ => true;
     children := fun _ p => if (p =? 100)%Z then [101; 102] else [] |}.

(** Two agents registered under the same pid, and the registry in
    insertion order. *)
Definition twin_agents : AgentTerminator :=
  register_agent (register_agent (mkAgentTerminator ∅ []) "worker-a" 100)
                 "worker-b" 100.

Definition twin_items : list (string * Z) :=
  [("worker-a", 100); ("worker-b", 100)].

Lemma twin_items_list_registry a q :
  In (a, q) twin_items <-> _agents twin_agents !! a = Some q.
Proof.
  unfold twin_items, twin_agents, register_agent. cbn [_agents In].
  destruct (decide (a = "worker-b")) as [->|Hb].
  - rewrite lookup_insert_eq. split.
    + intros [H|[H|[]]]; inversion H; reflexivity.
    + intros H. inversion H. right. left. reflexivity.
  - rewrite lookup_insert_ne by congruence.
    destruct (decide (a = "worker-a")) as [->|Ha].
    + rewrite lookup_insert_eq. split.
      * intros [H|[H|[]]]; inversion H; reflexivity.
      * intros H. inversion H. left. reflexivity.
    + rewrite lookup_insert_ne by congruence. rewrite lookup_empty. split.
      * intros [H|[H|[]]]; inversion H; congruence.
      * discriminate.
Qed.


Lemma kill_without_escalation_never_forces_witness :
  exists w' r,
    kill needs_sigkill HardKill_default 21 world0 100 false = Some (w', r)
    /\ hard_signal_sent r = false.
Proof.
  destruct (kill_without_escalation_never_forces
              needs_sigkill HardKill_default 20 world0 100)
    as (w' & r & Hk & _ & Hhs & _).
  - reflexivity.
  - vm_compute. discriminate.
  - vm_compute. discriminate.
  - exists w', r. split; [exact Hk|exact Hhs].
Defined.

Lemma kill_report_matches_last_observation_witness :
  exists w' r,
    kill needs_sigkill HardKill_default 21 world0 100 true = Some (w', r)
    /\ result r <> SUCCESS.
Proof.
  destruct (kill_report_matches_last_observation
              needs_sigkill HardKill_default 20 world0 100 true)
    as (w' & r & Hk & _ & _ & _ & _ & _ & Hres).
  - reflexivity.
  - vm_compute. discriminate.
  - exists w', r. split; [exact Hk|exact Hres].
Defined.

Lemma kill_tree_kills_children_then_root_witness :
  exists w' reports,
    kill_tree needs_sigkill HardKill_default 21 world0 100
    = Some (w', reports)
    /\ map pid reports = [102; 101; 100].
Proof.
  destruct (kill_tree_kills_children_then_root
              needs_sigkill HardKill_default 20 world0 100)
    as (w' & reports & Hk & Hpids & _).
  - reflexivity.
  - vm_compute. discriminate.
  - vm_compute. discriminate.
  - exists w', reports. split; [exact Hk|exact Hpids].
Defined.

Lemma kill_all_empties_the_registry_witness :
  exists w' t' reports,
    kill_all needs_sigkill HardKill_default 21 world0 one_agent
             ["agent-123"]
    = Some (w', t', reports)
    /\ _agents t' = ∅.
Proof.
  destruct (kill_all_empties_the_registry
              needs_sigkill HardKill_default 20 world0 one_agent
              ["agent-123"])
    as (w' & t' & reports & Hk & Hempty & _).
  - reflexivity.
  - vm_compute. discriminate.
  - apply NoDup_singleton.
  - intros a. rewrite list_elem_of_singleton.
    unfold one_agent, register_agent. cbn [_agents].
    destruct (decide (a = "agent-123")) as [->|Hne].
    + rewrite lookup_insert_eq. split; [eauto|reflexivity].
    + rewrite lookup_insert_ne by congruence. rewrite lookup_empty.
      split; [contradiction|]. intros [x Hx]. discriminate.
  - exists w', t', reports. split; [exact Hk|exact Hempty].
Defined.

Lemma kill_by_pid_unregisters_one_agent_witness :
  exists w' t' report,
    kill_by_pid needs_sigkill HardKill_default 21 world0 twin_agents
                twin_items 100 true
    = Some (w', t', report)
    /\ (_agents t' !! "worker-a" = Some 100
        \/ _agents t' !! "worker-b" = Some 100).
Proof.
  destruct (kill_by_pid_unregisters_one_agent
              needs_sigkill HardKill_default 20 world0 twin_agents
              twin_items 100 true)
    as (w' & t' & report & Hk & _ & _ & _ & _ & Htwin).
  - reflexivity.
  - vm_compute. discriminate.
  - exact twin_items_list_registry.
  - exists w', t', report. split; [exact Hk|].
    apply Htwin; [discriminate|reflexivity|reflexivity].
Defined.

(** The run itself: the root ignores SIGTERM for the whole soft timeout,
    dies of SIGKILL, and ["worker-b"] stays registered under its pid. *)
Example kill_by_pid_leaves_twin_registered :
  match kill_by_pid needs_sigkill HardKill_default 21 world0 twin_agents
                    twin_items 100 false with
  | Some (w', t', report) =>
      result report = HARD_KILL_SUCCESS
      /\ _agents t' !! "worker-a" = None
      /\ _agents t' !! "worker-b" = Some 100
  | None => False
  end.
Proof. vm_compute. repeat split; reflexivity. Qed.

End HardKillOpsTheory.

Module WindowMonitorTheory.
Import SlidingWindow WindowMonitor SlidingWindowTheory.

(** *** The breach log *)

Lemma check_one_log ct now th d found :
  let r := check_one ct now th (d, found) in
  exists new,
    snd r = found ++ new
    /\ breaches (fst r) = breaches d ++ new
    /\ _breach_count (fst r) = _breach_count d + Z.of_nat (length new)
    /\ thresholds (fst r) = thresholds d
    /\ detector_agent_id (fst r) = detector_agent_id d.
Proof.
  cbv zeta. unfold check_one.
  destruct (tracker_get_total _ _ _ _) as [tracker current].
  destruct (Qltb (limit th) current); cbn.
  - eexists [_]. repeat split; reflexivity.
  - exists []. rewrite !app_nil_r. repeat split. cbn [length]. lia.
Qed.

Lemma check_fold_log ct now ths :
  forall d found,
    let r := fold_left (fun acc th => check_one ct now th acc) ths
                       (d, found) in
    exists new,
      snd r = found ++ new
      /\ breaches (fst r) = breaches d ++ new
      /\ _breach_count (fst r) = _breach_count d + Z.of_nat (length new)
      /\ thresholds (fst r) = thresholds d
      /\ detector_agent_id (fst r) = detector_agent_id d.
Proof.
  induction ths as [|th ths IH]; intros d found; cbn [fold_left].
  - exists []. rewrite !app_nil_r. cbn. repeat split. lia.
  - destruct (check_one_log ct now th d found)
      as (new1 & Hs1 & Hb1 & Hc1 & Ht1 & Ha1).
    destruct (check_one ct now th (d, found)) as [d1 found1].
    cbn [fst snd] in *.
    destruct (IH d1 found1) as (new2 & Hs2 & Hb2 & Hc2 & Ht2 & Ha2).
    exists (new1 ++ new2).
    rewrite Hs2, Hb2, Hc2, Ht2, Ha2, Hs1, Hb1, Hc1, length_app.
    rewrite <- !app_assoc. repeat split; try assumption. lia.
Qed.

Lemma check_fold_same_reading ct now d0 ths :
  forall d found,
    same_reading (or_now (Some ct) now) d0 d ->
    same_reading (or_now (Some ct) now) d0
      (fst (fold_left (fun acc th => check_one ct now th acc) ths
                      (d, found))).
Proof.
  induction ths as [|th ths IH]; intros d found Hsame; cbn [fold_left];
    [exact Hsame|].
  pose proof (check_one_spec ct now th d0 d found Hsame) as [Hs _].
  destruct (check_one ct now th (d, found)) as [d1 found1].
  apply IH. exact Hs.
Qed.

Lemma check_thresholds_log d ts now :
  let r := check_thresholds d ts now in
  breaches (fst r) = breaches d ++ snd r
  /\ _breach_count (fst r) = _breach_count d + Z.of_nat (length (snd r))
  /\ thresholds (fst r) = thresholds d
  /\ detector_agent_id (fst r) = detector_agent_id d.
Proof.
  cbv zeta. unfold check_thresholds.
  destruct (check_fold_log (or_now ts now) now (thresholds d) d [])
    as (new & Hs & Hb & Hc & Ht & Ha).
  cbn [app] in Hs. rewrite Hs, Hb, Hc. auto.
Qed.

Lemma check_thresholds_same_reading d ts now :
  same_reading (or_now ts now) d (fst (check_thresholds d ts now)).
Proof.
  unfold check_thresholds.
  pose proof (check_fold_same_reading (or_now ts now) now d (thresholds d)
                d [] ) as Hs.
  rewrite or_now_idem in Hs. apply Hs. apply same_reading_refl.
Qed.

Lemma same_reading_verdict T now d d' th :
  or_now (Some T) now = T ->
  same_reading T d d' ->
  exceeded d' T now th = exceeded d T now th
  /\ breach_for d' T now th = breach_for d T now th.
Proof.
  intros HT [Hid Hsame]. unfold exceeded, breach_for, total_read.
  rewrite HT, Hsame, Hid. split; reflexivity.
Qed.

(** X21.  [check_thresholds] appends the breaches it returns to the
    detector's log and adds their number to [_breach_count]; thresholds
    and agent stay as they are.  It is not a query: a second check at the
    same time returns the same breaches and logs them a second time. *)
Theorem check_thresholds_logs_each_call d ts now :
  let r := check_thresholds d ts now in
  let r2 := check_thresholds (fst r) ts now in
  breaches (fst r) = breaches d ++ snd r
  /\ _breach_count (fst r) = _breach_count d + Z.of_nat (length (snd r))
  /\ thresholds (fst r) = thresholds d
  /\ detector_agent_id (fst r) = detector_agent_id d
  /\ (length (snd r) <= length (thresholds d))%nat
  /\ snd r2 = snd r
  /\ breaches (fst r2) = breaches d ++ snd r ++ snd r.
Proof.
  cbv zeta.
  destruct (check_thresholds_log d ts now) as (Hb & Hc & Ht & Ha).
  assert (Hsame : snd (check_thresholds (fst (check_thresholds d ts now))
                                        ts now)
                  = snd (check_thresholds d ts now)).
  { rewrite !check_thresholds_spec, Ht.
    pose proof (check_thresholds_same_reading d ts now) as Hs.
    set (T := or_now ts now) in *.
    assert (HT : or_now (Some T) now = T) by apply or_now_idem.
    rewrite (List.filter_ext _ (exceeded d T now)).
    - apply map_ext. intros th.
      apply (same_reading_verdict T now d _ th HT Hs).
    - intros th. apply (same_reading_verdict T now d _ th HT Hs). }
  repeat split; try assumption.
  - rewrite check_thresholds_spec, length_map. apply List.filter_length_le.
  - destruct (check_thresholds_log (fst (check_thresholds d ts now)) ts now)
      as (Hb2 & _).
    rewrite Hb2, Hb, Hsame, <- app_assoc. reflexivity.
Qed.

(** *** [should_kill] *)

Lemma should_kill_state d now :
  fst (should_kill d now) = fst (check_thresholds d None now).
Proof.
  unfold should_kill. destruct (check_thresholds d None now). reflexivity.
Qed.

Lemma should_kill_verdict d now :
  snd (should_kill d now)
  = existsb (fun b => String.eqb (breach_action b) "kill")
            (snd (check_thresholds d None now)).
Proof.
  unfold should_kill. destruct (check_thresholds d None now). reflexivity.
Qed.

(** X22.  [should_kill] answers [True] exactly when some configured
    threshold whose action is the string "kill" is exceeded at the time
    of the call; every other action, "alert" included, never makes it
    [True].  The call runs a full check, so whatever is exceeded is
    logged as a breach again. *)
Theorem should_kill_iff_kill_threshold_exceeded d now :
  (snd (should_kill d now) = true
   <-> exists th, In th (thresholds d) /\ action th = "kill"
                  /\ exceeded d now now th = true)
  /\ breaches (fst (should_kill d now))
     = breaches d
       ++ map (breach_for d now now)
              (List.filter (exceeded d now now) (thresholds d)).
Proof.
  assert (Hnow : or_now None now = now) by reflexivity.
  split.
  - rewrite should_kill_verdict, check_thresholds_spec, Hnow.
    rewrite existsb_exists. split.
    + intros (b & Hin & Hkill). apply in_map_iff in Hin.
      destruct Hin as (th & <- & Hin). apply List.filter_In in Hin.
      exists th. cbn in Hkill. apply String.eqb_eq in Hkill. tauto.
    + intros (th & Hin & Hkill & Hex). exists (breach_for d now now th).
      split.
      * apply in_map. apply List.filter_In. tauto.
      * cbn. rewrite Hkill. reflexivity.
  - rewrite should_kill_state.
    destruct (check_thresholds_log d None now) as (Hb & _).
    rewrite Hb, check_thresholds_spec, Hnow. reflexivity.
Qed.

(** *** The counter *)

Lemma step_keeps_count d op :
  _breach_count d = Z.of_nat (length (breaches d)) ->
  _breach_count (step d op) = Z.of_nat (length (breaches (step d op)))
  /\ thresholds (step d op) = thresholds d
  /\ detector_agent_id (step d op) = detector_agent_id d
  /\ exists new, breaches (step d op) = breaches d ++ new.
Proof.
  intros Hc. destruct op as [m v ts now|ts now|now]; cbn [step].
  - cbn. split; [exact Hc|]. split; [reflexivity|]. split; [reflexivity|].
    exists []. rewrite app_nil_r. reflexivity.
  - destruct (check_thresholds_log d ts now) as (Hb & Hn & Ht & Ha).
    rewrite Hb, Hn, Hc, length_app. split; [lia|]. eauto.
  - rewrite should_kill_state.
    destruct (check_thresholds_log d None now) as (Hb & Hn & Ht & Ha).
    rewrite Hb, Hn, Hc, length_app. split; [lia|]. eauto.
Qed.

(** X23.  However a detector is used after it is built - records,
    checks and [should_kill] calls in any order - [_breach_count] is the
    length of its breach log, the log only grows, every logged breach
    names the detector's agent, and the thresholds stay the ones it was
    built with. *)
Theorem breach_count_is_log_length agent ths ops :
  let d := run (SlidingWindowDetector_init agent ths) ops in
  _breach_count d = Z.of_nat (length (breaches d))
  /\ thresholds d = thresholds (SlidingWindowDetector_init agent ths)
  /\ detector_agent_id d = agent
  /\ Forall (fun b => agent_id b = agent) (breaches d).
Proof.
  cbv zeta. unfold run.
  assert (Hgen : forall d,
             _breach_count d = Z.of_nat (length (breaches d)) ->
             Forall (fun b => agent_id b = detector_agent_id d)
                    (breaches d) ->
             let d' := fold_left step ops d in
             _breach_count d' = Z.of_nat (length (breaches d'))
             /\ thresholds d' = thresholds d
             /\ detector_agent_id d' = detector_agent_id d
             /\ Forall (fun b => agent_id b = detector_agent_id d)
                       (breaches d')).
  { induction ops as [|op ops IH]; intros d Hc Hall; cbn [fold_left].
    - cbv zeta. auto.
    - destruct (step_keeps_count d op Hc) as (Hc1 & Ht1 & Ha1 & new & Hb1).
      destruct (IH (step d op) Hc1) as (Hc2 & Ht2 & Ha2 & Hall2).
      + rewrite Ha1, Hb1. apply Forall_app. split; [exact Hall|].
        destruct op as [m v ts now|ts now|now]; cbn [step] in Hb1.
        * cbn in Hb1. apply (f_equal (@length _)) in Hb1.
          rewrite length_app in Hb1. destruct new; [constructor|].
          cbn in Hb1. lia.
        * destruct (check_thresholds_log d ts now) as (Hb & _).
          rewrite Hb in Hb1. apply app_inv_head in Hb1. subst new.
          rewrite check_thresholds_spec. apply Forall_forall.
          intros b Hin. apply list_elem_of_In, in_map_iff in Hin.
          destruct Hin as (th & <- & _). reflexivity.
        * rewrite should_kill_state in Hb1.
          destruct (check_thresholds_log d None now) as (Hb & _).
          rewrite Hb in Hb1. apply app_inv_head in Hb1. subst new.
          rewrite check_thresholds_spec. apply Forall_forall.
          intros b Hin. apply list_elem_of_In, in_map_iff in Hin.
          destruct Hin as (th & <- & _). reflexivity.
      + cbv zeta. rewrite Ht2, Ha2, Ht1, Ha1 in *. auto. }
  apply Hgen; [reflexivity|constructor].
Qed.

(** *** The fleet monitor *)

Lemma kill_calls_in a found a' b :
  In (a', b) (kill_calls a found)
  <-> a' = a /\ In b found /\ breach_action b = "kill".
Proof.
  unfold kill_calls. rewrite in_map_iff. split.
  - intros (b0 & Heq & Hin). inversion Heq; subst.
    apply List.filter_In in Hin. destruct Hin as [Hin Hk].
    apply String.eqb_eq in Hk. auto.
  - intros (-> & Hin & Hk). exists b. split; [reflexivity|].
    apply List.filter_In. split; [exact Hin|].
    apply String.eqb_eq. exact Hk.
Qed.

(** X24.  [check_all] checks every registered detector once and returns
    one entry per agent, in registration order.  [on_kill] is called for
    an agent exactly with the breaches of that agent's own detector whose
    threshold carries the action "kill": a threshold of another agent, or
    one that only alerts, never triggers it. *)
Theorem check_all_reports_kill_breaches_to_on_kill ds now_for :
  let r := check_all ds now_for in
  map fst (fst (fst r)) = map fst ds
  /\ map fst (snd (fst r)) = map fst ds
  /\ forall a b,
       In (a, b) (snd r)
       <-> exists d th,
             In (a, d) ds /\ In th (thresholds d) /\ action th = "kill"
             /\ exceeded d (now_for a) (now_for a) th = true
             /\ b = breach_for d (now_for a) (now_for a) th.
Proof.
  cbv zeta. induction ds as [|[a0 d0] ds IH]; cbn [check_all].
  - cbn. split; [reflexivity|]. split; [reflexivity|].
    intros a b. split; [intros []|]. intros (d & th & [] & _).
  - pose proof (check_thresholds_spec d0 None (now_for a0)) as Hspec.
    destruct (check_thresholds d0 None (now_for a0)) as [d1 found].
    destruct (check_all ds now_for) as [[ds1 results] calls].
    cbn [fst snd map] in *. destruct IH as (Hk1 & Hk2 & Hcalls).
    split; [congruence|]. split; [congruence|].
    cbn [or_now] in Hspec.
    intros a b. rewrite in_app_iff, kill_calls_in, Hcalls. split.
    + intros [(-> & Hin & Hkill)|(d & th & Hin & Hrest)].
      * rewrite Hspec in Hin. apply in_map_iff in Hin.
        destruct Hin as (th & <- & Hin). apply List.filter_In in Hin.
        exists d0, th. cbn in Hkill. split; [left; reflexivity|]. tauto.
      * exists d, th. split; [right; exact Hin|exact Hrest].
    + intros (d & th & [Heq|Hin] & Hth & Hkill & Hex & ->).
      * inversion Heq; subst d a. left. split; [reflexivity|]. split.
        -- rewrite Hspec. apply in_map. apply List.filter_In. tauto.
        -- exact Hkill.
      * right. exists d, th. tauto.
Qed.

Lemma detector_of_set b a d ds :
  detector_of b (set_detector a d ds)
  = if String.eqb a b then Some d else detector_of b ds.
Proof.
  induction ds as [|[a0 d0] ds IH]; cbn [set_detector detector_of].
  - reflexivity.
  - destruct (String.eqb a0 a) eqn:E0; cbn [detector_of].
    + apply String.eqb_eq in E0. subst a0.
      destruct (String.eqb a b); reflexivity.
    + destruct (String.eqb a0 b) eqn:E1; [|exact IH].
      apply String.eqb_eq in E1. subst a0. apply String.eqb_neq in E0.
      destruct (String.eqb a b) eqn:E2; [|reflexivity].
      apply String.eqb_eq in E2. congruence.
Qed.

Lemma filter_drops_all {A} (f : A -> bool) l :
  List.Forall (fun x => f x = false) l -> List.filter f l = [].
Proof.
  induction 1 as [|x l Hx _ IH]; cbn [List.filter]; [reflexivity|].
  rewrite Hx. exact IH.
Qed.

Lemma init_limits agent ths :
  Forall (fun th => (0 <= limit th)%Q) ths ->
  List.Forall (fun th => (0 <= limit th)%Q)
              (thresholds (SlidingWindowDetector_init agent ths)).
Proof.
  intros Hlim. destruct ths as [|th ths]; cbn [SlidingWindowDetector_init
                                                thresholds].
  - unfold DEFAULT_THRESHOLDS. repeat constructor; cbn; discriminate.
  - apply List.Forall_forall. intros x Hx.
    rewrite Forall_forall in Hlim. apply Hlim, list_elem_of_In. exact Hx.
Qed.

Lemma fresh_detector_reads_zero agent ths ct now th :
  total_read (SlidingWindowDetector_init agent ths) ct now th = 0%Q.
Proof. reflexivity. Qed.

(** X25.  The monitor keeps agents apart and starts each registration
    from nothing: a record for an agent that is not registered is
    dropped; a record for one agent leaves every other agent's detector
    as it was; and registering an agent - again, too - gives it a fresh
    detector, whose first check reports no breach as long as no limit is
    negative. *)
Theorem monitor_registration_starts_from_nothing ds a :
  (forall m v now,
      detector_of a ds = None -> monitor_record ds a m v now = ds)
  /\ (forall b m v now,
         b <> a ->
         detector_of b (monitor_record ds a m v now) = detector_of b ds)
  /\ (forall ths now,
         let ds1 := register ds a ths in
         detector_of a ds1 = Some (SlidingWindowDetector_init a ths)
         /\ (Forall (fun th => (0 <= limit th)%Q) ths ->
             snd (check_thresholds (SlidingWindowDetector_init a ths)
                                   None now) = [])).
Proof.
  split; [|split].
  - intros m v now Hnone. unfold monitor_record. rewrite Hnone. reflexivity.
  - intros b m v now Hne. unfold monitor_record.
    destruct (detector_of a ds) as [d|]; [|reflexivity].
    rewrite detector_of_set.
    destruct (String.eqb a b) eqn:E; [|reflexivity].
    apply String.eqb_eq in E. congruence.
  - intros ths now. cbv zeta. split.
    + unfold register. rewrite detector_of_set, String.eqb_refl.
      reflexivity.
    + intros Hlim. rewrite check_thresholds_spec.
      rewrite filter_drops_all; [reflexivity|].
      eapply List.Forall_impl; [|apply (init_limits a ths Hlim)].
      intros th Hth. unfold exceeded.
      rewrite fresh_detector_reads_zero. apply Qltb_ge. exact Hth.
Qed.

(** *** Concrete runs *)

(** A monitor in which ["agent-1"] has sent twelve transfers. *)
Definition busy_fleet : Detectors := [("agent-1", twelve_transfers)].

Lemma monitor_registration_starts_from_nothing_witness :
  detector_of "agent-2"
    (monitor_record busy_fleet "agent-1" BYTES_OUT 5%Q 4000%Q)
  = detector_of "agent-2" busy_fleet
  /\ snd (check_thresholds (SlidingWindowDetector_init "agent-1" [])
                           None 4000%Q) = [].
Proof.
  destruct (monitor_registration_starts_from_nothing busy_fleet "agent-1")
    as (_ & Hother & Hfresh).
  split.
  - apply Hother. discriminate.
  - apply (proj2 (Hfresh [] 4000%Q)). constructor.
Defined.

End WindowMonitorTheory.

Module NetworkManagerTheory.
Import NetworkKill NetworkManager NetworkKillTheory.

(** *** The manager's own record *)

Lemma blocked_set_has agent r (b : Blocked) :
  existsb (fun e => String.eqb (fst e) agent) (blocked_set agent r b) = true.
Proof.
  induction b as [|[a r'] b IH]; cbn [blocked_set existsb fst].
  - rewrite String.eqb_refl. reflexivity.
  - destruct (String.eqb a agent) eqn:E; cbn [existsb fst].
    + rewrite String.eqb_refl. reflexivity.
    + rewrite E. exact IH.
Qed.

Lemma blocked_del_lacks agent (b : Blocked) :
  existsb (fun e => String.eqb (fst e) agent) (blocked_del agent b) = false.
Proof.
  unfold blocked_del.
  induction b as [|[a r'] b IH]; cbn [List.filter existsb fst];
    [reflexivity|].
  destruct (String.eqb a agent) eqn:E; cbn [negb existsb fst];
    [exact IH|]. rewrite E. exact IH.
Qed.

Section WithFirewall.
Context {H : Type} `{FirewallInterface H}.

(** X26.  [is_blocked] of the manager answers from the manager's own
    record, not from the firewall: after [kill_network] it is [True]
    whatever the firewall reported - the report is [success] when the
    firewall's is and [failed] otherwise, never [partial] - and after
    [restore_network] it is [False] whatever was removed. *)
Theorem manager_is_blocked_follows_calls_not_firewall
    (m : NetworkKillManager H) agent pid uid now later t :
  let r := kill_network m agent pid uid now later in
  let os := block_all_traffic (firewall m) (identifier_of agent pid uid)
                              now in
  manager_is_blocked (fst r) agent = true
  /\ firewall (fst r) = fst os
  /\ (NetworkKill.result (snd r) = SUCCESS
      <-> NetworkKill.result (snd os) = SUCCESS)
  /\ (NetworkKill.result (snd r) <> SUCCESS
      -> NetworkKill.result (snd r) = FAILED)
  /\ NetworkKill.agent_id (snd r) = agent
  /\ manager_is_blocked (fst (restore_network (fst r) agent t)) agent
     = false
  /\ manager_is_blocked (fst (restore_network m agent t)) agent = false.
Proof.
  cbv zeta. unfold kill_network, restore_network, manager_is_blocked.
  destruct (block_all_traffic (firewall m) (identifier_of agent pid uid)
                              now) as [fw os_report].
  cbn [fst snd firewall _blocked_agents NetworkKill.result
       NetworkKill.agent_id].
  split; [apply blocked_set_has|]. split; [reflexivity|].
  split; [destruct (NetworkKill.result os_report); split; congruence|].
  split; [destruct (NetworkKill.result os_report); congruence|].
  split; [reflexivity|].
  split.
  - destruct (restore_access fw agent t) as [fw' report].
    cbn [fst _blocked_agents]. apply blocked_del_lacks.
  - destruct (restore_access (firewall m) agent t) as [fw' report].
    cbn [fst _blocked_agents]. apply blocked_del_lacks.
Qed.

Lemma restore_each_spec agents now_for :
  forall (m : NetworkKillManager H),
    let r := restore_each m agents now_for in
    length (snd r) = length agents
    /\ _blocked_agents (fst r)
       = fold_left (fun b a => blocked_del a b) agents (_blocked_agents m)
    /\ manager_platform (fst r) = manager_platform m.
Proof.
  induction agents as [|a agents IH]; intros m; cbn [restore_each].
  - cbn. auto.
  - unfold restore_network.
    destruct (restore_access (firewall m) a (now_for a)) as [fw report].
    specialize (IH (mkNetworkKillManager (manager_platform m) fw
                      (blocked_del a (_blocked_agents m)))).
    cbv zeta in IH.
    destruct (restore_each _ agents now_for) as [m2 reports].
    cbn [fst snd length fold_left _blocked_agents manager_platform] in *.
    destruct IH as (Hl & Hb & Hp). auto.
Qed.

End WithFirewall.

Lemma blocked_del_in agent (b : Blocked) e :
  In e (blocked_del agent b) <-> In e b /\ fst e <> agent.
Proof.
  unfold blocked_del. rewrite List.filter_In, negb_true_iff.
  split; intros [Hin Hne]; (split; [exact Hin|]).
  - apply String.eqb_neq. exact Hne.
  - apply String.eqb_neq. exact Hne.
Qed.

Lemma blocked_del_each_in agents :
  forall (b : Blocked) e,
    In e (fold_left (fun b a => blocked_del a b) agents b)
    <-> In e b /\ ~ In (fst e) agents.
Proof.
  induction agents as [|a agents IH]; intros b e; cbn [fold_left In].
  - tauto.
  - rewrite IH, blocked_del_in. intuition congruence.
Qed.

Lemma blocked_del_all (b : Blocked) :
  fold_left (fun b a => blocked_del a b) (map fst b) b = [].
Proof.
  destruct (fold_left _ _ _) as [|e l] eqn:E; [reflexivity|].
  assert (Hin : In e (fold_left (fun b a => blocked_del a b)
                                (map fst b) b)).
  { rewrite E. left. reflexivity. }
  apply blocked_del_each_in in Hin. destruct Hin as [Hin Hn].
  exfalso. apply Hn. apply in_map. exact Hin.
Qed.

Section ManagerRuns.
Context {H : Type} `{FirewallInterface H}.

(** X28.  [restore_all_network] calls [restore_network] once for every
    agent the manager holds as blocked, in the order they were blocked,
    and leaves none of them on record - whatever the firewall answers. *)
Theorem restore_all_network_clears_the_record
    (m : NetworkKillManager H) now_for :
  let r := restore_all_network m now_for in
  length (snd r) = length (get_blocked_agents m)
  /\ get_blocked_agents (fst r) = []
  /\ (forall agent, manager_is_blocked (fst r) agent = false)
  /\ manager_platform (fst r) = manager_platform m.
Proof.
  cbv zeta. unfold restore_all_network, get_blocked_agents.
  destruct (restore_each_spec (map fst (_blocked_agents m)) now_for m)
    as (Hl & Hb & Hp).
  rewrite blocked_del_all in Hb.
  split; [exact Hl|]. unfold manager_is_blocked. rewrite Hb.
  repeat split; assumption.
Qed.

End ManagerRuns.


(** *** On Linux *)

Lemma nums_none tag rules :
  List.Forall (fun t => contains tag t = false) rules ->
  forall k, rule_nums_to_remove tag (numbered k rules) = [].
Proof.
  induction 1 as [|t rules Ht _ IH]; intros k; cbn; [reflexivity|].
  rewrite Ht. apply IH.
Qed.

Lemma filter_untagged tag rules :
  List.Forall (fun t => contains tag t = false) rules ->
  List.filter (fun t => negb (contains tag t)) rules = rules.
Proof.
  intros Hall. apply filter_keeps_all.
  eapply List.Forall_impl; [|exact Hall].
  intros t Ht. cbn. rewrite Ht. reflexivity.
Qed.

(** With no rule showing the tag, [restore_access] deletes nothing and
    says so. *)
Lemma linux_restore_nothing h identifier now :
  root h = true ->
  List.Forall (fun t => contains (killswitch_tag identifier) t = false)
              (chain h) ->
  fst (linux_restore_access h identifier now) = h
  /\ NetworkKill.result (snd (linux_restore_access h identifier now))
     = NOT_BLOCKED.
Proof.
  intros Hroot Hnone. unfold linux_restore_access, iptables_list_numbered.
  rewrite Hroot, nums_skip_header, (nums_none _ _ Hnone). cbn.
  split; reflexivity.
Qed.

Lemma linux_is_blocked_untagged h identifier :
  List.Forall (fun t => contains (killswitch_tag identifier) t = false)
              (chain h) ->
  linux_is_blocked h identifier = false.
Proof.
  intros Hnone. unfold linux_is_blocked, iptables_list.
  destruct (root h); [|reflexivity]. cbn [andb].
  rewrite existsb_app, header_has_no_tag. cbn [orb].
  induction Hnone as [|t rules Ht _ IH]; cbn [existsb]; [reflexivity|].
  rewrite Ht. exact IH.
Qed.

(** X27.  [kill_network] blocks under the pid when one is given, but
    [restore_network] always looks for the agent id.  So on Linux, as
    root: after a kill by pid, restoring the agent finds nothing
    ([not_blocked]), leaves the pid's DROP rule in the chain and still
    strikes the agent off the manager's record; after a kill without pid
    and uid, restoring the agent brings the chain back to what it was.
    (The chain held no rule showing the agent's tag before, and the
    agent's tag does not occur in the pid's rule.) *)
Theorem restore_network_misses_rules_blocked_by_pid
    (h : Iptables) agent pid uid now later t :
  root h = true ->
  List.Forall (fun rule => contains (killswitch_tag agent) rule = false)
              (chain h) ->
  let pid_rule :=
    rule_text anywhere anywhere (killswitch_tag (pretty pid)) in
  (pid <> 0%Z ->
   contains (killswitch_tag agent) pid_rule = false ->
   let m1 := fst (kill_network (manager_on_linux h) agent (Some pid) uid
                               now later) in
   let r2 := restore_network m1 agent t in
   NetworkKill.result (snd r2) = NOT_BLOCKED
   /\ chain (firewall (fst r2)) = chain h ++ [pid_rule]
   /\ is_blocked (firewall (fst r2)) (pretty pid) = true
   /\ manager_is_blocked (fst r2) agent = false)
  /\ (let m1 := fst (kill_network (manager_on_linux h) agent None None
                                  now later) in
      let r2 := restore_network m1 agent t in
      is_blocked (firewall m1) agent = true
      /\ chain (firewall (fst r2)) = chain h
      /\ is_blocked (firewall (fst r2)) agent = false
      /\ manager_is_blocked (fst r2) agent = false).
Proof.
  intros Hroot Hnone pid_rule. split.
  - intros Hpid Hmiss m1 r2.
    assert (Hid : identifier_of agent (Some pid) uid = pretty pid).
    { unfold identifier_of, truthy_int.
      destruct (Z.eqb_spec pid 0) as [->|_]; [congruence|]. reflexivity. }
    destruct (linux_block_chain h (pretty pid) now Hroot) as [Hc1 Hr1].
    assert (Hfw1 : firewall m1
                   = fst (linux_block_all_traffic h (pretty pid) now)).
    { subst m1. unfold kill_network. rewrite Hid.
      cbn [manager_on_linux firewall block_all_traffic LinuxFirewall].
      destruct (linux_block_all_traffic h (pretty pid) now). reflexivity. }
    assert (Hnone1 : List.Forall
                       (fun rule => contains (killswitch_tag agent) rule
                                    = false)
                       (chain (firewall m1))).
    { rewrite Hfw1, Hc1. apply List.Forall_app. split; [exact Hnone|].
      constructor; [exact Hmiss|constructor]. }
    assert (Hroot1 : root (firewall m1) = true) by (rewrite Hfw1; exact Hr1).
    destruct (linux_restore_nothing (firewall m1) agent t Hroot1 Hnone1)
      as [Hsame Hres].
    subst r2. unfold restore_network.
    cbn [restore_access LinuxFirewall].
    destruct (linux_restore_access (firewall m1) agent t) as [fw report].
    cbn [fst snd firewall] in *. subst fw.
    split; [exact Hres|]. split; [rewrite Hfw1; exact Hc1|].
    split.
    + cbn [is_blocked LinuxFirewall].
      apply linux_tagged_rule_blocks; [exact Hroot1|].
      rewrite Hfw1, Hc1. apply in_or_app. right. left. reflexivity.
    + unfold manager_is_blocked. cbn [_blocked_agents].
      apply blocked_del_lacks.
  - intros m1 r2.
    destruct (linux_block_chain h agent now Hroot) as [Hc1 Hr1].
    assert (Hfw1 : firewall m1 = fst (linux_block_all_traffic h agent now)).
    { subst m1. unfold kill_network.
      cbn [identifier_of truthy_int manager_on_linux firewall
           block_all_traffic LinuxFirewall].
      destruct (linux_block_all_traffic h agent now). reflexivity. }
    assert (Hroot1 : root (firewall m1) = true) by (rewrite Hfw1; exact Hr1).
    destruct (linux_restore_chain (firewall m1) agent t Hroot1) as [Hc2 Hr2].
    assert (Hfw2 : firewall (fst r2)
                   = fst (linux_restore_access (firewall m1) agent t)).
    { subst r2. unfold restore_network.
      cbn [restore_access LinuxFirewall].
      destruct (linux_restore_access (firewall m1) agent t). reflexivity. }
    split; [|split; [|split]].
    + cbn [is_blocked LinuxFirewall].
      apply linux_tagged_rule_blocks; [exact Hroot1|].
      rewrite Hfw1, Hc1. apply in_or_app. right. left. reflexivity.
    + rewrite Hfw2, Hc2, Hfw1, Hc1, List.filter_app.
      rewrite (filter_untagged _ _ Hnone). cbn [List.filter].
      rewrite rule_text_shows_comment. cbn [negb]. apply app_nil_r.
    + rewrite Hfw2. cbn [is_blocked LinuxFirewall].
      apply linux_restore_unblocks.
    + subst r2. unfold restore_network, manager_is_blocked.
      destruct (restore_access (firewall m1) agent t) as [fw report].
      cbn [fst _blocked_agents]. apply blocked_del_lacks.
Qed.


(** The two rules [block_ip] adds for an address. *)
Definition ip_rules (ip_address : string) : list string :=
  [ rule_text anywhere ip_address (killswitch_tag ("IP:" ++ ip_address));
    rule_text ip_address anywhere (killswitch_tag ("IP:" ++ ip_address)) ].

Lemma killswitch_tag_ip ip_address :
  killswitch_tag ("IP:" ++ ip_address) = ("KILLSWITCH:IP:" ++ ip_address)%string.
Proof. reflexivity. Qed.

(** X30.  On Linux, as root, [block_ip] appends one DROP rule for
    traffic to the address and one for traffic from it, both tagged
    [KILLSWITCH:IP:<address>]; [list_rules] shows both; and
    [restore_access] under the identifier [IP:<address>] removes both
    and leaves the rest of an untagged chain as it was. *)
Theorem linux_block_ip_adds_two_rules_restore_removes_them
    (h : Iptables) ip_address t1 t2 :
  root h = true ->
  List.Forall
    (fun rule => contains (killswitch_tag ("IP:" ++ ip_address)) rule = false)
    (chain h) ->
  let r1 := block_ip h ip_address t1 in
  let r2 := restore_access (fst r1) ("IP:" ++ ip_address)%string t2 in
  chain (fst r1) = chain h ++ ip_rules ip_address
  /\ NetworkKill.result (snd r1) = SUCCESS
  /\ length (NetworkKill.rules_applied (snd r1)) = 2%nat
  /\ is_blocked (fst r1) ("IP:" ++ ip_address)%string = true
  /\ (forall rule, In rule (ip_rules ip_address) ->
                   In rule (list_rules (fst r1)))
  /\ chain (fst r2) = chain h
  /\ is_blocked (fst r2) ("IP:" ++ ip_address)%string = false.
Proof.
  intros Hroot Hnone. cbv zeta.
  cbn [block_ip restore_access is_blocked list_rules LinuxFirewall].
  assert (Hblock : linux_block_ip h ip_address t1
                   = (mkIptables (chain h ++ ip_rules ip_address) true,
                      snd (linux_block_ip h ip_address t1))
                   /\ NetworkKill.result (snd (linux_block_ip h ip_address t1))
                      = SUCCESS
                   /\ length (NetworkKill.rules_applied
                                (snd (linux_block_ip h ip_address t1)))
                      = 2%nat).
  { unfold linux_block_ip, iptables_append. rewrite Hroot.
    cbn [root chain fst snd NetworkKill.result NetworkKill.rules_applied
         app length].
    rewrite <- app_assoc. repeat split. }
  destruct Hblock as (Hb & Hres & Hlen). rewrite Hb. cbn [fst snd].
  set (h1 := mkIptables (chain h ++ ip_rules ip_address) true).
  assert (Htag : forall rule, In rule (ip_rules ip_address) ->
                 contains (killswitch_tag ("IP:" ++ ip_address)) rule = true).
  { intros rule [<-|[<-|[]]]; apply rule_text_shows_comment. }
  destruct (linux_restore_chain h1 ("IP:" ++ ip_address)%string t2 eq_refl)
    as [Hc2 _].
  split; [reflexivity|]. split; [exact Hres|]. split; [exact Hlen|].
  split; [|split; [|split]].
  - unfold linux_is_blocked, iptables_list. cbn [root h1 chain andb].
    apply existsb_exists.
    exists (rule_text anywhere ip_address
                      (killswitch_tag ("IP:" ++ ip_address))).
    split; [|apply rule_text_shows_comment].
    apply in_or_app. right. apply in_or_app. right. left. reflexivity.
  - intros rule Hin. unfold linux_list_rules, iptables_list.
    cbn [root h1 chain]. apply List.filter_In. split.
    + apply in_or_app. right. apply in_or_app. right. exact Hin.
    + apply (contains_app_l "KILLSWITCH:" ("IP:" ++ ip_address)).
      exact (Htag rule Hin).
  - rewrite Hc2. cbn [chain h1]. rewrite List.filter_app.
    rewrite (filter_untagged _ _ Hnone).
    cbn [List.filter ip_rules]. rewrite !rule_text_shows_comment.
    cbn [negb]. apply app_nil_r.
  - apply linux_restore_unblocks.
Qed.

(** *** Concrete runs *)

(** A Linux host without root. *)
Definition iptables_no_root : Iptables := mkIptables [] false.

Lemma manager_is_blocked_follows_calls_not_firewall_witness :
  let r := kill_network (manager_on_linux iptables_no_root) "agent-123"
                        (Some 12345%Z) None 0%Q 0%Q in
  manager_is_blocked (fst r) "agent-123" = true
  /\ NetworkKill.result (snd r) = FAILED.
Proof.
  destruct (manager_is_blocked_follows_calls_not_firewall
              (manager_on_linux iptables_no_root) "agent-123"
              (Some 12345%Z) None 0%Q 0%Q 1%Q)
    as (Hb & _ & _ & Hfail & _).
  cbv zeta. split; [exact Hb|]. apply Hfail. vm_compute. discriminate.
Defined.

Lemma restore_network_misses_rules_blocked_by_pid_witness :
  let m1 := fst (kill_network (manager_on_linux iptables0) "agent-123"
                              (Some 12345%Z) None 0%Q 0%Q) in
  let r2 := restore_network m1 "agent-123" 1%Q in
  NetworkKill.result (snd r2) = NOT_BLOCKED
  /\ is_blocked (firewall (fst r2)) "12345" = true
  /\ manager_is_blocked (fst r2) "agent-123" = false.
Proof.
  destruct (proj1 (restore_network_misses_rules_blocked_by_pid
                     iptables0 "agent-123" 12345%Z None 0%Q 0%Q 1%Q
                     eq_refl (List.Forall_nil _)))
    as (Hres & _ & Hfw & Hm).
  - discriminate.
  - vm_compute. reflexivity.
  - cbv zeta. split; [exact Hres|]. split; [exact Hfw|exact Hm].
Defined.


Lemma linux_block_ip_adds_two_rules_restore_removes_them_witness :
  let r1 := block_ip iptables0 "203.0.113.7" 0%Q in
  let r2 := restore_access (fst r1) "IP:203.0.113.7" 1%Q in
  length (chain (fst r1)) = 2%nat /\ chain (fst r2) = [].
Proof.
  destruct (linux_block_ip_adds_two_rules_restore_removes_them
              iptables0 "203.0.113.7" 0%Q 1%Q eq_refl (List.Forall_nil _))
    as (Hc1 & _ & _ & _ & _ & Hc2 & _).
  cbv zeta. split; [rewrite Hc1; reflexivity|exact Hc2].
Defined.

End NetworkManagerTheory.
